(** * Particle Weaver: generators, resampling and the per-frame update

    A shallow embedding of the numeric core of the particle library
    ([SphereGenerator], [ModelGenerator], [ParticleSystem]) together with
    the properties stated for it.

    JavaScript numbers are kept abstract behind the interface [JSNumber];
    every function of the library is written once against that interface
    and read through two instances:
    - [RNum], exact real arithmetic, for the geometric statements
      (norms, distances, index arithmetic);
    - [FNum], IEEE 754 binary64 (the kernel's primitive floats), for the
      statements about NaN and division by zero, where the functions are
      evaluated as the engine would evaluate them.

    Counts, lengths and array indices are integers ([Z]); a
    [Float32Array] is a [list] of numbers whose stores go through
    [fround]; [Math.random] is a stream of numbers read through a cursor;
    [console.warn] appends to a log; a thrown exception is the [Throw]
    outcome. *)

From Stdlib Require Import Floats.
From Stdlib Require Import ZArith List Reals Lra Lia String Ascii.
From Equations Require Import Equations.
From stdpp Require Import base list gmap strings.

Open Scope Z_scope.

(** ** Outcomes: a value or a thrown exception *)

Inductive outcome (A : Type) : Type :=
| Ok (a : A)
| Throw (msg : string).
Arguments Ok {A} a.
Arguments Throw {A} msg.

#[export] Instance outcome_ret : MRet outcome := λ A a, Ok a.
#[export] Instance outcome_bind : MBind outcome := λ A B k m,
  match m with
  | Ok a => k a
  | Throw e => Throw e
  end.

(** ** The numbers of the engine *)

Class JSNumber (num : Type) : Type := {
  ofZ : Z → num;              (* an integer literal, counter or length *)
  nadd : num → num → num;
  nsub : num → num → num;
  nmul : num → num → num;
  ndiv : num → num → num;
  nopp : num → num;           (* unary minus *)
  nsqrt : num → num;          (* Math.sqrt *)
  nsin : num → num;           (* Math.sin *)
  ncos : num → num;           (* Math.cos *)
  nPI : num;                  (* Math.PI *)
  nltb : num → num → bool;    (* a < b *)
  nleb : num → num → bool;    (* a <= b *)
  truthy : num → bool;        (* ToBoolean: false on 0 and NaN *)
  floorZ : num → Z;           (* Math.floor, read as an array index *)
  fround : num → num;         (* the rounding of a Float32Array store *)
  isNaN : num → bool;
  undef : num                 (* what arithmetic sees of an out-of-range read *)
}.

Declare Scope js_scope.
Delimit Scope js_scope with J.
Notation "# z" := (ofZ z) (at level 9, z at level 9, format "# z") : js_scope.
Infix "+" := nadd : js_scope.
Infix "-" := nsub : js_scope.
Infix "*" := nmul : js_scope.
Infix "/" := ndiv : js_scope.
Notation "- x" := (nopp x) : js_scope.
Infix "<?" := nltb : js_scope.
Infix "<=?" := nleb : js_scope.

(** Exact real arithmetic. There is no NaN; a store does not round. *)
#[export] Instance RNum : JSNumber R := {
  ofZ := IZR;
  nadd := Rplus;
  nsub := Rminus;
  nmul := Rmult;
  ndiv := Rdiv;
  nopp := Ropp;
  nsqrt := sqrt;
  nsin := sin;
  ncos := cos;
  nPI := PI;
  nltb a b := if Rlt_dec a b then true else false;
  nleb a b := if Rle_dec a b then true else false;
  truthy a := if Req_dec_T a 0%R then false else true;
  floorZ := Zfloor;
  fround a := a;
  isNaN _ := false;
  undef := 0%R
}.

(** IEEE 754 binary64. [Math.sin] and [Math.cos] are left to the engine
    (the language only asks for an approximation), so they are parameters
    of the instance. *)
(** The double of an integer of magnitude below [2^63]. *)
Definition float_ofZ (z : Z) : float :=
  if 0 <=? z then of_uint63 (Uint63.of_Z z)
  else (- of_uint63 (Uint63.of_Z (- z)))%float.

(** [Math.floor] of a finite double, as an integer: the mantissa
    shifted by the exponent, rounding down. *)
Definition float_floorZ (x : float) : Z :=
  match Prim2SF x with
  | S754_finite s m e => Z.shiftl (cond_Zopp s (Z.pos m)) e
  | _ => 0
  end.

(** [Math.fround]: the nearest number of single precision (24 bits of
    mantissa, exponents up to 128), again as a double. *)
Definition float_fround (x : float) : float :=
  match Prim2SF x with
  | S754_finite s m e =>
      SF2Prim (binary_normalize 24 128 (cond_Zopp s (Z.pos m)) e s)
  | _ => x
  end.

Definition FNum (fsin fcos : float → float) : JSNumber float := {|
  ofZ := float_ofZ;
  nadd := PrimFloat.add;
  nsub := PrimFloat.sub;
  nmul := PrimFloat.mul;
  ndiv := PrimFloat.div;
  nopp := PrimFloat.opp;
  nsqrt := PrimFloat.sqrt;
  nsin := fsin;
  ncos := fcos;
  nPI := 0x1.921fb54442d18p+1%float;
  nltb := PrimFloat.ltb;
  nleb := PrimFloat.leb;
  truthy a := negb (PrimFloat.eqb a 0%float || PrimFloat.is_nan a);
  floorZ := float_floorZ;
  fround := float_fround;
  isNaN := PrimFloat.is_nan;
  undef := nan
|}.

Definition len {A} (l : list A) : Z := Z.of_nat (length l).

(** A [THREE.Vector3], and a [Float32Array] as the list of its elements. *)
Abbreviation Vector3 num := (num * num * num)%type.
Abbreviation Float32Array num := (list num).

Section Prelude.
Context {num : Type} `{JSNumber num}.

(** [a || d] on an optional number, and on an optional count. *)
Definition or_default (o : option num) (d : num) : num :=
  match o with
  | Some a => if truthy a then a else d
  | None => d
  end.

Definition or_defaultZ (o : option Z) (d : Z) : Z :=
  match o with
  | Some a => if a =? 0 then d else a
  | None => d
  end.

(** A decimal literal [n/d]: the correctly rounded quotient of two small
    integers is the double nearest to the decimal. *)
Definition dec (n d : Z) : num := (#n / #d)%J.

(** [Math.pow(x, 2)]. *)
Definition pow2 (x : num) : num := (x * x)%J.

(** *** Typed arrays *)

(** [new Float32Array(n)]: zero-filled; a negative length is a RangeError. *)
Definition new_Float32Array (n : Z) : outcome (Float32Array num) :=
  if n <? 0 then Throw "RangeError: Invalid typed array length"
  else Ok (replicate (Z.to_nat n) (#0)%J).

(** [new Float32Array(xs)] from a plain array of numbers. *)
Definition Float32Array_from (xs : list num) : Float32Array num :=
  fround <$> xs.

(** [a[i]], where an index outside the array reads [undefined]. *)
Definition aget (a : Float32Array num) (i : Z) : num :=
  if i <? 0 then undef else default undef (a !! Z.to_nat i).

(** [a[i] = v]: rounded to single precision; ignored outside the array. *)
Definition aset (a : Float32Array num) (i : Z) (v : num) : Float32Array num :=
  if i <? 0 then a else <[Z.to_nat i := fround v]> a.

(** The Euclidean length [Math.sqrt(x*x + y*y + z*z)] of a triple. *)
Definition norm3 (x y z : num) : num := nsqrt (x * x + y * y + z * z)%J.

(** The point stored at particle index [i] of a flat buffer. *)
Definition point (a : Float32Array num) (i : Z) : Vector3 num :=
  (aget a (i * 3), aget a (i * 3 + 1), aget a (i * 3 + 2)).

End Prelude.

(** ** The console and the ambient random source *)

Inductive console_event : Type :=
| LogTotalVertices (total : Z)
| LogSamplingStep (step : Z)
| LogExtracted (n : Z)
| WarnAdjustLength (from to : Z)
| LogResampling (from to : Z)
| WarnReducedCount (from to : Z)
| ErrorResampleFailed.

Inductive level : Type := LevelLog | LevelWarn | LevelError.

Definition event_level (e : console_event) : level :=
  match e with
  | WarnAdjustLength _ _ | WarnReducedCount _ _ => LevelWarn
  | ErrorResampleFailed => LevelError
  | _ => LevelLog
  end.

(** What a call can change outside its result: the lines it printed and
    how many numbers it took from [Math.random]. *)
Record world : Type := { console : list console_event; cursor : nat }.

(** A computation that prints, draws random numbers and may throw. What
    was printed before a throw stays printed. *)
Definition M (A : Type) : Type := world → outcome A * world.

#[export] Instance M_ret : MRet M := λ A a w, (Ok a, w).
#[export] Instance M_bind : MBind M := λ A B k m w,
  match m w with
  | (Ok a, w') => k a w'
  | (Throw e, w') => (Throw e, w')
  end.
Definition throw {A} (msg : string) : M A := λ w, (Throw msg, w).
Definition print (e : console_event) : M unit := λ w,
  (Ok tt, {| console := console w ++ [e]; cursor := cursor w |}).
Definition random {num} (rnd : nat → num) : M num := λ w,
  (Ok (rnd (cursor w)), {| console := console w; cursor := S (cursor w) |}).

(** A loop [for (const x of xs) body] in [M]. *)
Fixpoint forM {A S} (body : S → A → M S) (s : S) (xs : list A) : M S :=
  match xs with
  | [] => mret s
  | x :: xs => s' ← body s x; forM body s' xs
  end.

(** ** SphereGenerator *)

Module SphereGenerator.
Section Defs.
Context {num : Type} `{JSNumber num}.

Record ShapeParams : Type := { radius : option num }.
Record ShapeOptions : Type := { count : option Z; params : option ShapeParams }.

(** [options.params?.radius] *)
Definition params_radius (options : ShapeOptions) : option num :=
  match params options with
  | Some p => radius p
  | None => None
  end.

Definition goldenAngle : num := (nPI * (#3 - nsqrt #5))%J.

(** The body of the loop of [generate] at index [i]. *)
Definition generate_step (count : Z) (radius : num)
    (positions : Float32Array num) (i : Z) : Float32Array num :=
  let y := (#1 - (#i / #(count - 1)) * #2)%J in
  let radiusAtY := nsqrt (#1 - y * y)%J in
  let theta := (goldenAngle * #i)%J in
  let x := (ncos theta * radiusAtY)%J in
  let z := (nsin theta * radiusAtY)%J in
  let index := i * 3 in
  let positions := aset positions index (x * radius)%J in
  let positions := aset positions (index + 1) (y * radius)%J in
  aset positions (index + 2) (z * radius)%J.

Definition generate (options : ShapeOptions) : outcome (Float32Array num) :=
  let count := or_defaultZ (count options) 1000 in
  let radius := or_default (params_radius options) (#1)%J in
  positions ← new_Float32Array (count * 3);
  Ok (foldl (generate_step count radius) positions (seqZ 0 count)).

(** The [do ... while] of [generateVolume]: draw three numbers, repeat
    while the point lies outside the unit ball. [fuel] bounds the number
    of rounds the model follows; [None] means the loop is still running
    after [fuel] rounds. The result carries the cursor after the draws. *)
Fixpoint draw_in_sphere (fuel : nat) (rnd : nat → num) (c : nat)
    : option (Vector3 num * nat) :=
  match fuel with
  | O => None
  | S fuel =>
      let x := (rnd c * #2 - #1)%J in
      let y := (rnd (c + 1)%nat * #2 - #1)%J in
      let z := (rnd (c + 2)%nat * #2 - #1)%J in
      if (#1 <? x * x + y * y + z * z)%J
      then draw_in_sphere fuel rnd (c + 3)%nat
      else Some ((x, y, z), (c + 3)%nat)
  end.

Definition generateVolume_step (fuel : nat) (rnd : nat → num) (radius : num)
    (st : option (Float32Array num * nat)) (i : Z)
    : option (Float32Array num * nat) :=
  '(positions, c) ← st;
  '((x, y, z), c') ← draw_in_sphere fuel rnd c;
  let index := i * 3 in
  let positions := aset positions index (x * radius)%J in
  let positions := aset positions (index + 1) (y * radius)%J in
  Some (aset positions (index + 2) (z * radius)%J, c').

(** [None]: some point's loop did not end within [fuel] rounds. *)
Definition generateVolume (fuel : nat) (rnd : nat → num) (c : nat)
    (options : ShapeOptions) : option (outcome (Float32Array num * nat)) :=
  let count := or_defaultZ (count options) 1000 in
  let radius := or_default (params_radius options) (#1)%J in
  match new_Float32Array (count * 3) with
  | Throw e => Some (Throw e)
  | Ok positions =>
      Ok <$> foldl (generateVolume_step fuel rnd radius)
                   (Some (positions, c)) (seqZ 0 count)
  end.

End Defs.
Arguments ShapeParams num : clear implicits.
Arguments ShapeOptions num : clear implicits.
End SphereGenerator.

(** ** ModelGenerator *)

Module ModelGenerator.
Section Defs.
Context {num : Type} `{JSNumber num}.

(** A mesh of the loaded scene (an object that passes
    [child instanceof THREE.Mesh && child.geometry]): the vertices of its
    position attribute (absent when the geometry has none) and the
    action of its world matrix on a vertex
    ([vertex.applyMatrix4(child.matrixWorld)]). *)
Record Mesh : Type := {
  position : option (list (Vector3 num));
  matrixWorld : Vector3 num → Vector3 num
}.

Inductive Object3D : Type :=
| IsMesh (m : Mesh)
| NotMesh.

(** [scene.traverse] visits the objects of the hierarchy in a fixed
    order; a scene is given by that sequence. *)
Definition Scene : Type := list Object3D.

Record ModelOptions : Type := {
  url : string;
  scale : option num;
  particleCount : option Z
}.

Definition maxVertices : Z := 15000.

(** [Math.ceil(a / b)] for a divisor [b > 0]. *)
Definition ceil_div (a b : Z) : Z := - ((- a) / b).

(** First pass of [extractVertices]: the callback of [traverse]. *)
Definition count_vertices (totalVertexCount : Z) (child : Object3D) : Z :=
  match child with
  | IsMesh m =>
      match position m with
      | Some positionAttribute => totalVertexCount + len positionAttribute
      | None => totalVertexCount
      end
  | NotMesh => totalVertexCount
  end.

Definition fromBufferAttribute (attribute : list (Vector3 num)) (i : Z)
    : Vector3 num :=
  default (undef, undef, undef) (attribute !! Z.to_nat i).

Definition multiplyScalar (v : Vector3 num) (s : num) : Vector3 num :=
  let '(x, y, z) := v in ((x * s)%J, (y * s)%J, (z * s)%J).

(** The sampling loop over one mesh,
    [for (let i = 0; i < positionAttribute.count; i += samplingStep)].
    [samplingStep] is at least 1 where it is computed, so the loop takes
    it as a [positive]. [vertices.length / 3 >= maxVertices] is read on
    the exact quotient. *)
Equations? extract_loop (positionAttribute : list (Vector3 num))
    (matrix : Vector3 num → Vector3 num) (scale : num)
    (samplingStep : positive) (i : Z) (vertices : list num) : list num
  by wf (Z.to_nat (len positionAttribute - i)) lt :=
  extract_loop positionAttribute matrix scale samplingStep i vertices
    with decide (i < len positionAttribute) := {
    | left _ =>
        if maxVertices * 3 <=? len vertices then vertices
        else
          let vertex := fromBufferAttribute positionAttribute i in
          let vertex := matrix vertex in
          let '(x, y, z) := multiplyScalar vertex scale in
          extract_loop positionAttribute matrix scale samplingStep
            (i + Z.pos samplingStep) (vertices ++ [x; y; z])
    | right _ => vertices }.
Proof. unfold len in *. lia. Qed.

(** Second pass of [extractVertices]: the callback of [traverse]. *)
Definition extract_child (scale : num) (samplingStep : positive)
    (vertices : list num) (child : Object3D) : list num :=
  match child with
  | IsMesh m =>
      match position m with
      | Some positionAttribute =>
          extract_loop positionAttribute (matrixWorld m) scale samplingStep
            0 vertices
      | None => vertices
      end
  | NotMesh => vertices
  end.

(** Downsampling branch of [resampleVertices], one iteration. *)
Definition downsample_step (originalVertices : Float32Array num) (step : num)
    (newVertices : Float32Array num) (i : Z) : Float32Array num :=
  let sourceIndex := floorZ (#i * step)%J * 3 in
  let targetIndex := i * 3 in
  if (sourceIndex + 2 <? len originalVertices)
     && (targetIndex + 2 <? len newVertices)
  then
    let newVertices :=
      aset newVertices targetIndex (aget originalVertices sourceIndex) in
    let newVertices :=
      aset newVertices (targetIndex + 1)
        (aget originalVertices (sourceIndex + 1)) in
    aset newVertices (targetIndex + 2) (aget originalVertices (sourceIndex + 2))
  else newVertices.

(** Upsampling branch, one iteration. [i % originalCount] is NaN when
    [originalCount] is 0, and every comparison with NaN is false. *)
Definition upsample_step (rnd : nat → num)
    (originalVertices : Float32Array num) (originalCount : Z)
    (newVertices : Float32Array num) (i : Z) : M (Float32Array num) :=
  let sourceIndex :=
    if originalCount =? 0 then None else Some (Z.rem i originalCount * 3) in
  let targetIndex := i * 3 in
  r ← random rnd;
  let offset := ((r - dec 1 2) * dec 1 100)%J in
  match sourceIndex with
  | Some sourceIndex =>
      if (sourceIndex + 2 <? len originalVertices)
         && (targetIndex + 2 <? len newVertices)
      then
        let newVertices :=
          aset newVertices targetIndex
            (aget originalVertices sourceIndex + offset)%J in
        let newVertices :=
          aset newVertices (targetIndex + 1)
            (aget originalVertices (sourceIndex + 1) + offset)%J in
        mret (aset newVertices (targetIndex + 2)
                (aget originalVertices (sourceIndex + 2) + offset)%J)
      else mret newVertices
  | None => mret newVertices
  end.

Definition maxParticles : Z := 1000.

(** [finalTargetCount] is [Math.floor(safeTargetCount)], the count being
    an integer. Inside the [try] only the allocation can throw. *)
Definition resampleVertices (rnd : nat → num)
    (originalVertices : Float32Array num) (targetCount : Z)
    : M (Float32Array num) :=
  let safeTargetCount := Z.min targetCount maxParticles in
  let finalTargetCount := safeTargetCount in
  if 50000 <? finalTargetCount * 3
  then throw "Target array size too large"
  else
    let originalCount := len originalVertices / 3 in
    print (LogResampling originalCount finalTargetCount);;
    match new_Float32Array (finalTargetCount * 3) with
    | Throw _ =>
        print ErrorResampleFailed;;
        throw "Array creation failed"
    | Ok newVertices =>
        newVertices ←
          (if finalTargetCount <=? originalCount then
             let step := (#originalCount / #finalTargetCount)%J in
             mret (foldl (downsample_step originalVertices step) newVertices
                     (seqZ 0 finalTargetCount))
           else
             forM (upsample_step rnd originalVertices originalCount)
               newVertices (seqZ 0 finalTargetCount));
        (if finalTargetCount <? targetCount
         then print (WarnReducedCount targetCount finalTargetCount)
         else mret tt);;
        mret newVertices
    end.

(** The value of [samplingStep]; the quotient under [Math.ceil] is read
    exactly. *)
Definition samplingStep_of (totalVertexCount : Z) : Z :=
  Z.max 1 (ceil_div totalVertexCount maxVertices).

Definition extractVertices (rnd : nat → num) (scene : Scene)
    (options : ModelOptions) : M (Float32Array num) :=
  let scale := or_default (scale options) (#1)%J in
  let totalVertexCount := foldl count_vertices 0 scene in
  print (LogTotalVertices totalVertexCount);;
  let samplingStep := samplingStep_of totalVertexCount in
  print (LogSamplingStep samplingStep);;
  let vertices :=
    foldl (extract_child scale (Z.to_pos samplingStep)) [] scene in
  let extractedParticleCount := len vertices / 3 in
  print (LogExtracted extractedParticleCount);;
  let validLength := extractedParticleCount * 3 in
  vertices ←
    (if negb (len vertices =? validLength) then
       print (WarnAdjustLength (len vertices) validLength);;
       mret (take (Z.to_nat validLength) vertices)
     else mret vertices);
  if 60000 <? validLength
  then throw "Too many vertices"
  else
    let targetParticleCount :=
      match particleCount options with
      | Some n => if n =? 0 then extractedParticleCount else Z.min n maxVertices
      | None => extractedParticleCount
      end in
    if negb (targetParticleCount =? extractedParticleCount)
    then resampleVertices rnd (Float32Array_from vertices) targetParticleCount
    else mret (Float32Array_from vertices).

(** *** Loading: the URL check, the cache and [generate] *)

(** [url.toLowerCase()] and [s.includes(format)]. A URL is a string of
    ASCII characters; the formats hold none of the letters that a
    character outside ASCII lowers to. *)
Definition toLowerCase_char (c : ascii) : ascii :=
  let n := N_of_ascii c in
  if ((65 <=? n)%N && (n <=? 90)%N)%bool then ascii_of_N (n + 32) else c.

Fixpoint toLowerCase (s : string) : string :=
  match s with
  | EmptyString => EmptyString
  | String c s => String (toLowerCase_char c) (toLowerCase s)
  end.

Fixpoint startsWith (s searchString : string) : bool :=
  match searchString, s with
  | EmptyString, _ => true
  | String a searchString, String b s =>
      bool_decide (a = b) && startsWith s searchString
  | String _ _, EmptyString => false
  end.

Fixpoint includes (s searchString : string) : bool :=
  startsWith s searchString
  || match s with
     | EmptyString => false
     | String _ s => includes s searchString
     end.

Definition supportedFormats : list string := [".gltf"; ".glb"].

Definition isValidModelUrl (url : string) : bool :=
  existsb (λ format, includes (toLowerCase url) format) supportedFormats.

(** What [loader.load] does with a URL, as the generator sees it: the
    'progress' events it reports, each with [loaded] and [total], and
    then the scene of the file or the error it fails with. *)
Definition Loader : Type := string → list (num * num) * outcome Scene.

(** The lines [generate] and [loadModel] print, with those of the
    extraction among them. *)
Inductive generate_event : Type :=
| LogLoadingProgress (percent : num)
| Extraction (e : console_event)
| ErrorFailedToGenerate (error : string).

(** What a call of [generate] can change: the console, the cursor of
    [Math.random] and the static [modelCache]. A cached scene is handed
    out as a clone; scenes are values here, so the clone is the scene. *)
Record session : Type := {
  printed : list generate_event;
  random_cursor : nat;
  modelCache : gmap string Scene
}.

Definition log (st : session) (lines : list generate_event) : session :=
  {| printed := printed st ++ lines; random_cursor := random_cursor st;
     modelCache := modelCache st |}.

Definition cache_set (st : session) (url : string) (scene : Scene) : session :=
  {| printed := printed st; random_cursor := random_cursor st;
     modelCache := <[url := scene]> (modelCache st) |}.

Definition loadModel (loader : Loader) (url : string) (st : session)
    : outcome Scene * session :=
  match modelCache st !! url with
  | Some cachedModel => (Ok cachedModel, st)
  | None =>
      let '(progress, result) := loader url in
      let st :=
        log st
          ((λ p, LogLoadingProgress (p.1 / p.2 * #100)%J) <$> progress) in
      match result with
      | Ok scene => (Ok scene, cache_set st url scene)
      | Throw error => (Throw error, st)
      end
  end.

(** [extractVertices] run inside a session: its lines go to the console
    and its random numbers are taken from the session's cursor. *)
Definition extract_in_session (rnd : nat → num) (scene : Scene)
    (options : ModelOptions) (st : session)
    : outcome (Float32Array num) * session :=
  let '(positions, w) :=
    extractVertices rnd scene options
      {| console := []; cursor := random_cursor st |} in
  (positions,
   {| printed := printed st ++ (Extraction <$> console w);
      random_cursor := cursor w; modelCache := modelCache st |}).

(** The body of the [try] of [generate]. *)
Definition generate_try (rnd : nat → num) (loader : Loader)
    (options : ModelOptions) (st : session)
    : outcome (Float32Array num) * session :=
  let '(scene, st) :=
    match modelCache st !! url options with
    | Some scene => (Ok scene, st)
    | None =>
        match loadModel loader (url options) st with
        | (Ok scene, st) =>
            (Ok scene,
             if (size (modelCache st) <? 10)%nat
             then cache_set st (url options) scene
             else st)
        | (Throw error, st) => (Throw error, st)
        end
    end in
  match scene with
  | Throw error => (Throw error, st)
  | Ok scene =>
      match extract_in_session rnd scene options st with
      | (Ok positions, st) =>
          if len positions =? 0
          then (Throw "No vertices found in the model", st)
          else (Ok positions, st)
      | (Throw error, st) => (Throw error, st)
      end
  end.

Definition generate (rnd : nat → num) (loader : Loader)
    (options : ModelOptions) (st : session)
    : outcome (Float32Array num) * session :=
  if negb (isValidModelUrl (url options))
  then
    (Throw ("Invalid model URL or unsupported format: " +:+ url options), st)
  else
    match generate_try rnd loader options st with
    | (Ok positions, st) => (Ok positions, st)
    | (Throw error, st) => (Throw error, log st [ErrorFailedToGenerate error])
    end.

(** *** Particles on the surface of the model *)

(** The options of [generateOnSurface]: those of the model and a
    count. *)
Record SurfaceOptions : Type := {
  surface_model : ModelOptions;
  count : option Z
}.

(** What [generateOnSurface] asks of the rendering library: the corners
    [min] and [max] of the box that [Box3.expandByObject] makes of the
    meshes, and the points at which a ray from [origin] along
    [direction] meets the meshes, nearest first
    ([Raycaster.intersectObjects]). *)
Record Raycasting : Type := {
  expandByObject : list Mesh → Vector3 num * Vector3 num;
  intersectObjects :
    list Mesh → Vector3 num → Vector3 num → list (Vector3 num)
}.

(** [child instanceof THREE.Mesh], collected by [traverse]. *)
Definition collect_meshes (scene : Scene) : list Mesh :=
  scene ≫= λ child,
    match child with
    | IsMesh m => [m]
    | NotMesh => []
    end.

(** [THREE.MathUtils.lerp(x, y, t)] *)
Definition lerp (x y t : num) : num := ((#1 - t) * x + t * y)%J.

Definition directions : list (Vector3 num) :=
  [((#1)%J, (#0)%J, (#0)%J); ((#(-1))%J, (#0)%J, (#0)%J);
   ((#0)%J, (#1)%J, (#0)%J); ((#0)%J, (#(-1))%J, (#0)%J);
   ((#0)%J, (#0)%J, (#1)%J); ((#0)%J, (#0)%J, (#(-1))%J)].

(** [directions[Math.floor(r * directions.length)]]; there is none when
    the index is outside the array. *)
Definition pick_direction (r : num) : option (Vector3 num) :=
  let index := floorZ (r * #(len directions))%J in
  if index <? 0 then None else directions !! Z.to_nat index.

(** The random point in the box, from three numbers of [Math.random]. *)
Definition random_point (rnd : nat → num) (box : Vector3 num * Vector3 num)
    (c : nat) : Vector3 num :=
  let '((minx, miny, minz), (maxx, maxy, maxz)) := box in
  (lerp minx maxx (rnd c), lerp miny maxy (rnd (c + 1)%nat),
   lerp minz maxz (rnd (c + 2)%nat)).

(** [while (placed < count && attempts < maxAttempts)]. A direction
    that is [undefined] makes [raycaster.set] fail. The loop returns
    its variables and the cursor of [Math.random]. *)
Equations? surface_loop (rnd : nat → num) (rc : Raycasting)
    (meshes : list Mesh) (box : Vector3 num * Vector3 num) (scale : num)
    (count maxAttempts : Z) (placed attempts : Z)
    (positions : Float32Array num) (c : nat)
    : outcome (Float32Array num * Z * Z * nat)
  by wf (Z.to_nat (maxAttempts - attempts)) lt :=
  surface_loop rnd rc meshes box scale count maxAttempts placed attempts
      positions c
    with decide (placed < count ∧ attempts < maxAttempts) := {
    | left _ =>
        let point := random_point rnd box c in
        match pick_direction (rnd (c + 3)%nat) with
        | None =>
            Throw "TypeError: Cannot read properties of undefined"
        | Some direction =>
            match intersectObjects rc meshes point direction with
            | intersection :: _ =>
                let '(x, y, z) := multiplyScalar intersection scale in
                let index := placed * 3 in
                surface_loop rnd rc meshes box scale count maxAttempts
                  (placed + 1) (attempts + 1)
                  (aset (aset (aset positions index x) (index + 1) y)
                     (index + 2) z)
                  (c + 4)%nat
            | [] =>
                surface_loop rnd rc meshes box scale count maxAttempts
                  placed (attempts + 1) positions (c + 4)%nat
            end
        end
    | right _ => Ok (positions, placed, attempts, c) }.
Proof. all: lia. Qed.

(** The loop that fills the remaining points from the vertices. *)
Definition fill_step (rnd : nat → num) (vertices : Float32Array num)
    (vertexCount : num) (st : Float32Array num * nat) (i : Z)
    : Float32Array num * nat :=
  let '(positions, c) := st in
  let sourceIndex := floorZ (rnd c * vertexCount)%J * 3 in
  let targetIndex := i * 3 in
  let positions := aset positions targetIndex (aget vertices sourceIndex) in
  let positions :=
    aset positions (targetIndex + 1) (aget vertices (sourceIndex + 1)) in
  (aset positions (targetIndex + 2) (aget vertices (sourceIndex + 2)), S c).

Definition set_cursor (st : session) (c : nat) : session :=
  {| printed := printed st; random_cursor := c; modelCache := modelCache st |}.

Definition generateOnSurface (rnd : nat → num) (loader : Loader)
    (rc : Raycasting) (options : SurfaceOptions) (st : session)
    : outcome (Float32Array num) * session :=
  match loadModel loader (url (surface_model options)) st with
  | (Throw error, st) => (Throw error, st)
  | (Ok scene, st) =>
      let count := or_defaultZ (count options) 1000 in
      let scale := or_default (scale (surface_model options)) (#1)%J in
      match new_Float32Array (count * 3) with
      | Throw error => (Throw error, st)
      | Ok positions =>
          let meshes := collect_meshes scene in
          if len meshes =? 0
          then (Throw "No meshes found in the model", st)
          else
            let box := expandByObject rc meshes in
            let maxAttempts := count * 10 in
            match surface_loop rnd rc meshes box scale count maxAttempts
                    0 0 positions (random_cursor st) with
            | Throw error => (Throw error, st)
            | Ok (positions, placed, _, c) =>
                let st := set_cursor st c in
                if placed <? count then
                  match extract_in_session rnd scene (surface_model options)
                          st with
                  | (Throw error, st) => (Throw error, st)
                  | (Ok vertices, st) =>
                      let vertexCount := (#(len vertices) / #3)%J in
                      let '(positions, c) :=
                        foldl (fill_step rnd vertices vertexCount)
                          (positions, random_cursor st)
                          (seqZ placed (count - placed)) in
                      (Ok positions, set_cursor st c)
                  end
                else (Ok positions, st)
            end
      end
  end.

End Defs.
Arguments Mesh num : clear implicits.
Arguments Object3D num : clear implicits.
Arguments Scene num : clear implicits.
Arguments ModelOptions num : clear implicits.
Arguments Loader num : clear implicits.
Arguments generate_event num : clear implicits.
Arguments session num : clear implicits.
Arguments SurfaceOptions num : clear implicits.
Arguments Raycasting num : clear implicits.
End ModelGenerator.

(** ** ParticleSystem *)

Module ParticleSystem.

(** Typed arrays are objects: [ParticleData] and the geometry hold
    references to them, and two references may name the same array. *)
Abbreviation ref := nat.

Section Defs.
Context {num : Type} `{JSNumber num}.

Local Abbreviation heap := (gmap nat (list num)).

Definition deref (σ : heap) (r : ref) : Float32Array num :=
  default [] (σ !! r).

Definition alloc (σ : heap) (a : Float32Array num) : ref * heap :=
  let r := fresh (dom σ) in (r, <[r := a]> σ).

Record ParticleData : Type := {
  originalPositions : ref;
  positions : ref;
  velocities : ref;
  colors : ref;
  sizes : ref;
  count : Z
}.

(** The options the class reads. A field that is [None] is absent from
    the object passed by the caller. *)
Record ParticleOptions : Type := {
  animated : option bool;
  animationSpeed : option num;
  animationRadius : option num;
  connected : option bool;
  connectionDistance : option num;
  interactive : option bool;
  mouseInfluence : option num;
  mouseRadius : option num
}.

(** [{ animated: false, animationSpeed: 1.0, ..., ...options }] *)
Definition with_defaults (o : ParticleOptions) : ParticleOptions := {|
  animated := Some (default false (animated o));
  animationSpeed := Some (default (#1)%J (animationSpeed o));
  animationRadius := Some (default (dec 1 10) (animationRadius o));
  connected := Some (default false (connected o));
  connectionDistance := Some (default (#1)%J (connectionDistance o));
  interactive := Some (default false (interactive o));
  mouseInfluence := Some (default (#1)%J (mouseInfluence o));
  mouseRadius := Some (default (#2)%J (mouseRadius o))
|}.

(** Truthiness of an optional flag. *)
Definition flag (o : option bool) : bool := default false o.

(** The fields of the object. [position_attribute] is the array of the
    geometry's 'position' attribute, the buffer that is drawn. *)
Record t : Type := {
  data : ParticleData;
  options : ParticleOptions;
  animatedPositions : ref;
  velocities_buffer : ref;
  time : num;
  mouseInfluenceVector : Vector3 num;
  position_attribute : ref;
  color_attribute : ref;
  aSize_attribute : ref;
  connections : option (Float32Array num)
}.

Definition initAnimationData (rnd : nat → num) (c : nat) (σ : heap)
    (data : ParticleData) : outcome (ref * ref * heap * nat) :=
  let particleCount := count data in
  let '(animatedPositions, σ) := alloc σ (deref σ (positions data)) in
  velocities ← new_Float32Array (particleCount * 3);
  let velocities :=
    foldl (λ velocities i,
             aset velocities i
               ((rnd (c + Z.to_nat i)%nat - dec 1 2) * dec 2 100)%J)
      velocities (seqZ 0 (particleCount * 3)) in
  let '(velocities, σ) := alloc σ velocities in
  Ok (animatedPositions, velocities, σ,
      (c + Z.to_nat (particleCount * 3))%nat).

(** The checks of [initGeometry]. The calls into the rendering library
    that follow them ([setAttribute], [computeBoundingSphere]) do not
    throw. *)
Definition initGeometry (σ : heap) (data : ParticleData) : outcome unit :=
  if negb (Z.rem (len (deref σ (positions data))) 3 =? 0)
  then Throw "Position data must be divisible by 3 (x,y,z components)"
  else if negb (len (deref σ (colors data)) =? count data * 3)
  then Throw "Color data length mismatch"
  else if negb (len (deref σ (sizes data)) =? count data)
  then Throw "Size data length mismatch"
  else Ok tt.

(** The inner loop body of [initConnections] for the pair [(i, j)]. *)
Definition connect_pair (a : Float32Array num) (maxDistance : num) (i : Z)
    (positions : list num) (j : Z) : list num :=
  let '(x1, y1, z1) := point a i in
  let '(x2, y2, z2) := point a j in
  let distance :=
    nsqrt (pow2 (x2 - x1) + pow2 (y2 - y1) + pow2 (z2 - z1))%J in
  if (distance <=? maxDistance)%J
  then positions ++ [x1; y1; z1; x2; y2; z2]
  else positions.

(** The outer loop body: [for (let j = i + 1; j < particleCount; j++)]. *)
Definition connect_from (a : Float32Array num) (particleCount : Z)
    (maxDistance : num) (positions : list num) (i : Z) : list num :=
  foldl (connect_pair a maxDistance i) positions
    (seqZ (i + 1) (particleCount - (i + 1))).

(** The endpoints pushed by the two loops of [initConnections]. *)
Definition connection_positions (a : Float32Array num) (particleCount : Z)
    (maxDistance : num) : list num :=
  foldl (connect_from a particleCount maxDistance) [] (seqZ 0 particleCount).

Definition set_connections (s : t) (c : option (Float32Array num)) : t := {|
  data := data s; options := options s;
  animatedPositions := animatedPositions s;
  velocities_buffer := velocities_buffer s; time := time s;
  mouseInfluenceVector := mouseInfluenceVector s;
  position_attribute := position_attribute s;
  color_attribute := color_attribute s;
  aSize_attribute := aSize_attribute s;
  connections := c
|}.

Definition initConnections (σ : heap) (s : t) : t :=
  if negb (flag (connected (options s))) then s
  else
    let particleCount := count (data s) in
    let maxDistance := or_default (connectionDistance (options s)) (#1)%J in
    let positions :=
      connection_positions (deref σ (positions (data s))) particleCount
        maxDistance in
    if 0 <? len positions
    then set_connections s (Some (Float32Array_from positions))
    else s.

Definition constructor (rnd : nat → num) (c : nat) (σ : heap)
    (data : ParticleData) (options : ParticleOptions)
    : outcome (t * heap * nat) :=
  let options := with_defaults options in
  '(animatedPositions, velocities, σ, c) ← initAnimationData rnd c σ data;
  _ ← initGeometry σ data;
  let s := {|
    data := data; options := options;
    animatedPositions := animatedPositions;
    velocities_buffer := velocities;
    time := (#0)%J;
    mouseInfluenceVector := ((#0)%J, (#0)%J, (#0)%J);
    position_attribute := animatedPositions;
    color_attribute := colors data;
    aSize_attribute := sizes data;
    connections := None
  |} in
  let s := if flag (connected options) then initConnections σ s else s in
  Ok (s, σ, c).

(** The pointer in window pixels, the camera through its [unproject],
    and the size of the window. *)
Definition Vector2 : Type := num * num.
Record Camera : Type := { unproject : Vector3 num → Vector3 num }.
Record Window : Type := { innerWidth : num; innerHeight : num }.

(** [positionAttribute.setXYZ(i, x, y, z)] *)
Definition setXYZ (σ : heap) (attribute : ref) (i : Z) (x y z : num) : heap :=
  alter (λ array,
           let array := aset array (i * 3) x in
           let array := aset array (i * 3 + 1) y in
           aset array (i * 3 + 2) z)
    attribute σ.

(** One iteration of the loop of [update]. The state of the loop is the
    heap and the scratch vector [mouseInfluenceVector]. *)
Definition update_particle (w : Window) (s : t)
    (mousePosition : option Vector2) (camera : option Camera) (time : num)
    (st : heap * Vector3 num) (i : Z) : heap * Vector3 num :=
  let '(σ, miv) := st in
  let i3 := i * 3 in
  let original := deref σ (positions (data s)) in
  let originalX := aget original i3 in
  let originalY := aget original (i3 + 1) in
  let originalZ := aget original (i3 + 2) in
  let '(newX, newY, newZ) :=
    if flag (animated (options s)) then
      let animRadius := or_default (animationRadius (options s)) (dec 1 10) in
      ((originalX + nsin (time + #i * dec 1 10) * animRadius)%J,
       (originalY + ncos (time + #i * dec 15 100) * animRadius * dec 1 2)%J,
       (originalZ + nsin (time + #i * dec 2 10) * animRadius * dec 3 10)%J)
    else (originalX, originalY, originalZ) in
  let '(newX, newY, newZ, miv) :=
    match flag (interactive (options s)), mousePosition, camera with
    | true, Some (mouseX, mouseY), Some camera =>
        let mouseInfluence := or_default (mouseInfluence (options s)) (#1)%J in
        let mouseRadius := or_default (mouseRadius (options s)) (#2)%J in
        let '(mx, my, mz) :=
          unproject camera
            (((mouseX / innerWidth w) * #2 - #1)%J,
             ((- (mouseY / innerHeight w)) * #2 + #1)%J,
             dec 1 2) in
        let distance :=
          nsqrt (pow2 (newX - mx) + pow2 (newY - my) + pow2 (newZ - mz))%J in
        if (distance <? mouseRadius)%J then
          let force :=
            ((#1 - distance / mouseRadius) * mouseInfluence * dec 1 10)%J in
          let dirX := ((newX - mx) / distance)%J in
          let dirY := ((newY - my) / distance)%J in
          let dirZ := ((newZ - mz) / distance)%J in
          ((newX + dirX * force)%J, (newY + dirY * force)%J,
           (newZ + dirZ * force)%J, (mx, my, mz))
        else (newX, newY, newZ, (mx, my, mz))
    | _, _, _ => (newX, newY, newZ, miv)
    end in
  (setXYZ σ (position_attribute s) i newX newY newZ, miv).

Definition set_time (s : t) (time : num) (miv : Vector3 num) : t := {|
  data := data s; options := options s;
  animatedPositions := animatedPositions s;
  velocities_buffer := velocities_buffer s; time := time;
  mouseInfluenceVector := miv;
  position_attribute := position_attribute s;
  color_attribute := color_attribute s;
  aSize_attribute := aSize_attribute s;
  connections := connections s
|}.

Definition update (w : Window) (s : t) (σ : heap) (deltaTime : num)
    (mousePosition : option Vector2) (camera : option Camera) : t * heap :=
  if negb (flag (animated (options s))) && negb (flag (interactive (options s)))
  then (s, σ)
  else
    let time :=
      (time s + deltaTime * or_default (animationSpeed (options s)) #1)%J in
    let particleCount := count (data s) in
    let '(σ, miv) :=
      foldl (update_particle w s mousePosition camera time)
        (σ, mouseInfluenceVector s) (seqZ 0 particleCount) in
    (set_time s time miv, σ).

Definition set_data (d : ParticleData) (positions colors sizes : ref)
    : ParticleData := {|
  originalPositions := originalPositions d;
  positions := positions;
  velocities := velocities d;
  colors := colors;
  sizes := sizes;
  count := count d
|}.

Definition set_buffers (s : t) (d : ParticleData) (p c a : ref) : t := {|
  data := d; options := options s;
  animatedPositions := animatedPositions s;
  velocities_buffer := velocities_buffer s; time := time s;
  mouseInfluenceVector := mouseInfluenceVector s;
  position_attribute := p;
  color_attribute := c;
  aSize_attribute := a;
  connections := connections s
|}.

(** [updatePositions]: the data and the attribute now name the one array
    that was passed. *)
Definition updatePositions (s : t) (newPositions : ref) : t :=
  set_buffers s
    (set_data (data s) newPositions (colors (data s)) (sizes (data s)))
    newPositions (color_attribute s) (aSize_attribute s).

Definition updateColors (s : t) (newColors : ref) : t :=
  set_buffers s
    (set_data (data s) (positions (data s)) newColors (sizes (data s)))
    (position_attribute s) newColors (aSize_attribute s).

Definition updateSizes (s : t) (newSizes : ref) : t :=
  set_buffers s
    (set_data (data s) (positions (data s)) (colors (data s)) newSizes)
    (position_attribute s) (color_attribute s) newSizes.

(** The arrays of the data passed to the constructor exist. *)
Definition valid_data (σ : heap) (d : ParticleData) : Prop :=
  is_Some (σ !! positions d) ∧ is_Some (σ !! colors d)
  ∧ is_Some (σ !! sizes d).

(** The states a caller can bring about: construct the object, then call
    its methods; between calls the caller may create further arrays. *)
Inductive reachable (w : Window) (rnd : nat → num) (o : ParticleOptions)
    : t → heap → Prop :=
| reach_new c σ d s σ' c' :
    valid_data σ d →
    constructor rnd c σ d o = Ok (s, σ', c') →
    reachable w rnd o s σ'
| reach_update s σ deltaTime mousePosition camera s' σ' :
    reachable w rnd o s σ →
    update w s σ deltaTime mousePosition camera = (s', σ') →
    reachable w rnd o s' σ'
| reach_updatePositions s σ r :
    reachable w rnd o s σ → reachable w rnd o (updatePositions s r) σ
| reach_updateColors s σ r :
    reachable w rnd o s σ → reachable w rnd o (updateColors s r) σ
| reach_updateSizes s σ r :
    reachable w rnd o s σ → reachable w rnd o (updateSizes s r) σ
| reach_alloc s σ r a :
    reachable w rnd o s σ → σ !! r = None →
    reachable w rnd o s (<[r := a]> σ).

(** What the scene is given to draw: the points, through the arrays of
    the three attributes of their geometry, and the line segments of the
    connections, through their position array. *)
Inductive Renderable : Type :=
| Points (position color aSize : ref)
| LineSegments (position : Float32Array num).

Definition getData (s : t) : ParticleData := data s.

Definition getRenderableObjects (s : t) : list Renderable :=
  let objects :=
    [Points (position_attribute s) (color_attribute s) (aSize_attribute s)] in
  match connections s with
  | Some connections => objects ++ [LineSegments connections]
  | None => objects
  end.

End Defs.
Arguments Renderable num : clear implicits.
Arguments ParticleOptions num : clear implicits.
Arguments t num : clear implicits.
Arguments Camera num : clear implicits.
Arguments Window num : clear implicits.
Arguments Vector2 num : clear implicits.
End ParticleSystem.

(** ** ParticleWeaver *)

Module ParticleWeaver.
Section Defs.
Context {num : Type} `{JSNumber num}.

Local Abbreviation heap := (gmap nat (list num)).

(** A colour as the caller may give it: a number, a CSS string or a
    [THREE.Color]. *)
Inductive ColorValue : Type :=
| ColorHex (hex : Z)
| ColorString (css : string)
| ColorObject (rgb : Vector3 num).

(** [THREE.Color] as the weaver uses it: the components of
    [new THREE.Color(color)], also for an [undefined] colour, and
    [offsetHSL]. *)
Record Three : Type := {
  new_Color : option ColorValue → Vector3 num;
  offsetHSL : Vector3 num → num → num → num → Vector3 num
}.

Record CameraOptions : Type := {
  fov : option num;
  near : option num;
  far : option num;
  position : option (Vector3 num)
}.

Record RendererOptions : Type := {
  antialias : option bool;
  backgroundColor : option Z;
  alpha : option bool
}.

(** The [particle] group: the fields the weaver reads, and in [system]
    the fields of the same object that the particle system reads. *)
Record ParticleOptions : Type := {
  size : option num;
  color : option ColorValue;
  opacity : option num;
  sizeVariation : option num;
  colorVariation : option num;
  system : ParticleSystem.ParticleOptions num
}.

Record ParticleWeaverOptions : Type := {
  camera : option CameraOptions;
  renderer : option RendererOptions;
  shape : option (SphereGenerator.ShapeOptions num);
  model : option (ModelGenerator.ModelOptions num);
  particle : option ParticleOptions
}.

(** A property in an object literal [{ ...a, ...b }]: that of [b] when
    [b] has it, else that of [a]. *)
Definition spread {A} (a b : option A) : option A :=
  match b with
  | Some x => Some x
  | None => a
  end.

Definition spread_camera (a b : CameraOptions) : CameraOptions := {|
  fov := spread (fov a) (fov b);
  near := spread (near a) (near b);
  far := spread (far a) (far b);
  position := spread (position a) (position b)
|}.

Definition spread_renderer (a b : RendererOptions) : RendererOptions := {|
  antialias := spread (antialias a) (antialias b);
  backgroundColor := spread (backgroundColor a) (backgroundColor b);
  alpha := spread (alpha a) (alpha b)
|}.

Definition spread_system (a b : ParticleSystem.ParticleOptions num)
    : ParticleSystem.ParticleOptions num := {|
  ParticleSystem.animated :=
    spread (ParticleSystem.animated a) (ParticleSystem.animated b);
  ParticleSystem.animationSpeed :=
    spread (ParticleSystem.animationSpeed a) (ParticleSystem.animationSpeed b);
  ParticleSystem.animationRadius :=
    spread (ParticleSystem.animationRadius a)
      (ParticleSystem.animationRadius b);
  ParticleSystem.connected :=
    spread (ParticleSystem.connected a) (ParticleSystem.connected b);
  ParticleSystem.connectionDistance :=
    spread (ParticleSystem.connectionDistance a)
      (ParticleSystem.connectionDistance b);
  ParticleSystem.interactive :=
    spread (ParticleSystem.interactive a) (ParticleSystem.interactive b);
  ParticleSystem.mouseInfluence :=
    spread (ParticleSystem.mouseInfluence a) (ParticleSystem.mouseInfluence b);
  ParticleSystem.mouseRadius :=
    spread (ParticleSystem.mouseRadius a) (ParticleSystem.mouseRadius b)
|}.

Definition spread_particle (a b : ParticleOptions) : ParticleOptions := {|
  size := spread (size a) (size b);
  color := spread (color a) (color b);
  opacity := spread (opacity a) (opacity b);
  sizeVariation := spread (sizeVariation a) (sizeVariation b);
  colorVariation := spread (colorVariation a) (colorVariation b);
  system := spread_system (system a) (system b)
|}.

(** [{ ...defaults, ...group }], where spreading an absent group adds
    nothing. *)
Definition spread_onto {A} (f : A → A → A) (defaults : A) (group : option A)
    : A :=
  match group with
  | Some g => f defaults g
  | None => defaults
  end.

Definition cameraDefaults : CameraOptions := {|
  fov := Some (#75)%J; near := Some (dec 1 10); far := Some (#1000)%J;
  position := Some ((#0)%J, (#0)%J, (#5)%J)
|}.

Definition rendererDefaults : RendererOptions := {|
  antialias := Some true; backgroundColor := Some 0; alpha := Some false
|}.

Definition no_system_options : ParticleSystem.ParticleOptions num := {|
  ParticleSystem.animated := None; ParticleSystem.animationSpeed := None;
  ParticleSystem.animationRadius := None; ParticleSystem.connected := None;
  ParticleSystem.connectionDistance := None;
  ParticleSystem.interactive := None; ParticleSystem.mouseInfluence := None;
  ParticleSystem.mouseRadius := None
|}.

Definition particleDefaults : ParticleOptions := {|
  size := Some (#1)%J; color := Some (ColorHex 16777215);
  opacity := Some (#1)%J; sizeVariation := Some (#0)%J;
  colorVariation := Some (#0)%J; system := no_system_options
|}.

(** The object literal that [mergeDefaultOptions] returns: the three
    merged groups first, then [...options]. *)
Definition mergeDefaultOptions (options : ParticleWeaverOptions)
    : ParticleWeaverOptions :=
  let merged_camera :=
    spread_onto spread_camera cameraDefaults (camera options) in
  let merged_renderer :=
    spread_onto spread_renderer rendererDefaults (renderer options) in
  let merged_particle :=
    spread_onto spread_particle particleDefaults (particle options) in
  {| camera := spread (Some merged_camera) (camera options);
     renderer := spread (Some merged_renderer) (renderer options);
     shape := spread None (shape options);
     model := spread None (model options);
     particle := spread (Some merged_particle) (particle options) |}.

(** A property that is read as a number: [undefined] turns into NaN. *)
Definition to_number (o : option num) : num := default undef o.

(** [o > 0] on a property: false on [undefined]. *)
Definition is_positive (o : option num) : bool :=
  match o with
  | Some a => (#0 <? a)%J
  | None => false
  end.

(** [Math.max(a, b)], for arguments that are not zeros of opposite
    sign: NaN when either is NaN. *)
Definition Math_max (a b : num) : num :=
  if isNaN a || isNaN b then undef
  else if (a <? b)%J then b else a.

(** One iteration of the loop of [processBatch]; the state is the heap
    and the cursor of [Math.random]. *)
Definition processBatch_step (three : Three) (rnd : nat → num)
    (baseColor : Vector3 num) (particle : ParticleOptions)
    (data : ParticleSystem.ParticleData) (st : heap * nat) (i : Z)
    : heap * nat :=
  let '(σ, c) := st in
  let colorOffset := i * 3 in
  let '(particleColor, c) :=
    if is_positive (colorVariation particle) then
      (offsetHSL three baseColor
         ((rnd c - dec 1 2) * to_number (colorVariation particle))%J
         ((rnd (c + 1)%nat - dec 1 2) * to_number (colorVariation particle))%J
         ((rnd (c + 2)%nat - dec 1 2) * to_number (colorVariation particle))%J,
       (c + 3)%nat)
    else (baseColor, c) in
  let '(r, g, b) := particleColor in
  let σ :=
    alter (λ colors,
             let colors := aset colors colorOffset r in
             let colors := aset colors (colorOffset + 1) g in
             aset colors (colorOffset + 2) b)
      (ParticleSystem.colors data) σ in
  let σ :=
    alter (λ sizes,
             aset sizes i
               (Math_max (dec 1 100)
                  (to_number (size particle)
                   + (rnd c - dec 1 2) * to_number (sizeVariation particle))%J))
      (ParticleSystem.sizes data) σ in
  (σ, S c).

Definition processBatch (three : Three) (rnd : nat → num)
    (baseColor : Vector3 num) (particle : ParticleOptions)
    (data : ParticleSystem.ParticleData) (startIndex endIndex : Z)
    (st : heap * nat) : heap * nat :=
  foldl (processBatch_step three rnd baseColor particle data) st
    (seqZ startIndex (endIndex - startIndex)).

Definition batchSize : Z := 10000.

(** [for (let start = 0; start < data.count; start += batchSize)]. *)
Equations? batches (process : Z → Z → heap * nat → heap * nat) (count : Z)
    (start : Z) (st : heap * nat) : heap * nat
  by wf (Z.to_nat (count - start)) lt :=
  batches process count start st with decide (start < count) := {
    | left _ =>
        let endIndex := Z.min (start + batchSize) count in
        batches process count (start + batchSize) (process start endIndex st)
    | right _ => st }.
Proof. unfold batchSize. lia. Qed.

Definition initializeParticleProperties (three : Three) (rnd : nat → num)
    (particle : ParticleOptions) (data : ParticleSystem.ParticleData)
    (st : heap * nat) : heap * nat :=
  let baseColor := new_Color three (color particle) in
  let processBatch := processBatch three rnd baseColor particle data in
  if batchSize <? ParticleSystem.count data
  then batches processBatch (ParticleSystem.count data) 0 st
  else processBatch 0 (ParticleSystem.count data) st.

(** The lines the weaver prints when it creates the particle system. *)
Inductive weaver_event : Type :=
| WarnLargeParticleCount (particleCount : Z)
| WarnHighMemory
| ErrorFailedToCreate (error : string)
| FromGenerator (e : ModelGenerator.generate_event num)
| ErrorFailedToLoadModel (error : string).

(** The weaver, as far as the creation of its particles goes. *)
Record t : Type := {
  options : ParticleWeaverOptions;
  memory : heap;
  random_cursor : nat;
  lines : list weaver_event;
  scene : list (ParticleSystem.Renderable num);
  particleSystem : option (ParticleSystem.t num)
}.

Definition set_memory (this : t) (σ : heap) (c : nat) : t := {|
  options := options this; memory := σ; random_cursor := c;
  lines := lines this; scene := scene this;
  particleSystem := particleSystem this
|}.

Definition warn (this : t) (e : weaver_event) : t := {|
  options := options this; memory := memory this;
  random_cursor := random_cursor this; lines := lines this ++ [e];
  scene := scene this; particleSystem := particleSystem this
|}.

(** [createParticleSystem(positions)] for a buffer that holds whole
    points, which is what the generators return; [positions.length / 3]
    is then a count. The result is [None] on any other buffer: a
    fractional count is outside this model. The memory estimate
    [positions.length * 16 / 2^20 > 100] is read on the exact quotient. *)
Definition createParticleSystem (three : Three) (rnd : nat → num) (this : t)
    (positions : ParticleSystem.ref) : option (outcome unit * t) :=
  let length := len (ParticleSystem.deref (memory this) positions) in
  if negb (length `mod` 3 =? 0) then None
  else
    let particleCount := length / 3 in
    let this :=
      if 50000 <? particleCount
      then warn this (WarnLargeParticleCount particleCount) else this in
    let this :=
      if 100 * (1024 * 1024) <? length * 4 * 4
      then warn this WarnHighMemory else this in
    let σ := memory this in
    let '(originalPositions, σ) :=
      ParticleSystem.alloc σ (ParticleSystem.deref σ positions) in
    let '(velocities, σ) :=
      ParticleSystem.alloc σ (replicate (Z.to_nat length) (#0)%J) in
    let '(colors, σ) :=
      ParticleSystem.alloc σ
        (replicate (Z.to_nat (particleCount * 3)) (#0)%J) in
    let '(sizes, σ) :=
      ParticleSystem.alloc σ (replicate (Z.to_nat particleCount) (#0)%J) in
    let particleData := {|
      ParticleSystem.originalPositions := originalPositions;
      ParticleSystem.positions := positions;
      ParticleSystem.velocities := velocities;
      ParticleSystem.colors := colors;
      ParticleSystem.sizes := sizes;
      ParticleSystem.count := particleCount
    |} in
    match particle (options this) with
    | None =>
        Some (Throw "TypeError: Cannot destructure 'this.options.particle'",
              set_memory this σ (random_cursor this))
    | Some particleOptions =>
        let '(σ, c) :=
          initializeParticleProperties three rnd particleOptions particleData
            (σ, random_cursor this) in
        match ParticleSystem.constructor rnd c σ particleData
                (system particleOptions) with
        | Ok (particleSystem, σ, c) =>
            Some
              (Ok tt,
               {| options := options this; memory := σ; random_cursor := c;
                  lines := lines this;
                  scene :=
                    scene this
                    ++ ParticleSystem.getRenderableObjects particleSystem;
                  particleSystem := Some particleSystem |})
        | Throw error =>
            Some
              (Throw "WebGL context creation failed",
               warn (set_memory this σ c) (ErrorFailedToCreate error))
        end
    end.

(** [createParticlesFromShape]: the positions of the sphere become a new
    array, which is handed to [createParticleSystem]. *)
Definition createParticlesFromShape (three : Three) (rnd : nat → num)
    (this : t) : option (outcome unit * t) :=
  match shape (options this) with
  | None => Some (Ok tt, this)
  | Some shapeOptions =>
      match SphereGenerator.generate shapeOptions with
      | Throw error => Some (Throw error, this)
      | Ok positions =>
          let '(positions, σ) :=
            ParticleSystem.alloc (memory this) positions in
          createParticleSystem three rnd
            (set_memory this σ (random_cursor this)) positions
      end
  end.

(** [createParticlesFromModel]: the positions of the model become a new
    array, which is handed to [createParticleSystem]; whatever is thrown
    on the way is printed and not thrown again. The static model cache
    is passed in and returned; the lines of the generator go to the
    same console. *)
Definition createParticlesFromModel (three : Three) (rnd : nat → num)
    (loader : ModelGenerator.Loader num) (this : t)
    (modelCache : gmap string (ModelGenerator.Scene num))
    : option (t * gmap string (ModelGenerator.Scene num)) :=
  match model (options this) with
  | None => Some (this, modelCache)
  | Some modelOptions =>
      let '(result, st) :=
        ModelGenerator.generate rnd loader modelOptions
          {| ModelGenerator.printed := [];
             ModelGenerator.random_cursor := random_cursor this;
             ModelGenerator.modelCache := modelCache |} in
      let this := {|
        options := options this; memory := memory this;
        random_cursor := ModelGenerator.random_cursor st;
        lines := lines this ++ (FromGenerator <$> ModelGenerator.printed st);
        scene := scene this; particleSystem := particleSystem this
      |} in
      match result with
      | Throw error =>
          Some (warn this (ErrorFailedToLoadModel error),
                ModelGenerator.modelCache st)
      | Ok positions =>
          let '(positions, σ) :=
            ParticleSystem.alloc (memory this) positions in
          match createParticleSystem three rnd
                  (set_memory this σ (random_cursor this)) positions with
          | None => None
          | Some (Ok _, this) => Some (this, ModelGenerator.modelCache st)
          | Some (Throw error, this) =>
              Some (warn this (ErrorFailedToLoadModel error),
                    ModelGenerator.modelCache st)
          end
      end
  end.

End Defs.
Arguments ColorValue num : clear implicits.
Arguments weaver_event num : clear implicits.
Arguments Three num : clear implicits.
Arguments CameraOptions num : clear implicits.
Arguments ParticleOptions num : clear implicits.
Arguments ParticleWeaverOptions num : clear implicits.
Arguments t num : clear implicits.
End ParticleWeaver.

(** ** Requests and observations used in the statements *)

(** The request [{ type: 'sphere', count, params: { radius: r } }]. *)
Definition sphere_request {num} (n : Z) (r : num)
    : SphereGenerator.ShapeOptions num :=
  {| SphereGenerator.count := Some n;
     SphereGenerator.params := Some {| SphereGenerator.radius := Some r |} |}.

(** The radius the sphere generators work with: [r || 1]. *)
Definition effective_radius {num : Type} `{!JSNumber num} (r : num) : num :=
  or_default (Some r) (#1)%J.

(** The norm of the point stored at particle index [i]. *)
Definition norm_at {num : Type} `{!JSNumber num} (a : Float32Array num)
    (i : Z) : num :=
  let '(x, y, z) := point a i in norm3 x y z.

(** The triple the [k]-th round of the rejection loop draws when the loop
    was entered at cursor [c], and whether the loop stops on it. *)
Definition candidate {num : Type} `{!JSNumber num} (rnd : nat → num)
    (c k : nat) : Vector3 num :=
  ((rnd (c + 3 * k)%nat * #2 - #1)%J,
   (rnd (c + 3 * k + 1)%nat * #2 - #1)%J,
   (rnd (c + 3 * k + 2)%nat * #2 - #1)%J).

Definition accepted {num : Type} `{!JSNumber num} (v : Vector3 num) : bool :=
  let '(x, y, z) := v in negb (#1 <? x * x + y * y + z * z)%J.

(** The vertices a sampling loop entered at index [i] takes from one
    mesh when it runs [m] rounds: those at [i], [i + step], ... *)
Definition sampled {num : Type} `{!JSNumber num}
    (positionAttribute : list (Vector3 num))
    (matrix : Vector3 num → Vector3 num) (scale : num) (step i m : Z)
    : list num :=
  seqZ 0 m ≫= λ k,
    let '(x, y, z) :=
      ModelGenerator.multiplyScalar
        (matrix
           (ModelGenerator.fromBufferAttribute positionAttribute
              (i + k * step)))
        scale in
    [x; y; z].

(** The distance [initConnections] computes for the particles [i], [j]
    and the six numbers it pushes for them. *)
Definition measured {num : Type} `{!JSNumber num} (a : Float32Array num)
    (i j : Z) : num :=
  let '(x1, y1, z1) := point a i in
  let '(x2, y2, z2) := point a j in
  nsqrt (pow2 (x2 - x1) + pow2 (y2 - y1) + pow2 (z2 - z1))%J.

Definition segment {num : Type} `{!JSNumber num} (a : Float32Array num)
    (p : Z * Z) : list num :=
  let '(x1, y1, z1) := point a p.1 in
  let '(x2, y2, z2) := point a p.2 in
  [x1; y1; z1; x2; y2; z2].

(** The connection graph in the words of the specification: the pairs
    [(i, j)], [i < j], in the order of the two loops, and among them the
    ones whose Euclidean distance is at most the threshold. *)
Definition index_pairs (n : Z) : list (Z * Z) :=
  seqZ 0 n ≫= λ i, seqZ (i + 1) (n - (i + 1)) ≫= λ j, [(i, j)].

Definition euclid (p q : Vector3 R) : R :=
  let '(x1, y1, z1) := p in
  let '(x2, y2, z2) := q in
  sqrt ((x2 - x1)² + (y2 - y1)² + (z2 - z1)²)%R.

Definition within (a : Float32Array R) (d : R) (p : Z * Z) : Prop :=
  (euclid (point a p.1) (point a p.2) <= d)%R.

#[export] Instance within_dec a d p : Decision (within a d p) :=
  Rle_dec _ _.

Definition edges (a : Float32Array R) (n : Z) (d : R) : list (Z * Z) :=
  filter (within a d) (index_pairs n).

(** The coordinates the sampling pass of [extractVertices] collects from
    a scene: the buffer before any resampling. *)
Definition extracted {num : Type} `{!JSNumber num}
    (scene : ModelGenerator.Scene num)
    (options : ModelGenerator.ModelOptions num) : list num :=
  foldl
    (ModelGenerator.extract_child
       (or_default (ModelGenerator.scale options) (#1)%J)
       (Z.to_pos
          (ModelGenerator.samplingStep_of
             (foldl ModelGenerator.count_vertices 0 scene))))
    [] scene.

(** One iteration of the loop of [update], read in two steps: the
    floating animation applied to the original position of particle
    [i], then the push away from the pointer. [pointer_in_world] is the
    pointer as the loop unprojects it, present when the system is
    interactive and both the pointer and the camera were passed. *)
Definition pointer_in_world {num : Type} `{!JSNumber num}
    (w : ParticleSystem.Window num) (s : ParticleSystem.t num)
    (mousePosition : option (ParticleSystem.Vector2 num))
    (camera : option (ParticleSystem.Camera num)) : option (Vector3 num) :=
  match ParticleSystem.flag
          (ParticleSystem.interactive (ParticleSystem.options s)),
        mousePosition, camera with
  | true, Some (mouseX, mouseY), Some camera =>
      Some (ParticleSystem.unproject camera
              (((mouseX / ParticleSystem.innerWidth w) * #2 - #1)%J,
               ((- (mouseY / ParticleSystem.innerHeight w)) * #2 + #1)%J,
               dec 1 2))
  | _, _, _ => None
  end.

Definition floated {num : Type} `{!JSNumber num} (s : ParticleSystem.t num)
    (time : num) (i : Z) (original : Vector3 num) : Vector3 num :=
  let '(originalX, originalY, originalZ) := original in
  if ParticleSystem.flag (ParticleSystem.animated (ParticleSystem.options s))
  then
    let animRadius :=
      or_default
        (ParticleSystem.animationRadius (ParticleSystem.options s))
        (dec 1 10) in
    ((originalX + nsin (time + #i * dec 1 10) * animRadius)%J,
     (originalY + ncos (time + #i * dec 15 100) * animRadius * dec 1 2)%J,
     (originalZ + nsin (time + #i * dec 2 10) * animRadius * dec 3 10)%J)
  else (originalX, originalY, originalZ).

Definition pushed {num : Type} `{!JSNumber num} (s : ParticleSystem.t num)
    (pointer : Vector3 num) (p : Vector3 num) : Vector3 num :=
  let '(newX, newY, newZ) := p in
  let '(mx, my, mz) := pointer in
  let mouseInfluence :=
    or_default (ParticleSystem.mouseInfluence (ParticleSystem.options s))
      (#1)%J in
  let mouseRadius :=
    or_default (ParticleSystem.mouseRadius (ParticleSystem.options s))
      (#2)%J in
  let distance :=
    nsqrt (pow2 (newX - mx) + pow2 (newY - my) + pow2 (newZ - mz))%J in
  if (distance <? mouseRadius)%J then
    let force := ((#1 - distance / mouseRadius) * mouseInfluence * dec 1 10)%J in
    ((newX + (newX - mx) / distance * force)%J,
     (newY + (newY - my) / distance * force)%J,
     (newZ + (newZ - mz) / distance * force)%J)
  else (newX, newY, newZ).

Definition displaced {num : Type} `{!JSNumber num}
    (w : ParticleSystem.Window num) (s : ParticleSystem.t num)
    (mousePosition : option (ParticleSystem.Vector2 num))
    (camera : option (ParticleSystem.Camera num)) (time : num) (i : Z)
    (original : Vector3 num) : Vector3 num :=
  let p := floated s time i original in
  match pointer_in_world w s mousePosition camera with
  | Some pointer => pushed s pointer p
  | None => p
  end.

(** The frames of a render loop: each frame calls [update] with its time
    step, the pointer and the camera. *)
Definition run_frames {num : Type} `{!JSNumber num}
    (w : ParticleSystem.Window num)
    (st : ParticleSystem.t num * gmap nat (list num))
    (frames :
       list (num * option (ParticleSystem.Vector2 num)
             * option (ParticleSystem.Camera num)))
    : ParticleSystem.t num * gmap nat (list num) :=
  foldl (λ st frame,
           let '(deltaTime, mousePosition, camera) := frame in
           ParticleSystem.update w st.1 st.2 deltaTime mousePosition camera)
    st frames.

(** The sum and the difference of two points, and a point scaled. *)
Definition vadd (p q : Vector3 R) : Vector3 R :=
  let '(x1, y1, z1) := p in
  let '(x2, y2, z2) := q in
  ((x1 + x2)%R, (y1 + y2)%R, (z1 + z2)%R).

Definition vsub (p q : Vector3 R) : Vector3 R :=
  let '(x1, y1, z1) := p in
  let '(x2, y2, z2) := q in
  ((x1 - x2)%R, (y1 - y2)%R, (z1 - z2)%R).

Definition vscale (c : R) (p : Vector3 R) : Vector3 R :=
  let '(x, y, z) := p in ((c * x)%R, (c * y)%R, (c * z)%R).

(** The offset the floating animation adds to particle [i] at time [t],
    for the animation radius [ρ]. *)
Definition float_offset (ρ t : R) (i : Z) : Vector3 R :=
  ((sin (t + IZR i * (1 / 10)) * ρ)%R,
   (cos (t + IZR i * (15 / 100)) * ρ * (1 / 2))%R,
   (sin (t + IZR i * (2 / 10)) * ρ * (3 / 10))%R).

(** The colour and the size that an iteration of [processBatch] gives
    its particle, as they depend on the cursor of [Math.random], and the
    number of random numbers an iteration draws. *)
Definition draws_per_particle {num : Type} `{!JSNumber num}
    (particle : ParticleWeaver.ParticleOptions num) : nat :=
  if ParticleWeaver.is_positive (ParticleWeaver.colorVariation particle)
  then 4%nat else 1%nat.

Definition particle_color {num : Type} `{!JSNumber num}
    (three : ParticleWeaver.Three num) (rnd : nat → num)
    (baseColor : Vector3 num)
    (particle : ParticleWeaver.ParticleOptions num) (c : nat)
    : Vector3 num :=
  let colorVariation := ParticleWeaver.colorVariation particle in
  if ParticleWeaver.is_positive colorVariation then
    ParticleWeaver.offsetHSL three baseColor
      ((rnd c - dec 1 2) * ParticleWeaver.to_number colorVariation)%J
      ((rnd (c + 1)%nat - dec 1 2) * ParticleWeaver.to_number colorVariation)%J
      ((rnd (c + 2)%nat - dec 1 2) * ParticleWeaver.to_number colorVariation)%J
  else baseColor.

Definition particle_size {num : Type} `{!JSNumber num} (rnd : nat → num)
    (particle : ParticleWeaver.ParticleOptions num) (c : nat) : num :=
  ParticleWeaver.Math_max (dec 1 100)
    (ParticleWeaver.to_number (ParticleWeaver.size particle)
     + (rnd c - dec 1 2)
       * ParticleWeaver.to_number (ParticleWeaver.sizeVariation particle))%J.

(** * Properties *)

(** ** Typed arrays and the loops that fill them *)

Section ArrayFacts.
Context {num : Type} `{JSNumber num}.

Lemma len_nonneg {A} (l : list A) : 0 ≤ len l.
Proof. unfold len. lia. Qed.

Lemma len_app {A} (l k : list A) : len (l ++ k) = len l + len k.
Proof. unfold len. rewrite length_app. lia. Qed.

Lemma len_aset (a : Float32Array num) i v : len (aset a i v) = len a.
Proof.
  unfold aset, len. destruct (i <? 0); [done|]. by rewrite length_insert.
Qed.

Lemma aget_aset_eq (a : Float32Array num) i v :
  0 ≤ i < len a → aget (aset a i v) i = fround v.
Proof.
  intros [Hi Hlen]. unfold aget, aset, len in *.
  destruct (i <? 0) eqn:E; [lia|].
  rewrite list_lookup_insert_eq by lia. done.
Qed.

Lemma aget_aset_ne (a : Float32Array num) i j v :
  i ≠ j → aget (aset a i v) j = aget a j.
Proof.
  intros Hne. unfold aget, aset.
  destruct (i <? 0) eqn:Ei; [done|].
  destruct (j <? 0) eqn:Ej; [done|].
  rewrite list_lookup_insert_ne by lia. done.
Qed.

(** Storing a triple at particle index [i] changes that point only. *)
Lemma point_write3 (a : Float32Array num) (i j : Z) (x y z : num) :
  0 ≤ i → i * 3 + 2 < len a →
  point (aset (aset (aset a (i * 3) x) (i * 3 + 1) y) (i * 3 + 2) z) j =
  if decide (j = i) then (fround x, fround y, fround z) else point a j.
Proof.
  intros Hi Hlen. unfold point. destruct (decide (j = i)) as [->|Hne].
  - rewrite (aget_aset_ne _ _ (i * 3)) by lia.
    rewrite (aget_aset_ne _ _ (i * 3)) by lia.
    rewrite (aget_aset_ne _ _ (i * 3 + 1)) by lia.
    rewrite !aget_aset_eq by (rewrite ?len_aset; lia).
    done.
  - rewrite !(aget_aset_ne _ _ (j * 3)) by lia.
    rewrite !(aget_aset_ne _ _ (j * 3 + 1)) by lia.
    rewrite !(aget_aset_ne _ _ (j * 3 + 2)) by lia.
    done.
Qed.

(** A loop that stores one triple per index fills the first [3n] cells
    with the (rounded) triples and keeps the length. The loop body may
    depend on the bound [N] of the loop and on the length [L] of the
    array, which the stores do not change. *)
Lemma fill3_spec (step : Float32Array num → Z → Float32Array num)
    (fx fy fz : Z → num) (N L : Z) :
  (∀ a i, 0 ≤ i < N → len a = L →
          step a i =
          aset (aset (aset a (i * 3) (fx i)) (i * 3 + 1) (fy i))
            (i * 3 + 2) (fz i)) →
  ∀ (n : nat) (a : Float32Array num),
    Z.of_nat n ≤ N → len a = L → 3 * Z.of_nat n ≤ L →
    len (foldl step a (seqZ 0 (Z.of_nat n))) = L ∧
    (∀ i, 0 ≤ i < Z.of_nat n →
      point (foldl step a (seqZ 0 (Z.of_nat n))) i =
      (fround (fx i), fround (fy i), fround (fz i))) ∧
    (∀ i, Z.of_nat n ≤ i →
      point (foldl step a (seqZ 0 (Z.of_nat n))) i = point a i).
Proof.
  intros Hstep n a. induction n as [|n IH]; intros HN HL Hlen.
  - split; [done|]. split; [|done]. intros i Hi. lia.
  - rewrite seqZ_S, foldl_snoc, Z.add_0_l.
    destruct IH as (IHlen & IHget & IHrest); [lia..|].
    set (r := foldl step a (seqZ 0 (Z.of_nat n))) in *.
    rewrite Hstep by (done || lia). split; [by rewrite !len_aset|].
    split.
    + intros i Hi. rewrite point_write3 by lia.
      destruct (decide (i = Z.of_nat n)) as [->|Hne]; [done|].
      apply IHget. lia.
    + intros i Hi. rewrite point_write3 by lia.
      destruct (decide (i = Z.of_nat n)) as [->|Hne]; [lia|].
      apply IHrest. lia.
Qed.

(** Two buffers of [k] points with the same points are the same buffer. *)
Lemma points_ext (a b : Float32Array num) (k : Z) :
  len a = 3 * k → len b = 3 * k →
  (∀ i, 0 ≤ i < k → point a i = point b i) → a = b.
Proof.
  intros Ha Hb Hpt. apply list_eq. intros j.
  destruct (decide (Z.of_nat j < 3 * k)) as [Hj|Hj].
  - assert (Hq : 0 ≤ Z.of_nat j / 3 < k).
    { split; [apply Z.div_pos; lia|]. apply Z.div_lt_upper_bound; lia. }
    pose proof (Z.div_mod (Z.of_nat j) 3 ltac:(lia)) as Hdm.
    pose proof (Z.mod_pos_bound (Z.of_nat j) 3 ltac:(lia)) as Hm.
    specialize (Hpt _ Hq). unfold point in Hpt.
    injection Hpt as H0 H1 H2.
    destruct (lookup_lt_is_Some_2 a j) as [x Hx]; [unfold len in Ha; lia|].
    destruct (lookup_lt_is_Some_2 b j) as [y Hy]; [unfold len in Hb; lia|].
    rewrite Hx, Hy. f_equal.
    assert (Hget : ∀ (l : Float32Array num) v,
              l !! j = Some v → aget l (Z.of_nat j) = v).
    { intros l v Hl. unfold aget.
      destruct (Z.of_nat j <? 0) eqn:E; [lia|].
      by rewrite Nat2Z.id, Hl. }
    rewrite <- (Hget a x Hx), <- (Hget b y Hy).
    assert (Hcase : Z.of_nat j = Z.of_nat j / 3 * 3
                    ∨ Z.of_nat j = Z.of_nat j / 3 * 3 + 1
                    ∨ Z.of_nat j = Z.of_nat j / 3 * 3 + 2) by lia.
    destruct Hcase as [E|[E|E]]; rewrite E; done.
  - rewrite !lookup_ge_None_2; [done|unfold len in *; lia..].
Qed.

Lemma len_zeros (n : Z) (a : Float32Array num) :
  new_Float32Array n = Ok a → len a = n ∧ 0 ≤ n.
Proof.
  unfold new_Float32Array. destruct (n <? 0) eqn:E; [done|].
  intros [= <-]. unfold len. rewrite length_replicate. lia.
Qed.

End ArrayFacts.

(** ** Lists: loops that push, binds and filters *)

Section ListFacts.

Lemma foldl_push {A B} (f : A → list B) (l : list A) (acc : list B) :
  foldl (λ acc x, acc ++ f x) acc l = acc ++ (l ≫= f).
Proof.
  revert acc. induction l as [|x l IH]; intros acc; cbn [foldl].
  - by rewrite app_nil_r.
  - by rewrite IH, bind_cons, app_assoc.
Qed.

Lemma foldl_ext {A B} (f g : B → A → B) (l : list A) (b : B) :
  (∀ b x, f b x = g b x) → foldl f b l = foldl g b l.
Proof.
  intros Hfg. revert b. induction l as [|x l IH]; intros b; [done|].
  cbn [foldl]. by rewrite Hfg, IH.
Qed.

Lemma bind_ext_in {A B} (f g : A → list B) (l : list A) :
  (∀ x, x ∈ l → f x = g x) → l ≫= f = l ≫= g.
Proof.
  induction l as [|x l IH]; intros Hfg; [done|].
  rewrite !bind_cons, Hfg, IH; [done| |by left].
  intros y Hy. apply Hfg. by right.
Qed.

Lemma len_bind_const {A B} (f : A → list B) (l : list A) (k : Z) :
  (∀ x, x ∈ l → len (f x) = k) → len (l ≫= f) = k * len l.
Proof.
  induction l as [|x l IH]; intros Hf; [unfold len; simpl; lia|].
  rewrite bind_cons, len_app, Hf, IH.
  - unfold len. cbn [length]. lia.
  - intros y Hy. apply Hf. by right.
  - by left.
Qed.

Lemma filter_all {A} (P : A → Prop) `{∀ x, Decision (P x)} (l : list A) :
  (∀ x, x ∈ l → P x) → filter P l = l.
Proof.
  induction l as [|x l IH]; intros HP; [done|].
  rewrite filter_cons_True by (apply HP; by left).
  f_equal. apply IH. intros y Hy. apply HP. by right.
Qed.

Lemma filter_none {A} (P : A → Prop) `{∀ x, Decision (P x)} (l : list A) :
  (∀ x, x ∈ l → ¬ P x) → filter P l = [].
Proof.
  induction l as [|x l IH]; intros HP; [done|].
  rewrite filter_cons_False by (apply HP; by left).
  apply IH. intros y Hy. apply HP. by right.
Qed.

Lemma bind_filter {A B} (P : A → Prop) `{∀ x, Decision (P x)}
    (b : A → bool) (f : A → list B) (l : list A) :
  (∀ x, b x = true ↔ P x) →
  (l ≫= λ x, if b x then f x else []) = filter P l ≫= f.
Proof.
  intros Hb. induction l as [|x l IH]; [done|].
  rewrite bind_cons, IH, filter_cons.
  destruct (decide (P x)) as [HP|HP].
  - apply Hb in HP. by rewrite HP, bind_cons.
  - destruct (b x) eqn:E; [|done]. by apply Hb in E.
Qed.

End ListFacts.

(** ** The Fibonacci sphere, in exact arithmetic *)

Section SphereSurface.
Import SphereGenerator.

Lemma effective_radius_nonzero (r : R) : r ≠ 0%R → effective_radius r = r.
Proof.
  intros Hr. unfold effective_radius, or_default. simpl.
  destruct (Req_dec_T r 0); [done|done].
Qed.

Lemma effective_radius_zero : effective_radius 0%R = 1%R.
Proof.
  unfold effective_radius, or_default. simpl.
  destruct (Req_dec_T 0 0); [done|done].
Qed.

(** On the unit sphere: the point built from a height [y] in [-1, 1] and
    any angle has norm 1; scaling by [r] gives norm [|r|]. *)
Lemma lattice_point_norm (y theta r : R) :
  (-1 <= y <= 1)%R →
  let rho := sqrt (1 - y * y) in
  norm3 (cos theta * rho * r)%R (y * r)%R (sin theta * rho * r)%R = Rabs r.
Proof.
  intros Hy rho. unfold norm3. cbn [nadd nmul nsqrt RNum].
  assert (Hrho : (rho * rho = 1 - y * y)%R).
  { apply sqrt_sqrt. nra. }
  pose proof (sin2_cos2 theta) as Htrig. unfold Rsqr in Htrig.
  replace (cos theta * rho * r * (cos theta * rho * r) + y * r * (y * r) +
           sin theta * rho * r * (sin theta * rho * r))%R
    with (r * r)%R.
  - apply sqrt_Rsqr_abs.
  - transitivity
      (((sin theta * sin theta + cos theta * cos theta) * (rho * rho)
        + y * y) * (r * r))%R; [|ring].
    rewrite Htrig, Hrho. ring.
Qed.

(** The height of lattice point [i] lies in [-1, 1] once [count >= 2]. *)
Lemma lattice_height_range (n i : Z) :
  2 ≤ n → 0 ≤ i < n →
  (-1 <= 1 - IZR i / IZR (n - 1) * 2 <= 1)%R.
Proof.
  intros Hn Hi.
  assert (Hd : (0 < IZR (n - 1))%R) by (apply IZR_lt; lia).
  assert (H0 : (0 <= IZR i)%R) by (apply IZR_le; lia).
  assert (H1 : (IZR i <= IZR (n - 1))%R) by (apply IZR_le; lia).
  assert (Hq : (0 <= IZR i / IZR (n - 1) <= 1)%R).
  { split.
    - apply Rmult_le_pos; [done|]. left. by apply Rinv_0_lt_compat.
    - apply (Rmult_le_reg_r (IZR (n - 1))); [done|].
      unfold Rdiv. rewrite Rmult_assoc, Rinv_l by lra. lra. }
  lra.
Qed.

(** What [generate] returns for a request with [count >= 2]: a buffer of
    [count] triples, each of norm [|r || 1|]. *)
Lemma generate_surface (n : Z) (r : R) :
  2 ≤ n →
  ∃ ps, generate (sphere_request n r) = Ok ps ∧ len ps = 3 * n ∧
    ∀ i, 0 ≤ i < n →
      norm_at ps i = Rabs (effective_radius r).
Proof.
  intros Hn.
  assert (Hc : or_defaultZ (Some n) 1000 = n).
  { unfold or_defaultZ. destruct (n =? 0) eqn:E; lia. }
  unfold generate, sphere_request, params_radius.
  cbn [count params radius]. rewrite Hc. fold (effective_radius r).
  unfold new_Float32Array. destruct (n * 3 <? 0) eqn:E; [lia|].
  set (zeros := replicate (Z.to_nat (n * 3)) (#0)%J).
  assert (Hz : len zeros = 3 * n).
  { unfold len, zeros. rewrite length_replicate. lia. }
  eexists. split; [reflexivity|]. fold (effective_radius r).
  destruct (fill3_spec (generate_step n (effective_radius r))
              _ _ _ n (3 * n) (λ a i _ _, eq_refl) (Z.to_nat n) zeros)
    as (Hlen & Hget & _); [lia..|].
  rewrite Z2Nat.id in Hlen, Hget by lia.
  split; [by rewrite Hlen|].
  intros i Hi. unfold norm_at. rewrite (Hget i Hi).
  apply lattice_point_norm. by apply lattice_height_range.
Qed.

(** C1 (as amended). For every [count >= 2] and every radius [r],
    [SphereGenerator.generate] returns a buffer of length [3 * count]
    in which every point has norm [|r || 1|] in exact arithmetic: the
    norm is [r] for every [r > 0], it is [|r|] for a negative [r], and a
    radius of 0 is replaced by the default radius 1. *)
Theorem sphere_surface_count_and_norm (n : Z) (r : R) :
  2 ≤ n →
  ∃ ps, generate (sphere_request n r) = Ok ps ∧ len ps = 3 * n ∧
    (∀ i, 0 ≤ i < n → norm_at ps i = Rabs (effective_radius r)) ∧
    ((0 < r)%R → ∀ i, 0 ≤ i < n → norm_at ps i = r) ∧
    ((r < 0)%R → ∀ i, 0 ≤ i < n → norm_at ps i = (- r)%R) ∧
    (r = 0%R → ∀ i, 0 ≤ i < n → norm_at ps i = 1%R).
Proof.
  intros Hn. destruct (generate_surface n r Hn) as (ps & Hgen & Hlen & Hnorm).
  exists ps. repeat split; try done.
  - intros Hr i Hi. rewrite Hnorm, effective_radius_nonzero by (done || lra).
    apply Rabs_pos_eq. lra.
  - intros Hr i Hi. rewrite Hnorm, effective_radius_nonzero by (done || lra).
    apply Rabs_left. lra.
  - intros -> i Hi. rewrite Hnorm, effective_radius_zero by done.
    apply Rabs_R1.
Qed.

Lemma sphere_surface_count_and_norm_witness :
  2 ≤ 100 ∧
  ∃ ps, generate (sphere_request 100 1%R) = Ok ps ∧ len ps = 3 * 100 ∧
    (∀ i, 0 ≤ i < 100 → norm_at ps i = Rabs (effective_radius 1%R)) ∧
    ((0 < 1)%R → ∀ i, 0 ≤ i < 100 → norm_at ps i = 1%R) ∧
    ((1 < 0)%R → ∀ i, 0 ≤ i < 100 → norm_at ps i = (- 1)%R) ∧
    (1%R = 0%R → ∀ i, 0 ≤ i < 100 → norm_at ps i = 1%R).
Proof.
  split; [lia|]. apply (sphere_surface_count_and_norm 100 1%R). lia.
Defined.

(** C1 as stated fails at radius 0: with [count = 2] and [r = 0] the
    first point has norm 1, not 0. *)
Lemma sphere_surface_radius_zero :
  ∃ ps, generate (sphere_request 2 0%R) = Ok ps ∧ norm_at ps 0 ≠ 0%R.
Proof.
  destruct (generate_surface 2 0%R) as (ps & Hgen & _ & Hnorm); [lia|].
  exists ps. split; [done|].
  rewrite Hnorm, effective_radius_zero, Rabs_R1 by lia. lra.
Qed.

End SphereSurface.

(** ** The Fibonacci sphere at [count = 1], in binary64 *)

Section SphereSinglePoint.
Import SphereGenerator.

Lemma Prim2SF_nan : Prim2SF nan = S754_nan.
Proof. reflexivity. Qed.

Lemma float_mul_nan_r (x : float) : (x * nan)%float = nan.
Proof.
  apply Prim2SF_inj. rewrite mul_spec, Prim2SF_nan.
  unfold SF64mul, SFmul. by destruct (Prim2SF x).
Qed.

Lemma float_mul_nan_l (x : float) : (nan * x)%float = nan.
Proof.
  apply Prim2SF_inj. rewrite mul_spec, Prim2SF_nan.
  unfold SF64mul, SFmul. done.
Qed.

(** C7. With [count = 1] the quotient [i / (count - 1)] is [0 / 0]: for
    every radius and whatever the engine's sine and cosine are, the
    single point [generate] returns has three NaN coordinates. *)
Theorem sphere_single_point_is_nan (fsin fcos : float → float) (r : float) :
  @generate float (FNum fsin fcos) (sphere_request 1 r) = Ok [nan; nan; nan].
Proof.
  unfold generate, sphere_request, params_radius.
  cbn [count params radius or_defaultZ Z.eqb].
  set (rad := or_default _ _).
  change (new_Float32Array (1 * 3)) with (Ok [0%float; 0%float; 0%float]).
  cbn [mbind outcome_bind]. change (seqZ 0 1) with [0]. cbn [foldl].
  unfold generate_step.
  change ((#1 - #0 / #(1 - 1) * #2)%J) with nan.
  change (nsqrt (#1 - nan * nan)%J) with nan.
  cbn [nmul FNum].
  rewrite !float_mul_nan_r, !float_mul_nan_l.
  reflexivity.
Qed.

End SphereSinglePoint.

(** ** Rejection sampling in the ball *)

Section RejectionLoop.
Context {num : Type} `{JSNumber num}.
Import SphereGenerator.

Lemma candidate_shift (rnd : nat → num) (c k : nat) :
  candidate rnd (c + 3) k = candidate rnd c (S k).
Proof.
  unfold candidate.
  replace (c + 3 + 3 * k)%nat with (c + 3 * S k)%nat by lia.
  done.
Qed.

(** One round of the loop. *)
Lemma draw_in_sphere_round (fuel : nat) (rnd : nat → num) (c : nat) :
  draw_in_sphere (S fuel) rnd c =
  if accepted (candidate rnd c 0) then Some (candidate rnd c 0, (c + 3)%nat)
  else draw_in_sphere fuel rnd (c + 3)%nat.
Proof.
  simpl. unfold candidate, accepted. simpl. rewrite !Nat.add_0_r.
  by destruct (nltb _ _).
Qed.

(** The loop has no bound of its own: while the rounds are rejected it
    is still running, whatever the number of rounds followed. *)
Lemma draw_in_sphere_rejected (fuel : nat) (rnd : nat → num) (c : nat) :
  (∀ k, (k < fuel)%nat → accepted (candidate rnd c k) = false) →
  draw_in_sphere fuel rnd c = None.
Proof.
  revert c. induction fuel as [|fuel IH]; intros c Hrej; [done|].
  rewrite draw_in_sphere_round, (Hrej 0%nat) by lia.
  apply IH. intros k Hk. rewrite candidate_shift. apply Hrej. lia.
Qed.

(** It ends exactly at the first accepted round. *)
Lemma draw_in_sphere_first (fuel : nat) (rnd : nat → num) (c k : nat) :
  (∀ j, (j < k)%nat → accepted (candidate rnd c j) = false) →
  accepted (candidate rnd c k) = true →
  (k < fuel)%nat →
  draw_in_sphere fuel rnd c = Some (candidate rnd c k, (c + 3 * k + 3)%nat).
Proof.
  revert c k. induction fuel as [|fuel IH]; intros c k Hrej Hacc Hk; [lia|].
  rewrite draw_in_sphere_round. destruct k as [|k].
  - rewrite Hacc. do 2 f_equal. lia.
  - rewrite (Hrej 0%nat) by lia.
    rewrite (IH (c + 3)%nat k).
    + rewrite candidate_shift. do 2 f_equal. lia.
    + intros j Hj. rewrite candidate_shift. apply Hrej. lia.
    + by rewrite candidate_shift.
    + lia.
Qed.

(** An accepted round somewhere ahead is enough for the loop to end, on
    an accepted triple. *)
Lemma draw_in_sphere_ends (rnd : nat → num) (c k : nat) :
  accepted (candidate rnd c k) = true →
  ∃ v c', draw_in_sphere (S k) rnd c = Some (v, c') ∧ accepted v = true.
Proof.
  revert c. induction k as [|k IH]; intros c Hacc.
  - rewrite draw_in_sphere_round, Hacc. eauto.
  - rewrite draw_in_sphere_round.
    destruct (accepted (candidate rnd c 0)) eqn:E; [eauto|].
    apply IH. by rewrite candidate_shift.
Qed.

(** Following the loop for more rounds does not change a result. *)
Lemma draw_in_sphere_mono (fuel fuel' : nat) (rnd : nat → num) (c : nat) r :
  draw_in_sphere fuel rnd c = Some r → (fuel ≤ fuel')%nat →
  draw_in_sphere fuel' rnd c = Some r.
Proof.
  revert fuel' c. induction fuel as [|fuel IH]; intros fuel' c Hr Hle; [done|].
  destruct fuel' as [|fuel']; [lia|].
  rewrite draw_in_sphere_round in *.
  destruct (accepted (candidate rnd c 0)); [done|].
  apply IH; [done|lia].
Qed.

End RejectionLoop.

Section SphereVolume.
Import SphereGenerator.

Lemma accepted_real (x y z : R) :
  accepted (x, y, z) = true ↔ (x * x + y * y + z * z <= 1)%R.
Proof.
  unfold accepted. cbn [nltb nadd nmul ofZ RNum].
  destruct (Rlt_dec 1 (x * x + y * y + z * z)); simpl; split; intros;
    (done || lra).
Qed.

Lemma scaled_in_ball (x y z r : R) :
  (x * x + y * y + z * z <= 1)%R →
  (norm3 (x * r) (y * r) (z * r) <= Rabs r)%R.
Proof.
  intros Hs. unfold norm3. cbn [nadd nmul nsqrt RNum].
  rewrite <- (sqrt_Rsqr_abs r). apply sqrt_le_1_alt. unfold Rsqr.
  replace (x * r * (x * r) + y * r * (y * r) + z * r * (z * r))%R
    with ((x * x + y * y + z * z) * (r * r))%R by ring.
  pose proof (Rle_0_sqr r) as Hr. unfold Rsqr in Hr. nra.
Qed.

(** The loop over the points, on a source that keeps producing accepted
    triples: some number of rounds suffices for all of them. *)
Lemma generateVolume_fold (rnd : nat → R) (r : R) :
  (∀ c, ∃ k, accepted (candidate rnd c k) = true) →
  ∀ (n : nat) (a : Float32Array R) (c : nat),
    3 * Z.of_nat n ≤ len a →
    ∃ fuel ps c',
      (∀ fuel', (fuel ≤ fuel')%nat →
         foldl (generateVolume_step fuel' rnd r) (Some (a, c))
           (seqZ 0 (Z.of_nat n)) = Some (ps, c')) ∧
      len ps = len a ∧
      ∀ i, 0 ≤ i < Z.of_nat n → (norm_at ps i <= Rabs r)%R.
Proof.
  intros Hsrc n a c. induction n as [|n IH]; intros Hlen.
  - exists 0%nat, a, c. split; [done|]. split; [done|]. intros i Hi. lia.
  - destruct IH as (fuel & ps & c' & Hfold & Hps & Hnorm); [lia|].
    destruct (Hsrc c') as [k Hk].
    destruct (draw_in_sphere_ends rnd c' k Hk)
      as ([[x y] z] & c'' & Hdraw & Hacc).
    exists (Nat.max fuel (S k)).
    eexists. exists c''. split; [|split].
    + intros fuel' Hfuel'.
      rewrite seqZ_S, foldl_snoc, Z.add_0_l, Hfold by lia.
      unfold generateVolume_step at 1. cbn [mbind option_bind].
      rewrite (draw_in_sphere_mono (S k) fuel' rnd c' _ Hdraw) by lia.
      reflexivity.
    + by rewrite !len_aset.
    + intros i Hi. unfold norm_at. rewrite point_write3 by lia.
      destruct (decide (i = Z.of_nat n)) as [->|Hne].
      * apply scaled_in_ball. by apply accepted_real.
      * apply (Hnorm i). lia.
Qed.

Lemma or_defaultZ_nonzero (n d : Z) : n ≠ 0 → or_defaultZ (Some n) d = n.
Proof. intros Hn. unfold or_defaultZ. destruct (n =? 0) eqn:E; lia. Qed.

(** C9 (as amended). [generateVolume] has no cap on the rounds of its
    rejection loop and no fallback point. On a random source that, from
    every cursor, eventually draws a triple inside the unit ball, the
    sampler returns: it yields [count] points, each of norm at most
    [|r || 1|], and following it for more rounds changes nothing. *)
Theorem volume_sampler_ends_on_accepting_source
    (rnd : nat → R) (c : nat) (n : Z) (r : R) :
  1 ≤ n →
  (∀ c', ∃ k, accepted (candidate rnd c' k) = true) →
  ∃ fuel ps c',
    (∀ fuel', (fuel ≤ fuel')%nat →
       generateVolume fuel' rnd c (sphere_request n r) = Some (Ok (ps, c'))) ∧
    len ps = 3 * n ∧
    ∀ i, 0 ≤ i < n → (norm_at ps i <= Rabs (effective_radius r))%R.
Proof.
  intros Hn Hsrc.
  unfold generateVolume, sphere_request, params_radius.
  cbn [count params radius]. rewrite or_defaultZ_nonzero by lia.
  fold (effective_radius r).
  unfold new_Float32Array. destruct (n * 3 <? 0) eqn:E; [lia|].
  set (zeros := replicate (Z.to_nat (n * 3)) (#0)%J).
  assert (Hz : len zeros = 3 * n).
  { unfold len, zeros. rewrite length_replicate. lia. }
  destruct (generateVolume_fold rnd (effective_radius r) Hsrc
              (Z.to_nat n) zeros c) as (fuel & ps & c' & Hfold & Hlen & Hnorm).
  { lia. }
  rewrite Z2Nat.id in Hfold, Hnorm by lia.
  exists fuel, ps, c'. split; [|split].
  - intros fuel' Hfuel'. by rewrite Hfold.
  - by rewrite Hlen.
  - done.
Qed.

Lemma volume_sampler_ends_on_accepting_source_witness :
  1 ≤ 2 ∧
  (∀ c', ∃ k, accepted (candidate (λ _, (1 / 2)%R) c' k) = true) ∧
  ∃ fuel ps c',
    (∀ fuel', (fuel ≤ fuel')%nat →
       generateVolume fuel' (λ _, (1 / 2)%R) 0 (sphere_request 2 1%R)
       = Some (Ok (ps, c'))) ∧
    len ps = 3 * 2 ∧
    ∀ i, 0 ≤ i < 2 → (norm_at ps i <= Rabs (effective_radius 1%R))%R.
Proof.
  assert (Hsrc : ∀ c', ∃ k,
            accepted (candidate (λ _, (1 / 2)%R) c' k) = true).
  { intros c'. exists 0%nat. apply accepted_real.
    cbn [ofZ nmul nsub RNum]. lra. }
  split; [lia|]. split; [exact Hsrc|].
  apply (volume_sampler_ends_on_accepting_source (λ _, (1 / 2)%R) 0 2 1%R);
    [lia|exact Hsrc].
Defined.

(** C9 as stated fails: on the source that always returns 0 every
    triple drawn is [(-1, -1, -1)], outside the ball, and the loop for
    the first point is still running after any number of rounds. *)
Lemma volume_sampler_runs_forever :
  ¬ ∃ (fuel : nat) res,
      generateVolume fuel (λ _, 0%R) 0 (sphere_request 1 1%R) = Some res.
Proof.
  intros (fuel & res & Hres). revert Hres.
  unfold generateVolume, sphere_request, params_radius.
  cbn [count params radius]. rewrite or_defaultZ_nonzero by lia.
  change (new_Float32Array (1 * 3))
    with (Ok [(#0)%J; (#0)%J; (#0)%J] : outcome (Float32Array R)).
  cbv beta iota. change (seqZ 0 1) with [0]. cbn [foldl].
  unfold generateVolume_step. cbn [mbind option_bind].
  rewrite draw_in_sphere_rejected; [done|].
  intros k _. unfold candidate.
  destruct (accepted _) eqn:Hacc; [|done].
  apply accepted_real in Hacc. cbn [ofZ nmul nsub RNum] in Hacc. lra.
Qed.

End SphereVolume.

(** ** Resampling *)

Section Resampling.
Context {num : Type} `{JSNumber num}.
Import ModelGenerator.

Lemma len_downsample (originalVertices : Float32Array num) (step : num)
    (l : list Z) (a : Float32Array num) :
  len (foldl (downsample_step originalVertices step) a l) = len a.
Proof.
  revert a. induction l as [|i l IH]; intros a; [done|].
  cbn [foldl]. rewrite IH. unfold downsample_step.
  destruct (_ && _); [by rewrite !len_aset|done].
Qed.

(** The upsampling loop draws one random number per point, prints
    nothing, does not throw and keeps the length of the buffer. *)
Lemma forM_upsample (rnd : nat → num) (originalVertices : Float32Array num)
    (originalCount : Z) (l : list Z) (a : Float32Array num) (w : world) :
  ∃ a',
    forM (upsample_step rnd originalVertices originalCount) a l w =
    (Ok a', {| console := console w; cursor := (cursor w + length l)%nat |})
    ∧ len a' = len a.
Proof.
  revert a w. induction l as [|i l IH]; intros a w.
  - exists a. split; [|done]. cbn [forM length]. unfold mret, M_ret.
    destruct w as [cs c]. cbn [console cursor]. by rewrite Nat.add_0_r.
  - cbn [forM]. unfold mbind at 1, M_bind.
    assert (Hstep : ∃ a1,
      upsample_step rnd originalVertices originalCount a i w =
      (Ok a1, {| console := console w; cursor := S (cursor w) |})
      ∧ len a1 = len a).
    { unfold upsample_step, mbind, M_bind, random.
      destruct (originalCount =? 0); [by eexists|].
      destruct (_ && _); eexists; (split; [done|]); by rewrite ?len_aset. }
    destruct Hstep as (a1 & -> & Ha1).
    destruct (IH a1 {| console := console w; cursor := S (cursor w) |})
      as (a' & -> & Ha').
    exists a'. split; [|congruence].
    cbn [console cursor length]. by rewrite Nat.add_succ_r.
Qed.

(** What a call of [resampleVertices] with a count [targetCount >= 0]
    does: it returns [min(targetCount, maxParticles)] points, prints the
    resampling line and, when the count was reduced, the warning; it
    draws random numbers in the upsampling branch only. *)
Lemma resampleVertices_run (rnd : nat → num)
    (originalVertices : Float32Array num) (targetCount : Z) (w : world) :
  0 ≤ targetCount →
  let finalTargetCount := Z.min targetCount maxParticles in
  let originalCount := len originalVertices / 3 in
  ∃ newVertices,
    resampleVertices rnd originalVertices targetCount w =
    (Ok newVertices,
     {| console :=
          console w ++ [LogResampling originalCount finalTargetCount] ++
          (if finalTargetCount <? targetCount
           then [WarnReducedCount targetCount finalTargetCount] else []);
        cursor :=
          if finalTargetCount <=? originalCount then cursor w
          else (cursor w + Z.to_nat finalTargetCount)%nat |})
    ∧ len newVertices = 3 * finalTargetCount
    ∧ (finalTargetCount ≤ originalCount →
       newVertices =
       foldl (downsample_step originalVertices
                (#originalCount / #finalTargetCount)%J)
         (replicate (Z.to_nat (finalTargetCount * 3)) (#0)%J)
         (seqZ 0 finalTargetCount)).
Proof.
  intros Htarget finalTargetCount originalCount.
  assert (Hfinal : 0 ≤ finalTargetCount ≤ 1000).
  { unfold finalTargetCount, maxParticles. lia. }
  unfold resampleVertices. fold finalTargetCount. fold originalCount.
  destruct (50000 <? finalTargetCount * 3) eqn:E1; [lia|].
  unfold new_Float32Array.
  destruct (finalTargetCount * 3 <? 0) eqn:E2; [lia|].
  set (zeros := replicate (Z.to_nat (finalTargetCount * 3)) (#0)%J).
  assert (Hz : len zeros = 3 * finalTargetCount).
  { unfold len, zeros. rewrite length_replicate. lia. }
  unfold mbind, M_bind, print. cbn [console cursor].
  destruct (finalTargetCount <=? originalCount) eqn:E3.
  - eexists. split; [|split].
    + unfold mret at 1, M_ret. cbn [console cursor].
      destruct (finalTargetCount <? targetCount); unfold mret, M_ret;
        cbn [console cursor]; rewrite <- ?app_assoc; reflexivity.
    + by rewrite len_downsample.
    + done.
  - destruct (forM_upsample rnd originalVertices originalCount
                (seqZ 0 finalTargetCount) zeros
                {| console := console w ++
                     [LogResampling originalCount finalTargetCount];
                   cursor := cursor w |}) as (a' & -> & Ha').
    cbn [console cursor]. rewrite length_seqZ.
    exists a'. split; [|split; [congruence|lia]].
    destruct (finalTargetCount <? targetCount); unfold mret, M_ret;
      cbn [console cursor]; rewrite <- ?app_assoc, ?app_nil_r; reflexivity.
Qed.

(** A negative count makes the allocation fail; the failure is printed
    and thrown again. *)
Lemma resampleVertices_negative (rnd : nat → num)
    (originalVertices : Float32Array num) (targetCount : Z) (w : world) :
  targetCount < 0 →
  resampleVertices rnd originalVertices targetCount w =
  (Throw "Array creation failed",
   {| console :=
        console w ++
        [LogResampling (len originalVertices / 3) targetCount;
         ErrorResampleFailed];
      cursor := cursor w |}).
Proof.
  intros Htarget. unfold resampleVertices, maxParticles.
  rewrite Z.min_l by lia.
  destruct (50000 <? targetCount * 3) eqn:E1; [lia|].
  unfold new_Float32Array.
  destruct (targetCount * 3 <? 0) eqn:E2; [|lia].
  unfold mbind, M_bind, print, throw. cbn [console cursor].
  by rewrite <- app_assoc.
Qed.

End Resampling.

Section ResamplingClaims.
Import ModelGenerator.

(** C6. For every requested count [targetCount >= 0], [resampleVertices]
    returns exactly [min(targetCount, maxParticles)] points, where the
    cap [maxParticles] (1000) is below the extraction ceiling
    [maxVertices] (15000); a request above the cap is cut down to it and
    the reduction is printed as a warning-level line, the last line of
    the call; a request within the cap prints no warning. *)
Theorem resample_count_is_capped_with_warning {num : Type} `{JSNumber num}
    (rnd : nat → num) (originalVertices : Float32Array num)
    (targetCount : Z) (w : world) :
  0 ≤ targetCount →
  ∃ newVertices w',
    resampleVertices rnd originalVertices targetCount w = (Ok newVertices, w')
    ∧ len newVertices = 3 * Z.min targetCount maxParticles
    ∧ maxParticles < maxVertices
    ∧ console w' =
      console w ++
      LogResampling (len originalVertices / 3) (Z.min targetCount maxParticles)
      :: (if maxParticles <? targetCount
          then [WarnReducedCount targetCount maxParticles] else [])
    ∧ event_level (WarnReducedCount targetCount maxParticles) = LevelWarn
    ∧ event_level
        (LogResampling (len originalVertices / 3)
           (Z.min targetCount maxParticles)) = LevelLog.
Proof.
  intros Htarget.
  destruct (resampleVertices_run rnd originalVertices targetCount w Htarget)
    as (newVertices & Hrun & Hlen & _).
  eexists _, _. split; [exact Hrun|]. split; [exact Hlen|].
  split; [done|]. split; [|done]. cbn [console]. f_equal.
  unfold maxParticles.
  destruct (1000 <? targetCount) eqn:E.
  - rewrite Z.min_r by lia. by replace (1000 <? targetCount) with true.
  - rewrite Z.min_l by lia. by rewrite Z.ltb_irrefl.
Qed.

Lemma resample_count_is_capped_with_warning_witness :
  0 ≤ 5000 ∧
  ∃ newVertices w',
    resampleVertices (λ _, 0%R) [] 5000 {| console := []; cursor := 0 |}
    = (Ok newVertices, w')
    ∧ len newVertices = 3 * Z.min 5000 maxParticles
    ∧ maxParticles < maxVertices
    ∧ console w' =
      [] ++
      LogResampling (len (@nil R) / 3) (Z.min 5000 maxParticles)
      :: (if maxParticles <? 5000
          then [WarnReducedCount 5000 maxParticles] else [])
    ∧ event_level (WarnReducedCount 5000 maxParticles) = LevelWarn
    ∧ event_level
        (LogResampling (len (@nil R) / 3) (Z.min 5000 maxParticles))
      = LevelLog.
Proof.
  split; [lia|].
  apply (resample_count_is_capped_with_warning (λ _, 0%R) [] 5000
           {| console := []; cursor := 0 |}).
  lia.
Defined.

(** In exact arithmetic, resampling a buffer of [k] points to [k]
    points copies it: the step is [k / k = 1] and point [i] is read at
    source index [floor(i * 1) = i]. *)
Lemma downsample_same_count (a : Float32Array R) (k : Z) :
  0 ≤ k → len a = 3 * k →
  foldl (downsample_step a (#k / #k)%J)
    (replicate (Z.to_nat (k * 3)) (#0)%J) (seqZ 0 k) = a.
Proof.
  intros Hk Ha.
  set (zeros := replicate (Z.to_nat (k * 3)) (#0)%J).
  assert (Hz : len zeros = 3 * k).
  { unfold len, zeros. rewrite length_replicate. lia. }
  destruct (fill3_spec (downsample_step a (#k / #k)%J)
              (λ i, aget a (i * 3)) (λ i, aget a (i * 3 + 1))
              (λ i, aget a (i * 3 + 2)) k (3 * k)) with (Z.to_nat k) zeros
    as (Hlen & Hget & _).
  - intros b i Hi Hb. unfold downsample_step.
    assert (Hfloor : floorZ (#i * (#k / #k))%J = i).
    { cbn [floorZ ofZ nmul ndiv RNum].
      replace (IZR i * (IZR k / IZR k))%R with (IZR i).
      - apply ZfloorZ.
      - assert (IZR k ≠ 0%R) by (apply not_0_IZR; lia). by field. }
    rewrite Hfloor.
    destruct (i * 3 + 2 <? len a) eqn:E1; [|lia].
    destruct (i * 3 + 2 <? len b) eqn:E2; [|lia].
    done.
  - lia.
  - done.
  - lia.
  - rewrite Z2Nat.id in Hlen, Hget by lia.
    apply (points_ext _ _ k); [done..|].
    intros i Hi. by rewrite Hget.
Qed.

(** C5. Resampling is idempotent in the count. For every buffer and
    every [k] within the cap, the first application returns [3k] numbers
    (without drawing random numbers when [k] is at most the source
    count), and applying [resampleVertices] again with the same [k]
    returns the same buffer, of length [3k], and draws no random number:
    no jitter is applied. *)
Theorem resample_twice_same_content (rnd : nat → R)
    (originalVertices : Float32Array R) (k : Z) (w : world) :
  0 ≤ k ≤ maxParticles →
  ∃ once w1 w2,
    resampleVertices rnd originalVertices k w = (Ok once, w1)
    ∧ len once = 3 * k
    ∧ (k ≤ len originalVertices / 3 → cursor w1 = cursor w)
    ∧ resampleVertices rnd once k w1 = (Ok once, w2)
    ∧ cursor w2 = cursor w1.
Proof.
  intros [Hk Hcap].
  destruct (resampleVertices_run rnd originalVertices k w Hk)
    as (once & Hrun1 & Hlen1 & _).
  rewrite Z.min_l in Hrun1, Hlen1 by done.
  match type of Hrun1 with _ = (_, ?w') => set (w1 := w') in * end.
  destruct (resampleVertices_run rnd once k w1 Hk)
    as (twice & Hrun2 & Hlen2 & Hdown).
  rewrite Z.min_l in Hrun2, Hlen2, Hdown by done.
  assert (Hcount : len once / 3 = k).
  { rewrite Hlen1, Z.mul_comm. apply Z.div_mul. lia. }
  rewrite Hcount in Hrun2, Hdown. rewrite Z.leb_refl in Hrun2.
  specialize (Hdown ltac:(lia)).
  rewrite downsample_same_count in Hdown by done. subst twice.
  eexists once, w1, _. split; [exact Hrun1|]. split; [done|].
  split; [|split; [exact Hrun2|done]].
  intros Hle. unfold w1. cbn [cursor].
  destruct (k <=? len originalVertices / 3) eqn:E; [done|lia].
Qed.

Lemma resample_twice_same_content_witness :
  0 ≤ 1 ≤ maxParticles ∧
  ∃ once w1 w2,
    resampleVertices (λ _, 0%R) [1%R; 2%R; 3%R; 4%R; 5%R; 6%R] 1
      {| console := []; cursor := 0 |} = (Ok once, w1)
    ∧ len once = 3 * 1
    ∧ (1 ≤ len [1%R; 2%R; 3%R; 4%R; 5%R; 6%R] / 3 → cursor w1 = 0%nat)
    ∧ resampleVertices (λ _, 0%R) once 1 w1 = (Ok once, w2)
    ∧ cursor w2 = cursor w1.
Proof.
  split; [unfold maxParticles; lia|].
  apply (resample_twice_same_content (λ _, 0%R)
           [1%R; 2%R; 3%R; 4%R; 5%R; 6%R] 1 {| console := []; cursor := 0 |}).
  unfold maxParticles. lia.
Defined.

End ResamplingClaims.

(** *** The same in binary64 *)

Section ResamplingBinary64.
Import ModelGenerator.
Variables fsin fcos : float → float.
Local Abbreviation F := (FNum fsin fcos).

(** The values a [Float32Array] can hold: the numbers of single
    precision. *)
Local Abbreviation single := (λ x : float, float_fround x = x).

Lemma float_div_same (k : Z) :
  1 ≤ k ≤ 1000 → (float_ofZ k / float_ofZ k)%float = 1%float.
Proof.
  intros Hk.
  assert (Hall : forallb (λ k, Leibniz.eqb (float_ofZ k / float_ofZ k) 1)
                   (seqZ 1 1000) = true) by (by vm_compute).
  rewrite forallb_forall in Hall. apply FloatAxioms.Leibniz.eqb_spec.
  apply Hall, list_elem_of_In, elem_of_seqZ. lia.
Qed.

Lemma float_floor_index (i : Z) :
  0 ≤ i < 1000 → float_floorZ (float_ofZ i * 1)%float = i.
Proof.
  intros Hi.
  assert (Hall : forallb (λ i, float_floorZ (float_ofZ i * 1)%float =? i)
                   (seqZ 0 1000) = true) by (by vm_compute).
  rewrite forallb_forall in Hall. apply Z.eqb_eq.
  apply Hall, list_elem_of_In, elem_of_seqZ. lia.
Qed.

Lemma single_aget (a : Float32Array float) (i : Z) :
  Forall single a → single (@aget float F a i).
Proof.
  intros Ha. unfold aget. destruct (i <? 0); [done|].
  destruct (a !! Z.to_nat i) as [x|] eqn:E; [|done].
  by apply (Forall_lookup_1 _ _ _ _ Ha E).
Qed.

Lemma single_aset (a : Float32Array float) (i : Z) (v : float) :
  Forall single a → single v → Forall single (@aset float F a i v).
Proof.
  intros Ha Hv. unfold aset. destruct (i <? 0); [done|].
  apply Forall_insert; [done|]. cbn [fround FNum]. by rewrite Hv.
Qed.

Lemma single_downsample (originalVertices : Float32Array float)
    (step : float) (l : list Z) (a : Float32Array float) :
  Forall single originalVertices → Forall single a →
  Forall single (foldl (@downsample_step float F originalVertices step) a l).
Proof.
  intros Ho. revert a. induction l as [|i l IH]; intros a Ha; [done|].
  cbn [foldl]. apply IH. unfold downsample_step.
  destruct (_ && _); [|done].
  repeat apply single_aset; try done; by apply single_aget.
Qed.

(** A buffer of [k] points of single precision, resampled to [k]
    points, is copied as it is. *)
Lemma downsample_same_count_binary64 (a : Float32Array float) (k : Z) :
  0 ≤ k ≤ 1000 → len a = 3 * k → Forall single a →
  foldl (@downsample_step float F a (float_ofZ k / float_ofZ k)%float)
    (replicate (Z.to_nat (k * 3)) 0%float) (seqZ 0 k) = a.
Proof.
  intros Hk Ha Hsingle.
  set (zeros := replicate (Z.to_nat (k * 3)) 0%float).
  assert (Hz : len zeros = 3 * k).
  { unfold len, zeros. rewrite length_replicate. lia. }
  destruct (@fill3_spec float F
              (@downsample_step float F a (float_ofZ k / float_ofZ k)%float)
              (λ i, @aget float F a (i * 3))
              (λ i, @aget float F a (i * 3 + 1))
              (λ i, @aget float F a (i * 3 + 2)) k (3 * k))
    with (Z.to_nat k) zeros as (Hlen & Hget & _).
  - intros b i Hi Hb. unfold downsample_step.
    rewrite float_div_same by lia.
    cbn [floorZ nmul ofZ FNum]. rewrite float_floor_index by lia.
    destruct (i * 3 + 2 <? len a) eqn:E1; [|lia].
    destruct (i * 3 + 2 <? len b) eqn:E2; [|lia].
    done.
  - lia.
  - done.
  - lia.
  - rewrite Z2Nat.id in Hlen, Hget by lia.
    apply (@points_ext float F _ _ k); [done..|].
    intros i Hi. rewrite Hget by done. cbn [fround FNum].
    unfold point. by rewrite !single_aget.
Qed.

(** Idempotence in binary64, on the branch without jitter: a buffer of
    single-precision numbers resampled to a count [k] at most its own
    is not changed by a second resampling to [k]; neither call draws a
    random number. *)
Lemma resample_idempotent_binary64 (rnd : nat → float)
    (originalVertices : Float32Array float) (k : Z) (w : world) :
  0 ≤ k ≤ maxParticles → k ≤ len originalVertices / 3 →
  Forall single originalVertices →
  ∃ once w1 w2,
    @resampleVertices float F rnd originalVertices k w = (Ok once, w1)
    ∧ len once = 3 * k
    ∧ cursor w1 = cursor w
    ∧ @resampleVertices float F rnd once k w1 = (Ok once, w2)
    ∧ cursor w2 = cursor w1.
Proof.
  intros [Hk Hcap] Hcount Hsingle. unfold maxParticles in Hcap.
  destruct (@resampleVertices_run float F rnd originalVertices k w Hk)
    as (once & Hrun1 & Hlen1 & Hdown1).
  rewrite Z.min_l in Hrun1, Hlen1, Hdown1 by done.
  specialize (Hdown1 Hcount).
  match type of Hrun1 with _ = (_, ?w') => set (w1 := w') in * end.
  destruct (@resampleVertices_run float F rnd once k w1 Hk)
    as (twice & Hrun2 & Hlen2 & Hdown2).
  rewrite Z.min_l in Hrun2, Hlen2, Hdown2 by done.
  assert (Hcount1 : len once / 3 = k).
  { rewrite Hlen1, Z.mul_comm. apply Z.div_mul. lia. }
  rewrite Hcount1 in Hrun2, Hdown2. rewrite Z.leb_refl in Hrun2.
  specialize (Hdown2 ltac:(lia)).
  assert (Honce : Forall single once).
  { rewrite Hdown1. apply single_downsample; [done|].
    by apply Forall_replicate. }
  cbn [ofZ ndiv FNum] in Hdown2.
  rewrite downsample_same_count_binary64 in Hdown2 by (done || lia).
  subst twice.
  eexists once, w1, _. split; [exact Hrun1|]. split; [done|].
  split; [|split; [exact Hrun2|done]].
  unfold w1. cbn [cursor].
  destruct (k <=? len originalVertices / 3) eqn:E; [done|lia].
Qed.

End ResamplingBinary64.

(** ** Vertex extraction *)

Section Extraction.
Context {num : Type} `{JSNumber num}.
Import ModelGenerator.

(** The sampling loop keeps the buffer a whole number of triples and
    below the ceiling, and only appends. *)
Lemma extract_loop_bound (positionAttribute : list (Vector3 num))
    (matrix : Vector3 num → Vector3 num) (scale : num)
    (samplingStep : positive) (i : Z) (vertices : list num) :
  len vertices `mod` 3 = 0 → len vertices ≤ 3 * maxVertices →
  len (extract_loop positionAttribute matrix scale samplingStep i vertices)
    `mod` 3 = 0
  ∧ len (extract_loop positionAttribute matrix scale samplingStep i vertices)
    ≤ 3 * maxVertices.
Proof.
  funelim (extract_loop positionAttribute matrix scale samplingStep i vertices);
    intros Hmod Hle; [|done].
  destruct (maxVertices * 3 <=? len vertices) eqn:E; [done|].
  apply Z.leb_gt in E.
  destruct (multiplyScalar _ _) as [[x y] z].
  match goal with IH : _ → ∀ z x y, _ |- _ => apply (IH (x, y)) end.
  - rewrite len_app. change (len [x; y; z]) with 3.
    rewrite Z.add_mod, Hmod by lia. done.
  - rewrite len_app. change (len [x; y; z]) with 3.
    apply Z.mod_divide in Hmod as [q Hq]; [|done].
    unfold maxVertices in *. lia.
Qed.

Lemma extract_scene_bound (scale : num) (samplingStep : positive)
    (scene : Scene num) (vertices : list num) :
  len vertices `mod` 3 = 0 → len vertices ≤ 3 * maxVertices →
  len (foldl (extract_child scale samplingStep) vertices scene) `mod` 3 = 0
  ∧ len (foldl (extract_child scale samplingStep) vertices scene)
    ≤ 3 * maxVertices.
Proof.
  revert vertices. induction scene as [|child scene IH]; intros vs Hmod Hle;
    [done|].
  cbn [foldl]. apply IH; destruct child as [m|]; cbn [extract_child];
    try done; destruct (position m); try done;
    by apply extract_loop_bound.
Qed.

(** The ceiling of a quotient, characterised. *)
Lemma ceil_div_spec (a b q : Z) :
  0 < b → (ceil_div a b = q ↔ b * (q - 1) < a ≤ b * q).
Proof.
  intros Hb. unfold ceil_div.
  pose proof (Z.div_mod (- a) b ltac:(lia)) as Hdm.
  pose proof (Z.mod_pos_bound (- a) b Hb) as Hm.
  split; intros Hq; nia.
Qed.

(** As long as the ceiling is not reached, the sampling loop over a mesh
    appends every [samplingStep]-th vertex, transformed and scaled, from
    the index where it is entered to the end of the mesh. *)
Lemma extract_loop_samples (positionAttribute : list (Vector3 num))
    (matrix : Vector3 num → Vector3 num) (scale : num)
    (samplingStep : positive) (i : Z) (vertices : list num) :
  len vertices
  + 3 * Z.max 0 (ceil_div (len positionAttribute - i) (Z.pos samplingStep))
  ≤ 3 * maxVertices →
  extract_loop positionAttribute matrix scale samplingStep i vertices =
  vertices ++
  sampled positionAttribute matrix scale (Z.pos samplingStep) i
    (Z.max 0 (ceil_div (len positionAttribute - i) (Z.pos samplingStep))).
Proof.
  funelim (extract_loop positionAttribute matrix scale samplingStep i vertices);
    intros Hcap.
  - set (L := len positionAttribute) in *.
    set (s := Z.pos samplingStep) in *.
    assert (Hs : 0 < s) by (unfold s; lia).
    set (q := ceil_div (L - i) s) in *.
    assert (Hq : s * (q - 1) < L - i ≤ s * q).
    { by apply (ceil_div_spec (L - i) s q). }
    assert (Hq1 : 1 ≤ q) by nia.
    assert (Hnext : ceil_div (L - (i + s)) s = q - 1).
    { apply ceil_div_spec; [done|]. lia. }
    rewrite Hnext in *. rewrite Z.max_r in Hcap |- * by lia.
    destruct (maxVertices * 3 <=? len vertices) eqn:E; [lia|].
    destruct (multiplyScalar _ _) as [[x y] z] eqn:Ev.
    match goal with IH : _ → ∀ z x y, _ |- _ => rewrite (IH (x, y)) end.
    + rewrite Z.max_r by lia. rewrite <- app_assoc. f_equal.
      unfold sampled. rewrite (seqZ_cons 0 q) by lia. rewrite bind_cons.
      rewrite Z.mul_0_l, Z.add_0_r, Ev. cbn [app]. do 3 f_equal.
      replace (Z.succ 0) with (1 + 0) by lia. rewrite <- fmap_add_seqZ.
      rewrite list_fmap_bind. replace (Z.pred q) with (q - 1) by lia.
      apply bind_ext_in. intros k _. cbn.
      by replace (i + s + k * s) with (i + (1 + k) * s) by lia.
    + rewrite len_app. change (len [x; y; z]) with 3. lia.
  - set (L := len positionAttribute) in *.
    set (s := Z.pos samplingStep) in *.
    assert (Hs : 0 < s) by (unfold s; lia).
    assert (Hq : ceil_div (L - i) s ≤ 0).
    { destruct (ceil_div_spec (L - i) s (ceil_div (L - i) s)) as [Hq _];
        [done|]. specialize (Hq eq_refl). nia. }
    rewrite Z.max_l by done. unfold sampled.
    by rewrite app_nil_r.
Qed.

Lemma len_sampled (positionAttribute : list (Vector3 num))
    (matrix : Vector3 num → Vector3 num) (scale : num) (step i m : Z) :
  0 ≤ m → len (sampled positionAttribute matrix scale step i m) = 3 * m.
Proof.
  intros Hm. unfold sampled. rewrite (len_bind_const _ _ 3).
  - unfold len. rewrite length_seqZ. lia.
  - intros k _. by destruct (multiplyScalar _ _) as [[x y] z].
Qed.

(** A scene made of one mesh of 50000 vertices: the stride is 4 and the
    vertices extracted are the 12500 vertices at the indices 0, 4, 8, ... *)
Lemma single_mesh_of_50000 (m : Mesh num)
    (positionAttribute : list (Vector3 num)) (scale : num) :
  position m = Some positionAttribute → len positionAttribute = 50000 →
  samplingStep_of (foldl count_vertices 0 [IsMesh m]) = 4
  ∧ foldl (extract_child scale 4) [] [IsMesh m]
    = sampled positionAttribute (matrixWorld m) scale 4 0 12500
  ∧ len (foldl (extract_child scale 4) [] [IsMesh m]) / 3 = 12500.
Proof.
  intros Hpos Hlen.
  assert (Hextract : foldl (extract_child scale 4) [] [IsMesh m]
            = sampled positionAttribute (matrixWorld m) scale 4 0 12500).
  { cbn [foldl extract_child]. rewrite Hpos.
    rewrite extract_loop_samples; rewrite Hlen; [done|].
    unfold maxVertices. by vm_compute. }
  split; [|split; [done|]].
  - cbn [foldl count_vertices]. by rewrite Hpos, Hlen.
  - rewrite Hextract, len_sampled by lia. done.
Qed.

Lemma len_Float32Array_from (xs : list num) :
  len (Float32Array_from xs) = len xs.
Proof. unfold len, Float32Array_from. by rewrite length_fmap. Qed.

(** [extractVertices], step by step: the three lines it prints, then
    either the extracted buffer or the call of [resampleVertices]. *)
Lemma extractVertices_run (rnd : nat → num) (scene : Scene num)
    (options : ModelOptions num) (w : world) :
  let total := foldl count_vertices 0 scene in
  let step := samplingStep_of total in
  let vertices :=
    foldl (extract_child (or_default (scale options) (#1)%J) (Z.to_pos step))
      [] scene in
  let k := len vertices / 3 in
  let w3 :=
    {| console :=
         console w ++
         [LogTotalVertices total; LogSamplingStep step; LogExtracted k];
       cursor := cursor w |} in
  let target :=
    match particleCount options with
    | Some n => if n =? 0 then k else Z.min n maxVertices
    | None => k
    end in
  len vertices `mod` 3 = 0 ∧ 0 ≤ k ≤ maxVertices ∧
  extractVertices rnd scene options w =
  if negb (target =? k)
  then resampleVertices rnd (Float32Array_from vertices) target w3
  else (Ok (Float32Array_from vertices), w3).
Proof.
  intros total step vertices k w3 target.
  destruct (extract_scene_bound (or_default (scale options) (#1)%J)
              (Z.to_pos step) scene []) as [Hmod Hle]; [done..|].
  fold vertices in Hmod, Hle.
  assert (Hk : len vertices = k * 3).
  { unfold k. apply Z.mod_divide in Hmod as [q ->]; [|done].
    by rewrite Z.div_mul. }
  assert (Hk0 : 0 ≤ k ≤ maxVertices).
  { pose proof (len_nonneg vertices). unfold maxVertices in *. lia. }
  split; [done|]. split; [done|].
  unfold extractVertices. fold total. fold step. fold vertices. fold k.
  unfold mbind, M_bind, print, throw. cbn [console cursor].
  rewrite Hk, Z.eqb_refl. cbn [negb]. unfold mret at 1, M_ret.
  destruct (60000 <? k * 3) eqn:E; [unfold maxVertices in *; lia|].
  fold target. rewrite <- !app_assoc. cbn [app]. fold w3.
  by destruct (negb (target =? k)).
Qed.

End Extraction.

Section ExtractionClaims.
Import ModelGenerator.

Lemma Zfloor_div (p q : Z) : 0 < q → Zfloor (IZR p / IZR q) = p / q.
Proof.
  intros Hq. apply Zfloor_eq.
  assert (HqR : (0 < IZR q)%R) by (by apply IZR_lt).
  pose proof (Z.div_mod p q ltac:(lia)) as Hdm.
  pose proof (Z.mod_pos_bound p q Hq) as [Hm0 Hm1].
  apply IZR_le in Hm0. apply IZR_lt in Hm1.
  assert (Hp : IZR p = (IZR q * IZR (p / q) + IZR (p `mod` q))%R).
  { rewrite <- mult_IZR, <- plus_IZR. by f_equal. }
  replace (IZR p / IZR q)%R
    with (IZR (p / q) + IZR (p `mod` q) / IZR q)%R
    by (rewrite Hp; field; lra).
  assert (0 <= IZR (p `mod` q) / IZR q < 1)%R; [|lra].
  split.
  - apply Rmult_le_pos; [done|]. left. by apply Rinv_0_lt_compat.
  - apply (Rmult_lt_reg_r (IZR q)); [done|].
    unfold Rdiv. rewrite Rmult_assoc, Rinv_l by lra. lra.
Qed.

(** The integer ceiling the model computes is the real one. *)
Lemma ceil_div_real (a b : Z) :
  0 < b → ceil_div a b = Zceil (IZR a / IZR b).
Proof.
  intros Hb. unfold ceil_div, Zceil. f_equal.
  rewrite <- Zfloor_div by done. f_equal.
  rewrite opp_IZR. unfold Rdiv. ring.
Qed.



End ExtractionClaims.

(** ** Construction of a particle system *)

Section Construction.
Context {num : Type} `{JSNumber num}.
Import ParticleSystem.

Lemma alloc_spec (σ σ' : gmap nat (list num)) (a : Float32Array num)
    (r : ref) :
  alloc σ a = (r, σ') →
  σ' !! r = Some a ∧ ∀ r0, is_Some (σ !! r0) → σ' !! r0 = σ !! r0.
Proof.
  unfold alloc. intros [= <- <-]. split; [by rewrite lookup_insert_eq|].
  intros r0 Hr0. rewrite lookup_insert_ne; [done|].
  intros <-. apply elem_of_dom in Hr0. by apply is_fresh in Hr0.
Qed.

(** What the constructor does with the heap: it adds the copy of the
    positions and the velocities, and leaves the arrays that exist as
    they are. *)
Lemma constructor_run (rnd : nat → num) (c : nat) (σ : gmap nat (list num))
    (d : ParticleData) (o : ParticleOptions num) :
  valid_data σ d →
  match constructor rnd c σ d o with
  | Ok (s, σ', c') =>
      Z.rem (len (deref σ (positions d))) 3 = 0
      ∧ len (deref σ (colors d)) = count d * 3
      ∧ len (deref σ (sizes d)) = count d
      ∧ data s = d ∧ options s = with_defaults o
      ∧ σ' !! position_attribute s = Some (deref σ (positions d))
      ∧ σ' !! positions d = Some (deref σ (positions d))
  | Throw _ =>
      ¬ (Z.rem (len (deref σ (positions d))) 3 = 0
         ∧ len (deref σ (colors d)) = count d * 3
         ∧ len (deref σ (sizes d)) = count d)
  end.
Proof.
  intros (Hp & Hc & Hs).
  unfold constructor, initAnimationData.
  destruct (alloc σ (deref σ (positions d))) as [r1 σ1] eqn:Eσ1.
  apply alloc_spec in Eσ1 as [Hr1 Hσ1].
  unfold new_Float32Array.
  destruct (count d * 3 <? 0) eqn:Ecount.
  { cbn [mbind outcome_bind]. intros (_ & _ & Hsz).
    pose proof (len_nonneg (deref σ (sizes d))). lia. }
  cbn [mbind outcome_bind].
  set (vel := foldl _ _ _).
  destruct (alloc σ1 vel) as [r2 σ2] eqn:Eσ2.
  apply alloc_spec in Eσ2 as [Hr2 Hσ2].
  cbn [mbind outcome_bind].
  assert (Hkeep : ∀ r, is_Some (σ !! r) → σ2 !! r = σ !! r).
  { intros r Hr. rewrite Hσ2 by (by rewrite Hσ1). by apply Hσ1. }
  assert (Hattr : σ2 !! r1 = Some (deref σ (positions d))).
  { rewrite Hσ2 by (by rewrite Hr1). exact Hr1. }
  assert (Hpos : σ2 !! positions d = Some (deref σ (positions d))).
  { rewrite Hkeep by done. unfold deref. by destruct Hp as [x ->]. }
  unfold initGeometry, deref.
  rewrite (Hkeep _ Hp), (Hkeep _ Hc), (Hkeep _ Hs).
  fold (deref σ (positions d)).
  fold (deref σ (colors d)). fold (deref σ (sizes d)).
  destruct (Z.rem (len (deref σ (positions d))) 3 =? 0) eqn:E1;
    cbn [negb]; [|cbn [mbind outcome_bind]; lia].
  destruct (len (deref σ (colors d)) =? count d * 3) eqn:E2;
    cbn [negb]; [|cbn [mbind outcome_bind]; lia].
  destruct (len (deref σ (sizes d)) =? count d) eqn:E3;
    cbn [negb]; [|cbn [mbind outcome_bind]; lia].
  cbn [mbind outcome_bind].
  set (s0 := {| data := d |}).
  assert (Hs0 : ∀ s, (s = s0 ∨ s = initConnections σ2 s0) →
            data s = d ∧ options s = with_defaults o
            ∧ position_attribute s = r1).
  { intros s [->| ->]; [done|]. unfold initConnections.
    destruct (negb _); [done|]. by destruct (0 <? _). }
  destruct (flag (connected (with_defaults o)));
    [destruct (Hs0 (initConnections σ2 s0)) as (Hd & Ho & Ha); [by right|]
    |destruct (Hs0 s0) as (Hd & Ho & Ha); [by left|]];
    rewrite ?Ha; repeat split; (done || lia).
Qed.

Lemma constructor_ok (rnd : nat → num) (c : nat) (σ : gmap nat (list num))
    (d : ParticleData) (o : ParticleOptions num) :
  valid_data σ d →
  Z.rem (len (deref σ (positions d))) 3 = 0 →
  len (deref σ (colors d)) = count d * 3 →
  len (deref σ (sizes d)) = count d →
  ∃ s σ' c', constructor rnd c σ d o = Ok (s, σ', c').
Proof.
  intros Hvalid H1 H2 H3.
  pose proof (constructor_run rnd c σ d o Hvalid) as Hrun.
  destruct (constructor rnd c σ d o) as [[[s σ'] c']|msg]; [by eauto|].
  by destruct Hrun.
Qed.

(** C10. The constructor enforces the length invariants of the data it
    is given: it throws, and returns no particle system, when
    [positions.length] is not divisible by 3, or [colors.length] is not
    [3 * count], or [sizes.length] is not [count]; it returns a system
    exactly when the three hold. *)
Theorem constructor_checks_lengths (rnd : nat → num) (c : nat)
    (σ : gmap nat (list num)) (d : ParticleData) (o : ParticleOptions num) :
  valid_data σ d →
  let invariants :=
    len (deref σ (positions d)) `mod` 3 = 0
    ∧ len (deref σ (colors d)) = 3 * count d
    ∧ len (deref σ (sizes d)) = count d in
  (invariants → ∃ s σ' c', constructor rnd c σ d o = Ok (s, σ', c'))
  ∧ (¬ invariants → ∃ msg, constructor rnd c σ d o = Throw msg).
Proof.
  intros Hvalid invariants.
  pose proof (constructor_run rnd c σ d o Hvalid) as Hrun.
  assert (Hrem : Z.rem (len (deref σ (positions d))) 3
                 = len (deref σ (positions d)) `mod` 3).
  { apply Z.rem_mod_nonneg; [apply len_nonneg|lia]. }
  rewrite Hrem in Hrun. unfold invariants.
  destruct (constructor rnd c σ d o) as [[[s σ'] c']|msg].
  - split; [by eauto|]. intros Hnot. exfalso. apply Hnot.
    destruct Hrun as (? & ? & ? & _). repeat split; (done || lia).
  - split; [|by eauto]. intros (? & ? & ?). exfalso. apply Hrun.
    repeat split; (done || lia).
Qed.

End Construction.

Section ConstructionExample.
Import ParticleSystem.

(** A cloud of one particle in a heap of three arrays. *)
Lemma constructor_checks_lengths_witness :
  let σ : gmap nat (list R) :=
    <[0%nat := [1%R; 2%R; 3%R]]>
      (<[1%nat := [1%R; 1%R; 1%R]]> (<[2%nat := [1%R]]> ∅)) in
  let d := {| originalPositions := 0%nat; positions := 0%nat;
              velocities := 0%nat; colors := 1%nat; sizes := 2%nat;
              count := 1 |} in
  let o : ParticleOptions R :=
    {| animated := None; animationSpeed := None; animationRadius := None;
       connected := None; connectionDistance := None; interactive := None;
       mouseInfluence := None; mouseRadius := None |} in
  valid_data σ d ∧
  ∃ s σ' c', constructor (λ _, 0%R) 0 σ d o = Ok (s, σ', c').
Proof.
  intros σ d o.
  assert (Hvalid : valid_data σ d).
  { repeat split; by eexists. }
  split; [exact Hvalid|].
  apply (constructor_checks_lengths (λ _, 0%R) 0 σ d o Hvalid).
  repeat split.
Defined.

End ConstructionExample.

(** ** A system that is neither animated nor interactive *)

Section StaticSystem.
Context {num : Type} `{JSNumber num}.
Import ParticleSystem.

(** With both flags off [update] returns at once. *)
Lemma update_static (w : Window num) (s : t num) (σ : gmap nat (list num))
    (deltaTime : num) (mousePosition : option (Vector2 num))
    (camera : option (Camera num)) :
  flag (animated (options s)) = false →
  flag (interactive (options s)) = false →
  update w s σ deltaTime mousePosition camera = (s, σ).
Proof. intros Ha Hi. unfold update. by rewrite Ha, Hi. Qed.

(** In every state a caller can reach, the options are the ones given at
    construction, and the drawn buffer either is the array of the data
    or is an existing array with the same content. *)
Lemma reachable_static (w : Window num) (rnd : nat → num)
    (o : ParticleOptions num) (s : t num) (σ : gmap nat (list num)) :
  flag (animated o) = false → flag (interactive o) = false →
  reachable w rnd o s σ →
  options s = with_defaults o
  ∧ (position_attribute s = positions (data s)
     ∨ (is_Some (σ !! position_attribute s)
        ∧ is_Some (σ !! positions (data s))
        ∧ σ !! position_attribute s = σ !! positions (data s))).
Proof.
  intros Ha Hi Hreach.
  induction Hreach as
    [c σ d s σ' c' Hvalid Hnew
    |s σ dt mouse camera s' σ' Hreach IH Hupd
    |s σ r Hreach IH|s σ r Hreach IH|s σ r Hreach IH
    |s σ r a Hreach IH Hfresh].
  - pose proof (constructor_run rnd c σ d o Hvalid) as Hrun.
    rewrite Hnew in Hrun.
    destruct Hrun as (_ & _ & _ & Hd & Ho & Hattr & Hpos).
    split; [done|]. right. rewrite Hd, Hattr, Hpos. eauto.
  - destruct IH as [Ho IH].
    rewrite update_static in Hupd by (by rewrite Ho).
    by injection Hupd as <- <-.
  - destruct IH as [Ho IH]. split; [done|]. by left.
  - destruct IH as [Ho IH]. by split.
  - destruct IH as [Ho IH]. by split.
  - destruct IH as [Ho [Heq|(Ha1 & Ha2 & Heq)]]; (split; [done|]).
    + by left.
    + right.
      assert (Hne : ∀ r0, is_Some (σ !! r0) →
                <[r := a]> σ !! r0 = σ !! r0).
      { intros r0 Hr0. apply lookup_insert_ne. intros ->.
        rewrite Hfresh in Hr0. by destruct Hr0. }
      rewrite !Hne by done. done.
Qed.

(** C2. For every particle system built with [animated] and
    [interactive] off (absent or false), in every state the caller can
    reach through the methods of the class, every call of [update], for
    any [deltaTime], pointer and camera, changes nothing, and the buffer
    that is drawn equals the original positions element by element. *)
Theorem static_update_keeps_original_positions (w : Window num)
    (rnd : nat → num) (o : ParticleOptions num) (s : t num)
    (σ : gmap nat (list num)) (deltaTime : num)
    (mousePosition : option (Vector2 num)) (camera : option (Camera num)) :
  flag (animated o) = false → flag (interactive o) = false →
  reachable w rnd o s σ →
  ∃ s' σ',
    update w s σ deltaTime mousePosition camera = (s', σ')
    ∧ s' = s ∧ σ' = σ
    ∧ deref σ' (position_attribute s') = deref σ' (positions (data s')).
Proof.
  intros Ha Hi Hreach.
  destruct (reachable_static w rnd o s σ Ha Hi Hreach) as [Ho Hbuf].
  exists s, σ. split; [apply update_static; by rewrite Ho|].
  split; [done|]. split; [done|]. unfold deref.
  destruct Hbuf as [->|(_ & _ & ->)]; done.
Qed.

End StaticSystem.

Section StaticSystemExample.
Import ParticleSystem.

(** A cloud of one particle, built with no option set, then ticked. *)
Lemma static_update_keeps_original_positions_witness :
  let σ : gmap nat (list R) :=
    <[0%nat := [1%R; 2%R; 3%R]]>
      (<[1%nat := [1%R; 1%R; 1%R]]> (<[2%nat := [1%R]]> ∅)) in
  let d := {| originalPositions := 0%nat; positions := 0%nat;
              velocities := 0%nat; colors := 1%nat; sizes := 2%nat;
              count := 1 |} in
  let o : ParticleOptions R :=
    {| animated := None; animationSpeed := None; animationRadius := None;
       connected := None; connectionDistance := None; interactive := None;
       mouseInfluence := None; mouseRadius := None |} in
  let w : Window R := {| innerWidth := 800%R; innerHeight := 600%R |} in
  flag (animated o) = false ∧ flag (interactive o) = false ∧
  ∃ s σ1, reachable w (λ _, 0%R) o s σ1 ∧
    ∃ s' σ',
      update w s σ1 1%R (Some (400%R, 300%R)) None = (s', σ')
      ∧ s' = s ∧ σ' = σ1
      ∧ deref σ' (position_attribute s') = deref σ' (positions (data s')).
Proof.
  intros σ d o w.
  assert (Hvalid : valid_data σ d).
  { repeat split; by eexists. }
  destruct (constructor_ok (λ _, 0%R) 0 σ d o Hvalid)
    as (s & σ1 & c' & Hnew); [reflexivity..|].
  assert (Hreach : reachable w (λ _, 0%R) o s σ1).
  { by eapply reach_new. }
  split; [reflexivity|]. split; [reflexivity|].
  exists s, σ1. split; [exact Hreach|].
  apply (static_update_keeps_original_positions w (λ _, 0%R) o s σ1 1%R
           (Some (400%R, 300%R)) None eq_refl eq_refl Hreach).
Defined.

End StaticSystemExample.

(** ** The connection lines *)

Section ConnectionLoops.
Context {num : Type} `{JSNumber num}.
Import ParticleSystem.

(** The two loops of [initConnections] go through [index_pairs] and
    push the segment of each pair whose measured distance passes the
    test [distance <= maxDistance]. *)
Lemma connection_positions_pairs (a : Float32Array num) (n : Z)
    (maxDistance : num) :
  connection_positions a n maxDistance =
  index_pairs n ≫= λ p,
    if (measured a p.1 p.2 <=? maxDistance)%J then segment a p else [].
Proof.
  unfold connection_positions, index_pairs.
  set (g := λ p : Z * Z,
         if (measured a p.1 p.2 <=? maxDistance)%J then segment a p else []).
  rewrite (foldl_ext _
    (λ acc i, acc ++ (seqZ (i + 1) (n - (i + 1)) ≫= λ j, g (i, j)))).
  - rewrite foldl_push. cbn [app].
    induction (seqZ 0 n) as [|i l IH]; [done|].
    rewrite !bind_cons, bind_app, IH. f_equal.
    induction (seqZ (i + 1) (n - (i + 1))) as [|j l' IH']; [done|].
    rewrite !bind_cons, bind_app, IH'. f_equal. cbn. by rewrite app_nil_r.
  - intros acc i. unfold connect_from.
    rewrite (foldl_ext _ (λ acc j, acc ++ g (i, j))); [apply foldl_push|].
    intros acc' j. unfold connect_pair, g, measured, segment. cbn [fst snd].
    destruct (point a i) as [[x1 y1] z1], (point a j) as [[x2 y2] z2].
    destruct (nleb _ _); [done|by rewrite app_nil_r].
Qed.

Lemma elem_of_index_pairs (n i j : Z) :
  (i, j) ∈ index_pairs n ↔ 0 ≤ i < j ∧ j < n.
Proof.
  unfold index_pairs. rewrite list_elem_of_bind. split.
  - intros (i' & Hin & Hi'). apply elem_of_seqZ in Hi'.
    apply list_elem_of_bind in Hin as (j' & Hin & Hj').
    apply elem_of_seqZ in Hj'. apply list_elem_of_singleton in Hin.
    injection Hin as -> ->. lia.
  - intros [Hi Hj]. exists i. split; [|apply elem_of_seqZ; lia].
    apply list_elem_of_bind. exists j.
    split; [by apply list_elem_of_singleton|].
    apply elem_of_seqZ. lia.
Qed.

(** There are [n (n - 1) / 2] pairs. *)
Lemma len_index_pairs (n : Z) :
  0 ≤ n → 2 * len (index_pairs n) = n * (n - 1).
Proof.
  intros Hn. unfold index_pairs.
  assert (Hsum : ∀ (k : nat) (m : Z), m + Z.of_nat k = n →
    2 * len (seqZ m (Z.of_nat k) ≫= λ i,
               seqZ (i + 1) (n - (i + 1)) ≫= λ j, [(i, j)])
    = Z.of_nat k * (Z.of_nat k - 1)).
  { induction k as [|k IH]; intros m Hm; [done|].
    rewrite seqZ_cons by lia. rewrite bind_cons, len_app.
    replace (Z.pred (Z.of_nat (S k))) with (Z.of_nat k) by lia.
    rewrite Z.mul_add_distr_l, (IH (Z.succ m)) by lia.
    rewrite (len_bind_const _ _ 1) by done.
    unfold len at 1. rewrite length_seqZ. lia. }
  specialize (Hsum (Z.to_nat n) 0). rewrite Z2Nat.id in Hsum by lia.
  apply Hsum. lia.
Qed.

End ConnectionLoops.

Section ConnectionGraph.
Import ParticleSystem.

Lemma NoDup_index_pairs (n : Z) : NoDup (index_pairs n).
Proof.
  unfold index_pairs. apply NoDup_bind; [| |apply NoDup_seqZ].
  - intros i1 i2 [i j] _ _ H1 H2.
    apply list_elem_of_bind in H1 as (j1 & H1 & _).
    apply list_elem_of_bind in H2 as (j2 & H2 & _).
    apply list_elem_of_singleton in H1, H2. congruence.
  - intros i _. apply NoDup_bind; [| |apply NoDup_seqZ].
    + intros j1 j2 [i' j] _ _ H1 H2.
      apply list_elem_of_singleton in H1, H2. congruence.
    + intros j _. apply NoDup_singleton.
Qed.

Lemma measured_euclid (a : Float32Array R) (i j : Z) :
  measured a i j = euclid (point a i) (point a j).
Proof.
  unfold measured, euclid.
  by destruct (point a i) as [[x1 y1] z1], (point a j) as [[x2 y2] z2].
Qed.

Lemma nleb_real (x y : R) : (x <=? y)%J = true ↔ (x <= y)%R.
Proof. cbn [nleb RNum]. by destruct (Rle_dec x y). Qed.

(** In exact arithmetic the loops push the segments of [edges]. *)
Lemma connection_positions_edges (a : Float32Array R) (n : Z) (d : R) :
  connection_positions a n d = edges a n d ≫= segment a.
Proof.
  rewrite connection_positions_pairs. unfold edges.
  apply bind_filter. intros [i j]. unfold within. cbn [fst snd].
  rewrite <- measured_euclid. apply nleb_real.
Qed.

Lemma elem_of_edges (a : Float32Array R) (n : Z) (d : R) (i j : Z) :
  (i, j) ∈ edges a n d ↔
  0 ≤ i < j ∧ j < n ∧ (euclid (point a i) (point a j) <= d)%R.
Proof.
  unfold edges. rewrite list_elem_of_filter, elem_of_index_pairs.
  unfold within. cbn [fst snd]. tauto.
Qed.

(** Binary64: every number that is not NaN is at most [infinity]. *)
Lemma float_leb_infinity (x : float) :
  PrimFloat.is_nan x = false → (x <=? infinity)%float = true.
Proof.
  unfold PrimFloat.is_nan.
  rewrite FloatAxioms.eqb_spec, FloatAxioms.leb_spec.
  change (Prim2SF infinity) with (S754_infinity false).
  destruct (Prim2SF x) as [s|s| |s m e]; try destruct s; done.
Qed.

Lemma len_segment {num : Type} `{JSNumber num} (a : Float32Array num)
    (p : Z * Z) : len (segment a p) = 6.
Proof.
  unfold segment.
  by destruct (point a p.1) as [[x1 y1] z1], (point a p.2) as [[x2 y2] z2].
Qed.

(** In binary64, with [connectionDistance = Infinity], every pair whose
    measured distance is a number is connected. *)
Lemma connections_at_infinity (fsin fcos : float → float)
    (a : Float32Array float) (n : Z) :
  0 ≤ n →
  (∀ i j, 0 ≤ i < j → j < n →
     PrimFloat.is_nan (@measured float (FNum fsin fcos) a i j) = false) →
  @connection_positions float (FNum fsin fcos) a n
    (@or_default float (FNum fsin fcos) (Some infinity) 1%float)
  = index_pairs n ≫= @segment float (FNum fsin fcos) a.
Proof.
  intros Hn Hnum.
  change (@or_default float (FNum fsin fcos) (Some infinity) 1%float)
    with infinity.
  rewrite connection_positions_pairs. apply bind_ext_in.
  intros [i j] Hp. apply elem_of_index_pairs in Hp. cbn [fst snd].
  cbn [nleb FNum]. rewrite float_leb_infinity; [done|].
  apply Hnum; lia.
Qed.



End ConnectionGraph.

(** ** The library evaluated in binary64 *)

Section Binary64Runs.
Import ParticleSystem.

(** Small runs of the generators, as the engine computes them. The
    engine's sine and cosine play no part in them. *)
Local Abbreviation F := (FNum (λ x, x) (λ x, x)).
Local Abbreviation w0 := {| console := []; cursor := 0 |}.

(** Four points resampled to two: the points 0 and 2, no random draw. *)
Example downsample_four_to_two :
  @ModelGenerator.resampleVertices float F (λ _, 0.75%float)
    [0; 1; 2; 10; 11; 12; 20; 21; 22; 30; 31; 32]%float 2 w0
  = (Ok [0; 1; 2; 20; 21; 22]%float,
     {| console := [LogResampling 4 2]; cursor := 0 |}).
Proof. vm_compute. reflexivity. Qed.

(** Two points resampled to three: the sources cycle and each copy is
    shifted by [(random - 0.5) * 0.01], here 0 for a source stuck at
    0.5; one number is drawn per point. *)
Example upsample_two_to_three :
  @ModelGenerator.resampleVertices float F (λ _, 0.5%float)
    [0; 1; 2; 10; 11; 12]%float 3 w0
  = (Ok [0; 1; 2; 10; 11; 12; 0; 1; 2]%float,
     {| console := [LogResampling 2 3]; cursor := 3 |}).
Proof. vm_compute. reflexivity. Qed.

(** A mesh of three vertices, scaled by 2, next to an object that is not
    a mesh and a mesh without positions. *)
Example extract_three_vertices :
  @ModelGenerator.extractVertices float F (λ _, 0.5%float)
    [ModelGenerator.IsMesh
       {| ModelGenerator.position :=
            Some [(1, 2, 3); (4, 5, 6); (7, 8, 9)]%float;
          ModelGenerator.matrixWorld := λ v, v |};
     ModelGenerator.NotMesh;
     ModelGenerator.IsMesh
       {| ModelGenerator.position := None;
          ModelGenerator.matrixWorld := λ v, v |}]
    {| ModelGenerator.url := "model.glb";
       ModelGenerator.scale := Some 2%float;
       ModelGenerator.particleCount := None |} w0
  = (Ok [2; 4; 6; 8; 10; 12; 14; 16; 18]%float,
     {| console := [LogTotalVertices 3; LogSamplingStep 1; LogExtracted 3];
        cursor := 0 |}).
Proof. vm_compute. reflexivity. Qed.

(** Three particles and the threshold 1.5: only the first two are
    connected. *)
Example connect_three_points :
  @connection_positions float F [0; 0; 0; 1; 0; 0; 0; 3; 0]%float 3 1.5%float
  = [0; 0; 0; 1; 0; 0]%float.
Proof. vm_compute. reflexivity. Qed.

(** A source whose first triple falls outside the ball and whose second
    falls inside: one round is not enough, two are. *)
Example volume_second_round :
  let rnd := λ n : nat, if (n <? 3)%nat then 0%float else 0.5%float in
  @SphereGenerator.generateVolume float F 1 rnd 0 (sphere_request 1 2%float)
  = None
  ∧ @SphereGenerator.generateVolume float F 2 rnd 0 (sphere_request 1 2%float)
    = Some (Ok ([0; 0; 0]%float, 6%nat)).
Proof. vm_compute. split; reflexivity. Qed.


(** C8. The pointer in the middle of an 800 x 600 window, a camera whose
    [unproject] is the identity (the base [THREE.Camera]), and one
    particle at [(0, 0, 0.5)], the world point of the pointer: the
    distance is exactly 0 and less than the default [mouseRadius] 2, the
    direction is [0 / 0], and the position written for the particle is
    NaN in its three coordinates. *)
Theorem pointer_on_particle_gives_nan :
  let σ : gmap nat (list float) :=
    <[0%nat := [0; 0; 0.5]%float]>
      (<[1%nat := [1; 1; 1]%float]> (<[2%nat := [1]%float]> ∅)) in
  let d := {| originalPositions := 0%nat; positions := 0%nat;
              velocities := 0%nat; colors := 1%nat; sizes := 2%nat;
              count := 1 |} in
  let o : ParticleOptions float :=
    {| animated := None; animationSpeed := None; animationRadius := None;
       connected := None; connectionDistance := None;
       interactive := Some true; mouseInfluence := None;
       mouseRadius := None |} in
  let w : Window float :=
    {| innerWidth := 800%float; innerHeight := 600%float |} in
  let camera : Camera float := {| unproject := λ v, v |} in
  match @constructor float (FNum (λ x, x) (λ x, x)) (λ _, 0.5%float) 0 σ d o
  with
  | Ok (s, σ', _) =>
      let '(s', σ'') :=
        @update float (FNum (λ x, x) (λ x, x)) w s σ' 0.015625%float
          (Some (400, 300)%float) (Some camera) in
      mouseInfluenceVector s' = (0, 0, 0.5)%float
      ∧ deref σ'' (positions (data s')) = [0; 0; 0.5]%float
      ∧ deref σ'' (position_attribute s') = [nan; nan; nan]
  | Throw _ => False
  end.
Proof. vm_compute. repeat split. Qed.

End Binary64Runs.

(** ** What [extractVertices] returns and when it throws *)

Section ExtractionOutcomes.
Context {num : Type} `{JSNumber num}.
Import ModelGenerator.

(** X1. [extractVertices] throws exactly when [particleCount] is
    negative, and then with 'Array creation failed' from the resampling
    step: the guards 'Too many vertices' and 'Target array size too
    large' can never fire, whatever the scene. *)
Theorem extractVertices_throws_only_on_negative_count (rnd : nat → num)
    (scene : Scene num) (options : ModelOptions num) (w : world) :
  match (extractVertices rnd scene options w).1 with
  | Throw msg =>
      msg = "Array creation failed"%string
      ∧ ∃ n, particleCount options = Some n ∧ n < 0
  | Ok buf => ∀ n, particleCount options = Some n → 0 ≤ n
  end.
Proof.
  destruct (extractVertices_run rnd scene options w) as (_ & Hk & ->).
  destruct (particleCount options) as [n|]; cbn zeta.
  - destruct (n =? 0) eqn:E0.
    { rewrite Z.eqb_refl. cbn. intros ? [= <-]. lia. }
    destruct (negb (Z.min n maxVertices =? _)) eqn:E1.
    + destruct (decide (n < 0)) as [Hn|Hn].
      * rewrite Z.min_l by (unfold maxVertices; lia).
        rewrite resampleVertices_negative by done. cbn. eauto.
      * edestruct (resampleVertices_run rnd) as (b & -> & _);
          [|cbn; intros ? [= <-]; lia].
        unfold maxVertices. lia.
    + cbn. intros ? [= <-].
      apply negb_false_iff, Z.eqb_eq in E1. unfold maxVertices in *. lia.
  - rewrite Z.eqb_refl. cbn. by intros ? [=].
Qed.

(** X2. How many particles come back. With [k] the number extracted
    from the scene: without [particleCount] (or with 0) the result has
    [k] particles; with [particleCount = n > 0] it has [k] particles when
    [min(n, 15000) = k] and [min(n, 1000)] particles otherwise, so that a
    request that differs from [k] is answered with at most 1000. *)
Theorem extractVertices_particle_count (rnd : nat → num)
    (scene : Scene num) (options : ModelOptions num) (w : world) :
  (∀ n, particleCount options = Some n → 0 ≤ n) →
  let k := len (extracted scene options) / 3 in
  ∃ buf w',
    extractVertices rnd scene options w = (Ok buf, w')
    ∧ len buf =
      3 * match particleCount options with
          | Some n =>
              if (n =? 0) || (Z.min n maxVertices =? k) then k
              else Z.min n maxParticles
          | None => k
          end.
Proof.
  intros Hn k.
  destruct (extractVertices_run rnd scene options w) as (Hmod & Hk & ->).
  fold (extracted scene options) in Hmod, Hk |- *. fold k in Hk |- *.
  assert (Hlen : len (Float32Array_from (extracted scene options)) = 3 * k).
  { rewrite len_Float32Array_from. unfold k.
    apply Z.mod_divide in Hmod as [q ->]; [|done]. rewrite Z.div_mul; lia. }
  destruct (particleCount options) as [n|]; cbn zeta.
  - specialize (Hn n eq_refl). destruct (n =? 0) eqn:E0; cbn [orb].
    { rewrite Z.eqb_refl. cbn [negb]. by eexists _, _. }
    destruct (Z.min n maxVertices =? k) eqn:E1; cbn [negb].
    { by eexists _, _. }
    edestruct (resampleVertices_run rnd) as (b & -> & Hb & _);
      [|eexists _, _; split; [done|]].
    + unfold maxVertices. lia.
    + rewrite Hb. unfold maxVertices, maxParticles. lia.
  - rewrite Z.eqb_refl. cbn [negb]. by eexists _, _.
Qed.

End ExtractionOutcomes.

Section ExtractionOutcomesExample.
Import ModelGenerator.

Lemma extractVertices_particle_count_witness :
  let scene : Scene R :=
    [IsMesh {| position := Some [(1, 2, 3); (4, 5, 6); (7, 8, 9)]%R;
               matrixWorld := λ v, v |}] in
  let options : ModelOptions R :=
    {| url := "model.glb"; scale := None; particleCount := Some 2 |} in
  (∀ n, particleCount options = Some n → 0 ≤ n) ∧
  ∃ buf w',
    extractVertices (λ _, 0%R) scene options {| console := []; cursor := 0 |}
    = (Ok buf, w')
    ∧ len buf =
      3 * match particleCount options with
          | Some n =>
              if (n =? 0)
                 || (Z.min n maxVertices =? len (extracted scene options) / 3)
              then len (extracted scene options) / 3
              else Z.min n maxParticles
          | None => len (extracted scene options) / 3
          end.
Proof.
  intros scene options.
  assert (Hn : ∀ n, particleCount options = Some n → 0 ≤ n).
  { intros n [= <-]. lia. }
  split; [exact Hn|].
  exact (extractVertices_particle_count (λ _, 0%R) scene options
           {| console := []; cursor := 0 |} Hn).
Defined.

End ExtractionOutcomesExample.

(** ** The points that resampling returns *)

Section LoopsInM.

(** A loop in [M] over a list that ends in [x]: the loop over the front,
    then the body at [x]. *)
Lemma forM_snoc {A S} (body : S → A → M S) (s : S) (xs : list A) (x : A)
    (w : world) :
  forM body s (xs ++ [x]) w =
  match forM body s xs w with
  | (Ok s', w') => body s' x w'
  | (Throw e, w') => (Throw e, w')
  end.
Proof.
  revert s w. induction xs as [|y xs IH]; intros s w.
  - cbn [app forM]. unfold mbind, M_bind, mret, M_ret.
    by destruct (body s x w) as [[s'|e] w'].
  - cbn [app forM]. unfold mbind, M_bind.
    destruct (body s y w) as [[s'|e] w']; [apply IH|done].
Qed.

End LoopsInM.

Section ResamplingContent.
Import ModelGenerator.

(** The index [floor(i * (n / k))] the downsampling branch reads. *)
Lemma downsample_source_index (i n k : Z) :
  0 < k → floorZ (#i * (#n / #k))%J = i * n / k.
Proof.
  intros Hk. cbn [floorZ ofZ nmul ndiv RNum].
  replace (IZR i * (IZR n / IZR k))%R with (IZR (i * n) / IZR k)%R.
  - by apply Zfloor_div.
  - rewrite mult_IZR. assert (IZR k ≠ 0%R) by (apply not_0_IZR; lia).
    by field.
Qed.



(** The upsampling loop, read per point: output point [i] is the input
    point [i mod n] with the [i]-th random offset added to each of its
    three coordinates. *)
Lemma upsample_loop (rnd : nat → R) (a : Float32Array R) (n L : Z)
    (cs : list console_event) (c : nat) :
  0 < n → 3 * n ≤ len a →
  ∀ (m : nat) (b0 : Float32Array R),
    len b0 = L → 3 * Z.of_nat m ≤ L →
    ∃ b,
      forM (upsample_step rnd a n) b0 (seqZ 0 (Z.of_nat m))
        {| console := cs; cursor := c |}
      = (Ok b, {| console := cs; cursor := (c + m)%nat |})
      ∧ len b = L
      ∧ ∀ i, 0 ≤ i < Z.of_nat m →
          let o := ((rnd (c + Z.to_nat i)%nat - 1 / 2) * (1 / 100))%R in
          let '(x, y, z) := point a (i `mod` n) in
          point b i = ((x + o)%R, (y + o)%R, (z + o)%R).
Proof.
  intros Hn Ha m. induction m as [|m IH]; intros b0 Hb0 HL.
  - exists b0. cbn [seqZ forM]. unfold mret, M_ret.
    rewrite Nat.add_0_r. split; [done|]. split; [done|]. intros i Hi. lia.
  - destruct (IH b0) as (b1 & Hrun & Hlen & Hget); [done|lia|].
    rewrite seqZ_S, forM_snoc, Hrun, Z.add_0_l.
    unfold upsample_step, mbind, M_bind, random, mret, M_ret.
    cbn [console cursor].
    assert (Hm : 0 ≤ Z.of_nat m `mod` n < n) by (apply Z.mod_pos_bound; lia).
    destruct (n =? 0) eqn:E0; [lia|].
    rewrite Z.rem_mod_nonneg by lia.
    destruct (Z.of_nat m `mod` n * 3 + 2 <? len a) eqn:E1; [|lia].
    destruct (Z.of_nat m * 3 + 2 <? len b1) eqn:E2; [|lia].
    cbn [andb]. eexists. split; [by rewrite Nat.add_succ_r|].
    split; [by rewrite !len_aset|].
    intros i Hi. rewrite point_write3 by lia.
    destruct (decide (i = Z.of_nat m)) as [->|Hne].
    + rewrite Nat2Z.id. unfold point, dec. cbn [fround ofZ nadd nsub nmul ndiv RNum].
      done.
    + apply Hget. lia.
Qed.

(** X4. Upsampling repeats the input with jitter. When the (capped)
    count [k] exceeds the number [n >= 1] of points of the buffer, the
    result has [k] points and point [i] is the input point [i mod n]
    moved by one offset [(random - 0.5) * 0.01] added to all three
    coordinates alike; one random number is drawn per point, and with
    random numbers in [[0, 1)] every coordinate stays within 0.005 of
    the input's. *)
Theorem upsample_repeats_input_with_jitter (rnd : nat → R)
    (originalVertices : Float32Array R) (targetCount : Z) (w : world) :
  let n := len originalVertices / 3 in
  let k := Z.min targetCount maxParticles in
  0 < n → n < k →
  ∃ newVertices w',
    resampleVertices rnd originalVertices targetCount w = (Ok newVertices, w')
    ∧ cursor w' = (cursor w + Z.to_nat k)%nat
    ∧ len newVertices = 3 * k
    ∧ ∀ i, 0 ≤ i < k →
        let o :=
          ((rnd (cursor w + Z.to_nat i)%nat - 1 / 2) * (1 / 100))%R in
        let '(x, y, z) := point originalVertices (i `mod` n) in
        point newVertices i = ((x + o)%R, (y + o)%R, (z + o)%R)
        ∧ ((0 <= rnd (cursor w + Z.to_nat i)%nat < 1)%R →
           (Rabs o <= 5 / 1000)%R).
Proof.
  intros n k Hn Hnk.
  assert (Hk : 0 < k ≤ 1000) by (unfold k, maxParticles in *; lia).
  assert (Ha : 3 * n ≤ len originalVertices).
  { unfold n. pose proof (Z.mul_div_le (len originalVertices) 3). lia. }
  unfold resampleVertices. fold k. fold n.
  destruct (50000 <? k * 3) eqn:E1; [lia|].
  unfold new_Float32Array. destruct (k * 3 <? 0) eqn:E2; [lia|].
  destruct (k <=? n) eqn:E3; [lia|].
  set (zeros := replicate (Z.to_nat (k * 3)) (#0)%J).
  assert (Hz : len zeros = 3 * k).
  { unfold len, zeros. rewrite length_replicate. lia. }
  unfold mbind, M_bind, print. cbn [console cursor].
  destruct (upsample_loop rnd originalVertices n (3 * k)
              (console w ++ [LogResampling n k]) (cursor w) Hn Ha
              (Z.to_nat k) zeros) as (b & Hrun & Hlen & Hget); [done|lia|].
  rewrite Z2Nat.id in Hrun, Hget by lia. rewrite Hrun.
  assert (Hrest : ∀ i, 0 ≤ i < k →
    let o := ((rnd (cursor w + Z.to_nat i)%nat - 1 / 2) * (1 / 100))%R in
    let '(x, y, z) := point originalVertices (i `mod` n) in
    point b i = ((x + o)%R, (y + o)%R, (z + o)%R)
    ∧ ((0 <= rnd (cursor w + Z.to_nat i)%nat < 1)%R →
       (Rabs o <= 5 / 1000)%R)); [|
    destruct (k <? targetCount); unfold mret, M_ret; cbn [console cursor];
    by eexists _, _].
  intros i Hi o. specialize (Hget i Hi). cbn zeta in Hget. fold o in Hget.
  destruct (point originalVertices (i `mod` n)) as [[x y] z].
  split; [done|]. intros Hr. unfold o. apply Rabs_le. lra.
Qed.

Lemma upsample_repeats_input_with_jitter_witness :
  let a := [1; 2; 3]%R in
  0 < len a / 3 ∧ len a / 3 < Z.min 2 maxParticles ∧
  ∃ newVertices w',
    resampleVertices (λ _, 0%R) a 2 {| console := []; cursor := 0 |}
    = (Ok newVertices, w')
    ∧ cursor w' = (0 + Z.to_nat (Z.min 2 maxParticles))%nat
    ∧ len newVertices = 3 * Z.min 2 maxParticles
    ∧ ∀ i, 0 ≤ i < Z.min 2 maxParticles →
        let o := ((0 - 1 / 2) * (1 / 100))%R in
        let '(x, y, z) := point a (i `mod` (len a / 3)) in
        point newVertices i = ((x + o)%R, (y + o)%R, (z + o)%R)
        ∧ ((0 <= 0 < 1)%R → (Rabs o <= 5 / 1000)%R).
Proof.
  intros a. split; [by vm_compute|]. split; [by vm_compute|].
  apply (upsample_repeats_input_with_jitter (λ _, 0%R) a 2
           {| console := []; cursor := 0 |}); by vm_compute.
Defined.

End ResamplingContent.

(** ** The sphere generators: counts, poles and heights *)

Section SphereCounts.
Context {num : Type} `{JSNumber num}.
Import SphereGenerator.

Lemma len_generate_loop (count : Z) (radius : num) (l : list Z)
    (a : Float32Array num) :
  len (foldl (generate_step count radius) a l) = len a.
Proof.
  revert a. induction l as [|i l IH]; intros a; [done|].
  cbn [foldl]. rewrite IH. unfold generate_step. by rewrite !len_aset.
Qed.

Lemma len_generateVolume_loop (fuel : nat) (rnd : nat → num) (radius : num)
    (l : list Z) (a ps : Float32Array num) (c c' : nat) :
  foldl (generateVolume_step fuel rnd radius) (Some (a, c)) l = Some (ps, c') →
  len ps = len a.
Proof.
  revert a c. induction l as [|i l IH]; intros a c; cbn [foldl].
  - by intros [= -> _].
  - unfold generateVolume_step at 2. cbn [mbind option_bind].
    destruct (draw_in_sphere fuel rnd c) as [[[[x y] z] c1]|].
    + cbn [mbind option_bind]. intros Hrun. apply IH in Hrun.
      by rewrite Hrun, !len_aset.
    + intros Hrun. exfalso. revert Hrun. clear.
      induction l as [|j l IH]; [done|]. cbn [foldl]. exact IH.
Qed.

(** X5. The number of points of the sphere generators, for every kind
    of number. The count is [options.count || 1000]: a missing count and
    a count of 0 both give 1000 points, never an empty cloud. [generate]
    returns [3 * count] numbers for every positive count and fails with
    a RangeError for a negative one; the same holds for the buffer
    [generateVolume] returns once its loops have ended. *)
Theorem sphere_point_count (options : ShapeOptions num) (fuel : nat)
    (rnd : nat → num) (c : nat) :
  let n := or_defaultZ (count options) 1000 in
  (count options = None ∨ count options = Some 0 → n = 1000)
  ∧ match generate options with
    | Ok ps => 0 < n ∧ len ps = 3 * n
    | Throw msg =>
        n < 0 ∧ msg = "RangeError: Invalid typed array length"%string
    end
  ∧ match generateVolume fuel rnd c options with
    | Some (Ok (ps, _)) => 0 < n ∧ len ps = 3 * n
    | Some (Throw msg) =>
        n < 0 ∧ msg = "RangeError: Invalid typed array length"%string
    | None => 0 < n
    end.
Proof.
  intros n.
  assert (Hn0 : n ≠ 0).
  { unfold n, or_defaultZ. destruct (count options) as [k|]; [|done].
    destruct (k =? 0) eqn:E; lia. }
  split.
  { intros [Hc|Hc]; unfold n; by rewrite Hc. }
  unfold generate, generateVolume. fold n. unfold new_Float32Array.
  destruct (n * 3 <? 0) eqn:E.
  { cbn. split; (split; [lia|done]). }
  set (zeros := replicate (Z.to_nat (n * 3)) (#0)%J).
  assert (Hz : len zeros = 3 * n).
  { unfold len, zeros. rewrite length_replicate. lia. }
  cbn [mbind outcome_bind]. split.
  - rewrite len_generate_loop. split; [lia|done].
  - destruct (foldl _ _ _) as [[ps c']|] eqn:Hrun; cbn [fmap option_fmap option_map].
    + apply len_generateVolume_loop in Hrun. split; [lia|congruence].
    + lia.
Qed.

End SphereCounts.

Section SpherePoles.
Import SphereGenerator.

(** X6. The Fibonacci sphere runs from pole to pole. For every
    [count >= 2], in exact arithmetic, point [i] has the height
    [(1 - 2i / (count - 1)) * (r || 1)]: the first point is the pole
    [(0, r, 0)], the last one the opposite pole [(0, -r, 0)], and the
    heights in between are evenly spaced. *)
Theorem sphere_poles_and_heights (n : Z) (r : R) :
  2 ≤ n →
  ∃ ps, generate (sphere_request n r) = Ok ps
    ∧ point ps 0 = (0, effective_radius r, 0)%R
    ∧ point ps (n - 1) = (0, - effective_radius r, 0)%R
    ∧ ∀ i, 0 ≤ i < n →
        (point ps i).1.2
        = ((1 - IZR i / IZR (n - 1) * 2) * effective_radius r)%R.
Proof.
  intros Hn.
  assert (Hc : or_defaultZ (Some n) 1000 = n).
  { unfold or_defaultZ. destruct (n =? 0) eqn:E; lia. }
  unfold generate, sphere_request, params_radius.
  cbn [count params radius]. rewrite Hc. fold (effective_radius r).
  unfold new_Float32Array. destruct (n * 3 <? 0) eqn:E; [lia|].
  set (zeros := replicate (Z.to_nat (n * 3)) (#0)%J).
  assert (Hz : len zeros = 3 * n).
  { unfold len, zeros. rewrite length_replicate. lia. }
  eexists. split; [reflexivity|]. fold (effective_radius r).
  destruct (fill3_spec (generate_step n (effective_radius r))
              _ _ _ n (3 * n) (λ a i _ _, eq_refl) (Z.to_nat n) zeros)
    as (_ & Hget & _); [lia..|].
  rewrite Z2Nat.id in Hget by lia.
  assert (Hd : IZR (n - 1) ≠ 0%R) by (apply not_0_IZR; lia).
  split; [|split].
  - rewrite Hget by lia. cbn [fround ofZ nadd nsub nmul ndiv nsqrt RNum].
    replace (1 - 0 / IZR (n - 1) * 2)%R with 1%R by (by field).
    replace (1 - 1 * 1)%R with 0%R by lra. rewrite sqrt_0.
    f_equal; [f_equal|]; lra.
  - rewrite Hget by lia. cbn [fround ofZ nadd nsub nmul ndiv nsqrt RNum].
    replace (1 - IZR (n - 1) / IZR (n - 1) * 2)%R with (-1)%R by (by field).
    replace (1 - -1 * -1)%R with 0%R by lra. rewrite sqrt_0.
    f_equal; [f_equal|]; lra.
  - intros i Hi. by rewrite Hget.
Qed.

Lemma sphere_poles_and_heights_witness :
  2 ≤ 100 ∧
  ∃ ps, generate (sphere_request 100 2%R) = Ok ps
    ∧ point ps 0 = (0, effective_radius 2, 0)%R
    ∧ point ps (100 - 1) = (0, - effective_radius 2, 0)%R
    ∧ ∀ i, 0 ≤ i < 100 →
        (point ps i).1.2
        = ((1 - IZR i / IZR (100 - 1) * 2) * effective_radius 2)%R.
Proof.
  split; [lia|]. apply (sphere_poles_and_heights 100 2%R). lia.
Defined.

End SpherePoles.

(** ** The loop of [update] *)

Section UpdateLoop.
Context {num : Type} `{JSNumber num}.
Import ParticleSystem.

(** An iteration writes the displaced original position of its particle
    into the position attribute and leaves the pointer, when there is
    one, in the scratch vector. *)
Lemma update_particle_displaced (w : Window num) (s : t num)
    (mousePosition : option (Vector2 num)) (camera : option (Camera num))
    (time : num) (σ : gmap nat (list num)) (miv : Vector3 num) (i : Z) :
  update_particle w s mousePosition camera time (σ, miv) i =
  (let '(x, y, z) :=
     displaced w s mousePosition camera time i
       (point (deref σ (positions (data s))) i) in
   setXYZ σ (position_attribute s) i x y z,
   default miv (pointer_in_world w s mousePosition camera)).
Proof.
  unfold update_particle, displaced, floated, pushed, pointer_in_world, point.
  destruct (flag (animated (options s)));
    destruct (flag (interactive (options s)));
    destruct mousePosition as [[mouseX mouseY]|];
    destruct camera as [camera|]; cbn [default]; try reflexivity;
    destruct (unproject camera _) as [[mx my] mz];
    destruct (_ <? _)%J; reflexivity.
Qed.

Lemma setXYZ_insert (σ : gmap nat (list num)) (r : ref)
    (a : Float32Array num) (i : Z) (x y z : num) :
  setXYZ (<[r := a]> σ) r i x y z =
  <[r := aset (aset (aset a (i * 3) x) (i * 3 + 1) y) (i * 3 + 2) z]> σ.
Proof.
  unfold setXYZ. by rewrite alter_insert_eq.
Qed.

(** The loop writes into the array of the position attribute and
    nowhere else. *)
Lemma update_loop_frame (w : Window num) (s : t num)
    (mousePosition : option (Vector2 num)) (camera : option (Camera num))
    (time : num) (l : list Z) (σ : gmap nat (list num)) (miv : Vector3 num)
    (r : ref) :
  r ≠ position_attribute s →
  (foldl (update_particle w s mousePosition camera time) (σ, miv) l).1 !! r
  = σ !! r.
Proof.
  intros Hr. revert σ miv. induction l as [|i l IH]; intros σ miv; [done|].
  cbn [foldl]. rewrite update_particle_displaced.
  destruct (displaced _ _ _ _ _ _ _) as [[x y] z].
  rewrite IH. unfold setXYZ. by rewrite lookup_alter_ne.
Qed.

(** The loop over the first [m] particles, when the array of the
    position attribute holds at least [m] points: particle [i] is given
    the displaced position of the point the array of [data.positions]
    held for it when the loop began; the points from [m] on are as they
    were. This holds also when the two arrays are one and the same. *)
Lemma update_loop_points (w : Window num) (s : t num)
    (mousePosition : option (Vector2 num)) (camera : option (Camera num))
    (time : num) (σ : gmap nat (list num)) (a : Float32Array num) :
  σ !! position_attribute s = Some a →
  ∀ (m : nat) (miv : Vector3 num),
    3 * Z.of_nat m ≤ len a →
    ∃ a' miv',
      foldl (update_particle w s mousePosition camera time) (σ, miv)
        (seqZ 0 (Z.of_nat m))
      = (<[position_attribute s := a']> σ, miv')
      ∧ len a' = len a
      ∧ (miv' =
         if decide (m = 0%nat) then miv
         else default miv (pointer_in_world w s mousePosition camera))
      ∧ (∀ i, Z.of_nat m ≤ i → point a' i = point a i)
      ∧ (∀ i, 0 ≤ i < Z.of_nat m →
           point a' i =
           let '(x, y, z) :=
             displaced w s mousePosition camera time i
               (point (deref σ (positions (data s))) i) in
           (fround x, fround y, fround z)).
Proof.
  intros Ha m miv. induction m as [|m IH]; intros Hm.
  - exists a, miv. cbn [seqZ foldl]. rewrite insert_id by done.
    split; [done|]. split; [done|]. split; [done|]. split; [done|].
    intros i Hi. lia.
  - destruct IH as (a1 & miv1 & Hrun & Hlen & Hmiv & Hrest & Hget); [lia|].
    rewrite seqZ_S, foldl_snoc, Hrun, Z.add_0_l, update_particle_displaced.
    assert (Horig :
      point (deref (<[position_attribute s := a1]> σ) (positions (data s)))
        (Z.of_nat m)
      = point (deref σ (positions (data s))) (Z.of_nat m)).
    { unfold deref.
      destruct (decide (positions (data s) = position_attribute s)) as [->|Hne].
      - rewrite lookup_insert_eq, Ha. cbn [default]. apply Hrest. lia.
      - by rewrite lookup_insert_ne. }
    rewrite Horig.
    destruct (displaced _ _ _ _ _ _ _) as [[x y] z] eqn:Hd.
    rewrite setXYZ_insert. eexists _, _. split; [reflexivity|].
    split; [by rewrite !len_aset|]. split.
    { rewrite Hmiv. destruct (decide (m = 0%nat)); [done|].
      by destruct (pointer_in_world _ _ _ _). }
    split.
    + intros i Hi. rewrite point_write3 by lia.
      destruct (decide (i = Z.of_nat m)) as [->|Hne]; [lia|].
      apply Hrest. lia.
    + intros i Hi. rewrite point_write3 by lia.
      destruct (decide (i = Z.of_nat m)) as [->|Hne].
      * by rewrite Hd.
      * apply Hget. lia.
Qed.

(** [update] keeps the data, the options and the attributes of the
    system, and writes to no array but that of the position attribute,
    whose length it keeps. *)
Lemma update_frame (w : Window num) (s : t num) (σ : gmap nat (list num))
    (deltaTime : num) (mousePosition : option (Vector2 num))
    (camera : option (Camera num)) :
  let out := update w s σ deltaTime mousePosition camera in
  data out.1 = data s ∧ options out.1 = options s
  ∧ position_attribute out.1 = position_attribute s
  ∧ color_attribute out.1 = color_attribute s
  ∧ aSize_attribute out.1 = aSize_attribute s
  ∧ connections out.1 = connections s
  ∧ ∀ r, r ≠ position_attribute s → out.2 !! r = σ !! r.
Proof.
  unfold update. destruct (_ && _); [done|].
  pose proof (update_loop_frame w s mousePosition camera
    (time s + deltaTime * or_default (animationSpeed (options s)) #1)%J
    (seqZ 0 (count (data s))) σ (mouseInfluenceVector s)) as Hframe.
  destruct (foldl _ _ _) as [σ' miv]. cbn [fst snd] in *.
  by repeat split.
Qed.

End UpdateLoop.

(** ** The state the constructor builds *)

Section ConstructedState.
Context {num : Type} `{JSNumber num}.
Import ParticleSystem.

Lemma alloc_fresh (σ σ' : gmap nat (list num)) (a : Float32Array num)
    (r : ref) :
  alloc σ a = (r, σ') → σ !! r = None.
Proof.
  unfold alloc. intros [= <- _]. apply not_elem_of_dom, is_fresh.
Qed.

(** The system a successful construction returns: its position
    attribute is a new array, a copy of [data.positions]; the colour and
    size attributes are the arrays of the data themselves; the arrays
    that existed are untouched; [3 * count] random numbers were drawn;
    the connections are those [initConnections] finds when [connected]
    is set. *)
Lemma constructor_state (rnd : nat → num) (c : nat) (σ : gmap nat (list num))
    (d : ParticleData) (o : ParticleOptions num) (s : t num)
    (σ' : gmap nat (list num)) (c' : nat) :
  valid_data σ d →
  constructor rnd c σ d o = Ok (s, σ', c') →
  data s = d ∧ options s = with_defaults o
  ∧ σ !! position_attribute s = None
  ∧ σ' !! position_attribute s = Some (deref σ (positions d))
  ∧ (∀ r, is_Some (σ !! r) → σ' !! r = σ !! r)
  ∧ color_attribute s = colors d ∧ aSize_attribute s = sizes d
  ∧ time s = (#0)%J
  ∧ c' = (c + Z.to_nat (count d * 3))%nat
  ∧ connections s =
    (if flag (connected o) then
       let positions :=
         connection_positions (deref σ (positions d)) (count d)
           (or_default (Some (default (#1)%J (connectionDistance o))) (#1)%J) in
       if 0 <? len positions then Some (Float32Array_from positions) else None
     else None).
Proof.
  intros (Hp & Hc & Hs).
  unfold constructor, initAnimationData.
  destruct (alloc σ (deref σ (positions d))) as [r1 σ1] eqn:Eσ1.
  pose proof (alloc_fresh _ _ _ _ Eσ1) as Hfresh.
  apply alloc_spec in Eσ1 as [Hr1 Hσ1].
  unfold new_Float32Array.
  destruct (count d * 3 <? 0) eqn:Ecount; [done|].
  cbn [mbind outcome_bind].
  set (vel := foldl _ _ _).
  destruct (alloc σ1 vel) as [r2 σ2] eqn:Eσ2.
  apply alloc_spec in Eσ2 as [Hr2 Hσ2].
  cbn [mbind outcome_bind].
  assert (Hkeep : ∀ r, is_Some (σ !! r) → σ2 !! r = σ !! r).
  { intros r Hr. rewrite Hσ2 by (by rewrite Hσ1). by apply Hσ1. }
  assert (Hattr : σ2 !! r1 = Some (deref σ (positions d))).
  { rewrite Hσ2 by (by rewrite Hr1). exact Hr1. }
  assert (Hpos : deref σ2 (positions d) = deref σ (positions d)).
  { unfold deref. by rewrite Hkeep. }
  destruct (initGeometry σ2 d) as [[]|msg]; [|done].
  cbn [mbind outcome_bind].
  assert (Hflag : flag (connected (with_defaults o)) = flag (connected o)).
  { done. }
  rewrite Hflag. unfold initConnections.
  cbn [options data connected with_defaults connectionDistance].
  change (flag (Some (default false (connected o))))
    with (flag (connected o)).
  rewrite Hpos.
  destruct (flag (connected o)); cbn [negb].
  - destruct (0 <? len _); intros [= <- <- <-]; by repeat split.
  - intros [= <- <- <-]. by repeat split.
Qed.

(** X7. Frames never write to the caller's arrays. After a successful
    construction, whatever the options and whatever the frames of the
    render loop pass to [update], the system keeps the data it was
    given, and the arrays [data.positions], [data.colors] and
    [data.sizes] hold what they held before the construction: every
    frame writes to the copy made for the position attribute, an array
    of the same length, and to nothing else. *)
Theorem frames_keep_particle_data (w : Window num) (rnd : nat → num)
    (c : nat) (σ : gmap nat (list num)) (d : ParticleData)
    (o : ParticleOptions num) (s : t num) (σ1 : gmap nat (list num))
    (c1 : nat)
    (frames : list (num * option (Vector2 num) * option (Camera num))) :
  valid_data σ d →
  constructor rnd c σ d o = Ok (s, σ1, c1) →
  let out := run_frames w (s, σ1) frames in
  getData out.1 = d
  ∧ position_attribute out.1 = position_attribute s
  ∧ position_attribute s ≠ positions d
  ∧ deref out.2 (positions d) = deref σ (positions d)
  ∧ deref out.2 (colors d) = deref σ (colors d)
  ∧ deref out.2 (sizes d) = deref σ (sizes d)
  ∧ (∀ r, is_Some (σ !! r) → out.2 !! r = σ !! r).
Proof.
  intros Hvalid Hnew.
  destruct (constructor_state _ _ _ _ _ _ _ _ Hvalid Hnew)
    as (Hd & _ & Hfresh & _ & Hkeep & _).
  destruct Hvalid as (Hp & Hc & Hs).
  assert (Hinv : ∀ st,
    data st.1 = d ∧ position_attribute st.1 = position_attribute s
    ∧ (∀ r, is_Some (σ !! r) → st.2 !! r = σ !! r) →
    let out := run_frames w st frames in
    data out.1 = d ∧ position_attribute out.1 = position_attribute s
    ∧ (∀ r, is_Some (σ !! r) → out.2 !! r = σ !! r)).
  { unfold run_frames. induction frames as [|[[dt m] cam] frames IH];
      intros st Hst; [done|].
    cbn [foldl]. apply IH.
    destruct Hst as (Hst1 & Hst2 & Hst3).
    destruct (update_frame w st.1 st.2 dt m cam)
      as (U1 & _ & U2 & _ & _ & _ & U3).
    split; [congruence|]. split; [congruence|].
    intros r Hr. rewrite U3; [by apply Hst3|].
    rewrite Hst2. intros ->. rewrite Hfresh in Hr. by destruct Hr. }
  destruct (Hinv (s, σ1)) as (I1 & I2 & I3); [done|].
  split; [done|]. split; [done|].
  split; [intros E; rewrite E in Hfresh; rewrite Hfresh in Hp; by destruct Hp|].
  unfold deref. rewrite !I3 by done. done.
Qed.

End ConstructedState.

Section ConstructedStateExample.
Import ParticleSystem.

Lemma frames_keep_particle_data_witness :
  let σ : gmap nat (list R) :=
    <[0%nat := [1%R; 2%R; 3%R]]>
      (<[1%nat := [1%R; 1%R; 1%R]]> (<[2%nat := [1%R]]> ∅)) in
  let d := {| originalPositions := 0%nat; positions := 0%nat;
              velocities := 0%nat; colors := 1%nat; sizes := 2%nat;
              count := 1 |} in
  let o : ParticleOptions R :=
    {| animated := Some true; animationSpeed := None;
       animationRadius := None; connected := None;
       connectionDistance := None; interactive := Some true;
       mouseInfluence := None; mouseRadius := None |} in
  let w : Window R := {| innerWidth := 800%R; innerHeight := 600%R |} in
  let frames :=
    [(1%R, Some (400%R, 300%R), Some {| unproject := λ v : Vector3 R, v |});
     (1%R, None, None)] in
  valid_data σ d ∧
  ∃ s σ1 c1,
    constructor (λ _, 0%R) 0 σ d o = Ok (s, σ1, c1)
    ∧ deref (run_frames w (s, σ1) frames).2 (positions d)
      = deref σ (positions d).
Proof.
  intros σ d o w frames.
  assert (Hvalid : valid_data σ d).
  { unfold valid_data, σ, d. cbn [positions colors sizes].
    rewrite lookup_insert_eq.
    rewrite lookup_insert_ne, lookup_insert_eq by done.
    rewrite !lookup_insert_ne, lookup_insert_eq by done. eauto. }
  split; [exact Hvalid|].
  destruct (constructor_ok (λ _, 0%R) 0 σ d o Hvalid)
    as (s & σ1 & c1 & Hnew); [by vm_compute..|].
  exists s, σ1, c1. split; [exact Hnew|].
  apply (frames_keep_particle_data w (λ _, 0%R) 0 σ d o s σ1 c1 frames
           Hvalid Hnew).
Defined.

End ConstructedStateExample.

(** ** One frame, in exact arithmetic *)

Section UpdateReal.
Import ParticleSystem.

(** An active [update] over an attribute array that holds every
    particle: the new array, point by point. *)
Lemma update_points (w : Window R) (s : t R) (σ : gmap nat (list R))
    (deltaTime : R) (mousePosition : option (Vector2 R))
    (camera : option (Camera R)) (a : Float32Array R) :
  flag (animated (options s)) || flag (interactive (options s)) = true →
  σ !! position_attribute s = Some a →
  3 * count (data s) ≤ len a →
  let t :=
    (time s + deltaTime * or_default (animationSpeed (options s)) 1)%R in
  ∃ a' miv',
    update w s σ deltaTime mousePosition camera
    = (set_time s t miv', <[position_attribute s := a']> σ)
    ∧ len a' = len a
    ∧ (0 < count (data s) →
       miv' = default (mouseInfluenceVector s)
                (pointer_in_world w s mousePosition camera))
    ∧ ∀ i, 0 ≤ i < count (data s) →
        point a' i =
        displaced w s mousePosition camera t i
          (point (deref σ (positions (data s))) i).
Proof.
  intros Hactive Ha Hlen t. unfold update.
  assert (Hgo : negb (flag (animated (options s)))
                && negb (flag (interactive (options s))) = false).
  { by destruct (flag (animated (options s))),
         (flag (interactive (options s))). }
  rewrite Hgo. pose proof (len_nonneg a) as Hnn.
  destruct (update_loop_points w s mousePosition camera t σ a Ha
              (Z.to_nat (count (data s))) (mouseInfluenceVector s))
    as (a' & miv' & Hrun & Hlen' & Hmiv & _ & Hget); [lia|].
  replace (seqZ 0 (Z.of_nat (Z.to_nat (count (data s)))))
    with (seqZ 0 (count (data s))) in Hrun.
  2:{ destruct (decide (0 ≤ count (data s))); [by rewrite Z2Nat.id|].
      by rewrite Z2Nat.nonpos, !seqZ_nil by lia. }
  change (time s + deltaTime * or_default (animationSpeed (options s)) #1)%J
    with t.
  rewrite Hrun. exists a', miv'. split; [done|]. split; [done|]. split.
  { intros Hc. rewrite Hmiv. destruct (decide _); [lia|done]. }
  intros i Hi. rewrite Hget by lia.
  by destruct (displaced _ _ _ _ _ _ _) as [[x y] z].
Qed.

Lemma floated_real (s : t R) (t : R) (i : Z) (p : Vector3 R) :
  flag (animated (options s)) = true →
  floated s t i p =
  vadd p
    (float_offset (or_default (animationRadius (options s)) (1 / 10)%R) t i).
Proof.
  intros Hanim. unfold floated, vadd, float_offset, dec.
  destruct p as [[x y] z]. by rewrite Hanim.
Qed.

(** X8. The floating animation. On an animated system that the pointer
    does not act on, a frame advances the time by
    [deltaTime * (animationSpeed || 1)] and gives particle [i] the
    position that [data.positions] holds for it plus the offset
    [(sin(t + 0.1 i) ρ, cos(t + 0.15 i) ρ / 2, sin(t + 0.2 i) 0.3 ρ)],
    with [ρ = animationRadius || 0.1]: every particle stays within
    [|ρ|], [|ρ| / 2] and [0.3 |ρ|] of that position along the three
    axes. A speed or a radius of 0 is replaced by its default. *)
Theorem animated_frame_floats_particles (w : Window R) (s : t R)
    (σ : gmap nat (list R)) (deltaTime : R)
    (mousePosition : option (Vector2 R)) (camera : option (Camera R))
    (a : Float32Array R) :
  flag (animated (options s)) = true →
  pointer_in_world w s mousePosition camera = None →
  σ !! position_attribute s = Some a →
  3 * count (data s) ≤ len a →
  let t :=
    (time s + deltaTime * or_default (animationSpeed (options s)) 1)%R in
  let ρ := or_default (animationRadius (options s)) (1 / 10)%R in
  ∃ s' a',
    update w s σ deltaTime mousePosition camera
    = (s', <[position_attribute s := a']> σ)
    ∧ time s' = t ∧ len a' = len a
    ∧ (animationSpeed (options s) = Some 0%R → t = (time s + deltaTime)%R)
    ∧ (animationRadius (options s) = Some 0%R → ρ = (1 / 10)%R)
    ∧ ∀ i, 0 ≤ i < count (data s) →
        let p := point (deref σ (positions (data s))) i in
        point a' i = vadd p (float_offset ρ t i)
        ∧ (let '(dx, dy, dz) := vsub (point a' i) p in
           Rabs dx <= Rabs ρ ∧ Rabs dy <= Rabs ρ / 2
           ∧ Rabs dz <= 3 / 10 * Rabs ρ)%R.
Proof.
  intros Hanim Hptr Ha Hlen t ρ.
  destruct (update_points w s σ deltaTime mousePosition camera a)
    as (a' & miv' & Hrun & Hlen' & _ & Hget);
    [by rewrite Hanim|done..|].
  fold t in Hrun, Hget. eexists _, a'. split; [exact Hrun|].
  split; [done|]. split; [done|]. split; [|split].
  { intros Hspeed. unfold t. rewrite Hspeed. cbn [or_default truthy RNum].
    destruct (Req_dec_T 0 0); [lra|done]. }
  { intros Hradius. unfold ρ. rewrite Hradius. cbn [or_default truthy RNum].
    by destruct (Req_dec_T 0 0). }
  intros i Hi p. rewrite (Hget i Hi). fold p.
  unfold displaced. rewrite Hptr, floated_real by done. fold ρ.
  split; [done|]. destruct p as [[x y] z].
  unfold vadd, vsub, float_offset.
  pose proof (SIN_bound (t + IZR i * (1 / 10))) as [S1 S2].
  pose proof (COS_bound (t + IZR i * (15 / 100))) as [C1 C2].
  pose proof (SIN_bound (t + IZR i * (2 / 10))) as [S3 S4].
  repeat split.
  - replace (x + sin (t + IZR i * (1 / 10)) * ρ - x)%R
      with (sin (t + IZR i * (1 / 10)) * ρ)%R by lra.
    rewrite Rabs_mult. rewrite <- (Rmult_1_l (Rabs ρ)) at 2.
    apply Rmult_le_compat_r; [apply Rabs_pos|]. apply Rabs_le. lra.
  - replace (y + cos (t + IZR i * (15 / 100)) * ρ * (1 / 2) - y)%R
      with (cos (t + IZR i * (15 / 100)) * (ρ * (1 / 2)))%R by lra.
    rewrite Rabs_mult.
    replace (Rabs ρ / 2)%R with (1 * Rabs (ρ * (1 / 2)))%R.
    + apply Rmult_le_compat_r; [apply Rabs_pos|]. apply Rabs_le. lra.
    + rewrite Rabs_mult, (Rabs_pos_eq (1 / 2)) by lra. lra.
  - replace (z + sin (t + IZR i * (2 / 10)) * ρ * (3 / 10) - z)%R
      with (sin (t + IZR i * (2 / 10)) * (ρ * (3 / 10)))%R by lra.
    rewrite Rabs_mult.
    replace (3 / 10 * Rabs ρ)%R with (1 * Rabs (ρ * (3 / 10)))%R.
    + apply Rmult_le_compat_r; [apply Rabs_pos|]. apply Rabs_le. lra.
    + rewrite Rabs_mult, (Rabs_pos_eq (3 / 10)) by lra. lra.
Qed.

Lemma animated_frame_floats_particles_witness :
  let σ : gmap nat (list R) := <[0%nat := [1; 2; 3]%R]> ∅ in
  let d := {| originalPositions := 0%nat; positions := 0%nat;
              velocities := 0%nat; colors := 1%nat; sizes := 2%nat;
              count := 1 |} in
  let o : ParticleOptions R :=
    {| animated := Some true; animationSpeed := Some 0%R;
       animationRadius := None; connected := None;
       connectionDistance := None; interactive := None;
       mouseInfluence := None; mouseRadius := None |} in
  let s : t R :=
    {| data := d; options := o; animatedPositions := 0%nat;
       velocities_buffer := 0%nat; time := 0%R;
       mouseInfluenceVector := (0, 0, 0)%R; position_attribute := 0%nat;
       color_attribute := 1%nat; aSize_attribute := 2%nat;
       connections := None |} in
  let w : Window R := {| innerWidth := 800%R; innerHeight := 600%R |} in
  flag (animated (options s)) = true
  ∧ pointer_in_world w s None None = None
  ∧ σ !! position_attribute s = Some [1; 2; 3]%R
  ∧ 3 * count (data s) ≤ len [1; 2; 3]%R
  ∧ ∃ s' a',
      update w s σ 1%R None None = (s', <[position_attribute s := a']> σ)
      ∧ time s' = (0 + 1 * or_default (Some 0) 1)%R.
Proof.
  intros σ d o s w.
  assert (H1 : flag (animated (options s)) = true) by reflexivity.
  assert (H2 : pointer_in_world w s None None = None) by reflexivity.
  assert (H3 : σ !! position_attribute s = Some [1; 2; 3]%R).
  { apply lookup_insert_eq. }
  assert (H4 : 3 * count (data s) ≤ len [1; 2; 3]%R) by (by vm_compute).
  split; [exact H1|]. split; [exact H2|]. split; [exact H3|].
  split; [exact H4|].
  destruct (animated_frame_floats_particles w s σ 1%R None None
              [1; 2; 3]%R H1 H2 H3 H4) as (s' & a' & Hrun & Ht & _).
  by exists s', a'.
Defined.

(** X9. [updatePositions] makes the frames overwrite the data. After
    [updatePositions(r)] the data and the position attribute name the
    one array [r], so an animated frame writes the displaced positions
    into [data.positions] itself: the positions that were passed are not
    kept, and the next frame adds its offset to the already displaced
    ones. *)
Theorem updatePositions_lets_frames_overwrite_data (w : Window R) (s : t R)
    (σ : gmap nat (list R)) (r : ref) (a : Float32Array R)
    (dt1 dt2 : R) (mousePosition : option (Vector2 R))
    (camera : option (Camera R)) :
  flag (animated (options s)) = true →
  flag (interactive (options s)) = false →
  σ !! r = Some a →
  3 * count (data s) ≤ len a →
  let ρ := or_default (animationRadius (options s)) (1 / 10)%R in
  let speed := or_default (animationSpeed (options s)) 1%R in
  let t1 := (time s + dt1 * speed)%R in
  let t2 := (t1 + dt2 * speed)%R in
  let st1 := update w (updatePositions s r) σ dt1 mousePosition camera in
  let st2 := update w st1.1 st1.2 dt2 mousePosition camera in
  positions (getData st1.1) = r ∧ positions (getData st2.1) = r
  ∧ ∀ i, 0 ≤ i < count (data s) →
      point (deref st1.2 (positions (getData st1.1))) i
      = vadd (point a i) (float_offset ρ t1 i)
      ∧ point (deref st2.2 (positions (getData st2.1))) i
        = vadd (vadd (point a i) (float_offset ρ t1 i)) (float_offset ρ t2 i).
Proof.
  intros Hanim Hint Ha Hlen ρ speed t1 t2.
  set (s0 := updatePositions s r).
  assert (Hptr : ∀ s', options s' = options s →
            pointer_in_world w s' mousePosition camera = None).
  { intros s' Ho. unfold pointer_in_world. by rewrite Ho, Hint. }
  destruct (update_points w s0 σ dt1 mousePosition camera a)
    as (a1 & miv1 & Hrun1 & Hlen1 & _ & Hget1);
    [by cbn; rewrite Hanim|done..|].
  cbn zeta. rewrite Hrun1. cbn [fst snd].
  set (s1 := set_time s0 _ miv1).
  destruct (update_points w s1 (<[r := a1]> σ) dt2 mousePosition camera a1)
    as (a2 & miv2 & Hrun2 & Hlen2 & _ & Hget2);
    [by cbn; rewrite Hanim|apply lookup_insert_eq|cbn; lia|].
  change (position_attribute s0) with r in *.
  rewrite Hrun2. cbn [fst snd]. split; [done|]. split; [done|].
  intros i Hi. cbn [getData data set_time positions s0 s1 updatePositions
                      set_buffers set_data].
  change (position_attribute s1) with r in *.
  unfold deref. rewrite insert_insert_eq, !lookup_insert_eq. cbn [default].
  specialize (Hget1 i Hi). specialize (Hget2 i Hi).
  unfold displaced in Hget1, Hget2.
  rewrite Hptr, floated_real in Hget1, Hget2 by done.
  cbn [getData data set_time positions s0 s1 updatePositions
         set_buffers set_data time options] in Hget1, Hget2.
  unfold deref in Hget1, Hget2.
  rewrite lookup_insert_eq in Hget2. rewrite Ha in Hget1.
  cbn [default] in Hget1, Hget2. cbv [Datatypes.id] in *.
  rewrite Hget2, Hget1. done.
Qed.

Lemma updatePositions_lets_frames_overwrite_data_witness :
  let σ : gmap nat (list R) :=
    <[0%nat := [1; 2; 3]%R]> (<[5%nat := [4; 5; 6]%R]> ∅) in
  let d := {| originalPositions := 0%nat; positions := 0%nat;
              velocities := 0%nat; colors := 1%nat; sizes := 2%nat;
              count := 1 |} in
  let o : ParticleOptions R :=
    {| animated := Some true; animationSpeed := None;
       animationRadius := None; connected := None;
       connectionDistance := None; interactive := Some false;
       mouseInfluence := None; mouseRadius := None |} in
  let s : t R :=
    {| data := d; options := o; animatedPositions := 3%nat;
       velocities_buffer := 4%nat; time := 0%R;
       mouseInfluenceVector := (0, 0, 0)%R; position_attribute := 3%nat;
       color_attribute := 1%nat; aSize_attribute := 2%nat;
       connections := None |} in
  let w : Window R := {| innerWidth := 800%R; innerHeight := 600%R |} in
  flag (animated (options s)) = true
  ∧ flag (interactive (options s)) = false
  ∧ σ !! 5%nat = Some [4; 5; 6]%R
  ∧ 3 * count (data s) ≤ len [4; 5; 6]%R
  ∧ positions (getData (update w (updatePositions s 5%nat) σ 1%R None None).1)
    = 5%nat.
Proof.
  intros σ d o s w.
  assert (H1 : flag (animated (options s)) = true) by reflexivity.
  assert (H2 : flag (interactive (options s)) = false) by reflexivity.
  assert (H3 : σ !! 5%nat = Some [4; 5; 6]%R).
  { unfold σ. by rewrite lookup_insert_ne, lookup_insert_eq. }
  assert (H4 : 3 * count (data s) ≤ len [4; 5; 6]%R) by (by vm_compute).
  split; [exact H1|]. split; [exact H2|]. split; [exact H3|].
  split; [exact H4|].
  apply (updatePositions_lets_frames_overwrite_data w s σ 5%nat
           [4; 5; 6]%R 1%R 1%R None None H1 H2 H3 H4).
Defined.

Lemma pushed_distance (s : t R) (m p : Vector3 R) :
  pushed s m p =
  let d := euclid m p in
  let radius := or_default (mouseRadius (options s)) 2%R in
  let force :=
    ((1 - d / radius) * or_default (mouseInfluence (options s)) 1
     * (1 / 10))%R in
  if Rlt_dec d radius then
    let '(x, y, z) := p in
    let '(mx, my, mz) := m in
    ((x + (x - mx) / d * force)%R, (y + (y - my) / d * force)%R,
     (z + (z - mz) / d * force)%R)
  else p.
Proof.
  destruct p as [[x y] z], m as [[mx my] mz].
  unfold pushed, euclid, pow2, dec, Rsqr.
  cbn [nltb nsqrt nadd nsub nmul ndiv ofZ RNum].
  by destruct (Rlt_dec _ _).
Qed.

(** X10. The pointer pushes particles radially. On an interactive
    system that is not animated, with the pointer at [m] in world
    coordinates and [d] the distance of a particle's position from [m]:
    a particle at distance [d >= mouseRadius] is drawn where it is; a
    particle at distance [0 < d < mouseRadius] is moved along the ray
    from [m] through it, by [force = (1 - d / mouseRadius) *
    mouseInfluence * 0.1], so that its distance from the pointer becomes
    [d + force] when [mouseInfluence] is not negative. The scratch
    vector of the system ends as [m]. *)
Theorem pointer_pushes_particles_radially (w : Window R) (s : t R)
    (σ : gmap nat (list R)) (deltaTime mouseX mouseY : R) (camera : Camera R)
    (a : Float32Array R) :
  flag (animated (options s)) = false →
  flag (interactive (options s)) = true →
  σ !! position_attribute s = Some a →
  3 * count (data s) ≤ len a →
  let m :=
    unproject camera
      ((mouseX / innerWidth w * 2 - 1)%R,
       (- (mouseY / innerHeight w) * 2 + 1)%R, (1 / 2)%R) in
  let radius := or_default (mouseRadius (options s)) 2%R in
  let influence := or_default (mouseInfluence (options s)) 1%R in
  ∃ s' a',
    update w s σ deltaTime (Some (mouseX, mouseY)) (Some camera)
    = (s', <[position_attribute s := a']> σ)
    ∧ len a' = len a
    ∧ (0 < count (data s) → mouseInfluenceVector s' = m)
    ∧ ∀ i, 0 ≤ i < count (data s) →
        let p := point (deref σ (positions (data s))) i in
        let d := euclid m p in
        let force := ((1 - d / radius) * influence * (1 / 10))%R in
        ((radius <= d)%R → point a' i = p)
        ∧ ((0 < d < radius)%R →
           point a' i = vadd p (vscale (force / d) (vsub p m))
           ∧ ((0 <= influence)%R → euclid m (point a' i) = (d + force)%R)).
Proof.
  intros Hanim Hint Ha Hlen m radius influence.
  destruct (update_points w s σ deltaTime (Some (mouseX, mouseY))
              (Some camera) a) as (a' & miv' & Hrun & Hlen' & Hmiv & Hget);
    [by rewrite Hint, orb_true_r|done..|].
  assert (Hptr : pointer_in_world w s (Some (mouseX, mouseY)) (Some camera)
                 = Some m).
  { unfold pointer_in_world. by rewrite Hint. }
  eexists _, a'. split; [exact Hrun|]. split; [done|]. split.
  { intros Hc. cbn [mouseInfluenceVector set_time]. rewrite Hmiv by done.
    by rewrite Hptr. }
  intros i Hi p d force. rewrite (Hget i Hi). fold p.
  unfold displaced, floated. rewrite Hptr, Hanim.
  replace (let '(originalX, originalY, originalZ) := p in
           (originalX, originalY, originalZ)) with p
    by (by destruct p as [[x y] z]).
  rewrite pushed_distance. cbn zeta. fold radius influence d force.
  destruct (Rlt_dec d radius) as [Hnear|Hfar].
  - split; [intros Hd; lra|]. intros [Hd0 _].
    destruct p as [[x y] z] eqn:Hp, m as [[mx my] mz] eqn:Hm.
    assert (Hvec : ((x + (x - mx) / d * force)%R,
                    (y + (y - my) / d * force)%R,
                    (z + (z - mz) / d * force)%R)
                   = vadd (x, y, z) (vscale (force / d)
                                       (vsub (x, y, z) (mx, my, mz)))).
    { unfold vadd, vscale, vsub. f_equal; [f_equal|]; field; lra. }
    split; [exact Hvec|]. intros Hinf.
    assert (Hforce : (0 <= force)%R).
    { unfold force. assert (d / radius < 1)%R.
      { apply (Rmult_lt_reg_r radius); [lra|]. unfold Rdiv.
        rewrite Rmult_assoc, Rinv_l by lra. lra. }
      apply Rmult_le_pos; [apply Rmult_le_pos|]; lra. }
    assert (Hsq : ((x - mx)² + (y - my)² + (z - mz)² = d * d)%R).
    { unfold d, euclid. rewrite sqrt_sqrt; [done|].
      repeat apply Rplus_le_le_0_compat; apply Rle_0_sqr. }
    unfold euclid at 1.
    replace ((x + (x - mx) / d * force - mx)²
             + (y + (y - my) / d * force - my)²
             + (z + (z - mz) / d * force - mz)²)%R
      with ((d + force) * (d + force))%R.
    + apply sqrt_square. lra.
    + transitivity
        (((x - mx)² + (y - my)² + (z - mz)²) * ((1 + force / d) * (1 + force / d)))%R.
      * rewrite Hsq. field. lra.
      * unfold Rsqr. field. lra.
  - split; [done|]. intros [_ Hd]. lra.
Qed.

Lemma pointer_pushes_particles_radially_witness :
  let σ : gmap nat (list R) := <[0%nat := [1; 2; 3]%R]> ∅ in
  let d := {| originalPositions := 0%nat; positions := 0%nat;
              velocities := 0%nat; colors := 1%nat; sizes := 2%nat;
              count := 1 |} in
  let o : ParticleOptions R :=
    {| animated := None; animationSpeed := None;
       animationRadius := None; connected := None;
       connectionDistance := None; interactive := Some true;
       mouseInfluence := None; mouseRadius := None |} in
  let s : t R :=
    {| data := d; options := o; animatedPositions := 0%nat;
       velocities_buffer := 0%nat; time := 0%R;
       mouseInfluenceVector := (0, 0, 0)%R; position_attribute := 0%nat;
       color_attribute := 1%nat; aSize_attribute := 2%nat;
       connections := None |} in
  let w : Window R := {| innerWidth := 800%R; innerHeight := 600%R |} in
  let camera : Camera R := {| unproject := λ v, v |} in
  flag (animated (options s)) = false
  ∧ flag (interactive (options s)) = true
  ∧ σ !! position_attribute s = Some [1; 2; 3]%R
  ∧ 3 * count (data s) ≤ len [1; 2; 3]%R
  ∧ ∃ s' a',
      update w s σ 1%R (Some (400, 300)%R) (Some camera)
      = (s', <[position_attribute s := a']> σ)
      ∧ len a' = len [1; 2; 3]%R.
Proof.
  intros σ d o s w camera.
  assert (H1 : flag (animated (options s)) = false) by reflexivity.
  assert (H2 : flag (interactive (options s)) = true) by reflexivity.
  assert (H3 : σ !! position_attribute s = Some [1; 2; 3]%R).
  { apply lookup_insert_eq. }
  assert (H4 : 3 * count (data s) ≤ len [1; 2; 3]%R) by (by vm_compute).
  split; [exact H1|]. split; [exact H2|]. split; [exact H3|].
  split; [exact H4|].
  destruct (pointer_pushes_particles_radially w s σ 1%R 400%R 300%R camera
              [1; 2; 3]%R H1 H2 H3 H4) as (s' & a' & Hrun & Hlen & _).
  by exists s', a'.
Defined.

End UpdateReal.

(** ** What a constructed system gives the scene *)

Section Renderables.
Import ParticleSystem.



End Renderables.

(** ** Loading a model: the URL check, the cache and [generate] *)

Section ModelUrl.
Import ModelGenerator.

Lemma startsWith_spec (s searchString : string) :
  startsWith s searchString = true ↔ ∃ after, s = searchString +:+ after.
Proof.
  revert s. induction searchString as [|a p IH]; intros s.
  - destruct s; cbn; split; eauto.
  - destruct s as [|b s]; cbn.
    + split; [done|]. by intros (after & [=]).
    + rewrite andb_true_iff, bool_decide_eq_true, IH. split.
      * intros (-> & after & ->). by exists after.
      * intros (after & [= -> ->]). eauto.
Qed.

Lemma includes_spec (s searchString : string) :
  includes s searchString = true ↔
  ∃ before after, s = before +:+ searchString +:+ after.
Proof.
  split.
  - induction s as [|c s IH]; cbn [includes]; rewrite orb_true_iff.
    + intros [Hs|]; [|done]. apply startsWith_spec in Hs as (after & ->).
      by exists EmptyString, after.
    + intros [Hs|Hs].
      * apply startsWith_spec in Hs as (after & ->).
        by exists EmptyString, after.
      * destruct (IH Hs) as (before & after & ->).
        by exists (String c before), after.
  - intros (before & after & ->).
    induction before as [|c before IH].
    + change ("" +:+ searchString +:+ after) with (searchString +:+ after).
      assert (Hs : startsWith (searchString +:+ after) searchString = true).
      { apply startsWith_spec. eauto. }
      revert Hs. generalize (searchString +:+ after). intros s Hs.
      destruct s; cbn [includes]; by rewrite Hs.
    + change (String c before +:+ searchString +:+ after)
        with (String c (before +:+ searchString +:+ after)).
      cbn [includes]. by rewrite IH, orb_true_r.
Qed.

Lemma toLowerCase_app (s1 s2 : string) :
  toLowerCase (s1 +:+ s2) = toLowerCase s1 +:+ toLowerCase s2.
Proof.
  induction s1 as [|c s1 IH]; [done|].
  change (String c s1 +:+ s2) with (String c (s1 +:+ s2)).
  cbn [toLowerCase]. by rewrite IH.
Qed.

(** X12. Which URLs pass the format check. A URL is accepted exactly
    when its lower-case form contains '.gltf' or '.glb' somewhere: the
    letters may be in any case, and the format need not be the
    extension at the end of the path, it may stand anywhere in the
    URL. *)
Theorem isValidModelUrl_spec (url : string) :
  (isValidModelUrl url = true ↔
   ∃ before after,
     toLowerCase url = before +:+ ".gltf" +:+ after
     ∨ toLowerCase url = before +:+ ".glb" +:+ after)
  ∧ (∀ before format after,
       toLowerCase format = ".gltf" ∨ toLowerCase format = ".glb" →
       isValidModelUrl (before +:+ format +:+ after) = true).
Proof.
  assert (Hspec : ∀ url, isValidModelUrl url = true ↔
            ∃ before after,
              toLowerCase url = before +:+ ".gltf" +:+ after
              ∨ toLowerCase url = before +:+ ".glb" +:+ after).
  { intros u. unfold isValidModelUrl, supportedFormats. cbn [existsb].
    rewrite orb_false_r, orb_true_iff, !includes_spec. split.
    - intros [(b & a & E)|(b & a & E)]; exists b, a; eauto.
    - intros (b & a & [E|E]); eauto. }
  split; [apply Hspec|].
  intros before format after Hformat. apply Hspec.
  exists (toLowerCase before), (toLowerCase after).
  rewrite !toLowerCase_app. destruct Hformat as [-> | ->]; eauto.
Qed.

End ModelUrl.

Section ModelLoading.
Context {num : Type} `{JSNumber num}.
Import ModelGenerator.

Lemma extract_loop_past_end (positionAttribute : list (Vector3 num))
    (matrix : Vector3 num → Vector3 num) (scale : num)
    (samplingStep : positive) (i : Z) (vertices : list num) :
  len positionAttribute ≤ i →
  extract_loop positionAttribute matrix scale samplingStep i vertices
  = vertices.
Proof.
  funelim (extract_loop positionAttribute matrix scale samplingStep i vertices);
    intros Hle; [lia|done].
Qed.

Lemma count_vertices_le (scene : Scene num) (acc : Z) :
  acc ≤ foldl count_vertices acc scene.
Proof.
  revert acc. induction scene as [|child scene IH]; intros acc; [done|].
  cbn [foldl]. etrans; [|apply IH].
  destruct child as [m|]; cbn [count_vertices]; [|done].
  destruct (position m) as [pa|]; [|done]. pose proof (len_nonneg pa). lia.
Qed.

(** A scene without vertices: nothing is extracted from it. *)
Lemma no_vertices_nothing_extracted (scale : num) (samplingStep : positive)
    (scene : Scene num) (acc : Z) (vertices : list num) :
  foldl count_vertices acc scene = acc →
  foldl (extract_child scale samplingStep) vertices scene = vertices.
Proof.
  revert acc vertices. induction scene as [|child scene IH];
    intros acc vertices Hacc; [done|].
  cbn [foldl] in *.
  pose proof (count_vertices_le scene (count_vertices acc child)) as Hle.
  assert (Hchild : count_vertices acc child = acc
                   ∧ extract_child scale samplingStep vertices child = vertices).
  { destruct child as [m|]; cbn [count_vertices extract_child] in *; [|done].
    destruct (position m) as [pa|]; [|done].
    pose proof (len_nonneg pa). split; [lia|].
    apply extract_loop_past_end. lia. }
  destruct Hchild as [Hc ->]. rewrite Hc in Hacc. by apply (IH acc).
Qed.

(** With nothing to copy from, the upsampling loop leaves the buffer as
    it is; it still draws its random number at every index. *)
Lemma forM_upsample_nothing (rnd : nat → num) (a : Float32Array num)
    (l : list Z) (b : Float32Array num) (w : world) :
  forM (upsample_step rnd a 0) b l w =
  (Ok b, {| console := console w; cursor := (cursor w + length l)%nat |}).
Proof.
  revert w. induction l as [|i l IH]; intros w.
  - cbn [forM length]. unfold mret, M_ret. destruct w as [cs c].
    cbn [console cursor]. by rewrite Nat.add_0_r.
  - cbn [forM]. unfold mbind at 1, M_bind.
    unfold upsample_step at 1, mbind, M_bind, random. cbn [Z.eqb].
    unfold mret at 1, M_ret. rewrite IH. cbn [console cursor length].
    by rewrite Nat.add_succ_r.
Qed.

Lemma resampleVertices_of_nothing (rnd : nat → num) (targetCount : Z)
    (w : world) :
  0 < targetCount →
  let k := Z.min targetCount maxParticles in
  ∃ w',
    resampleVertices rnd [] targetCount w
    = (Ok (replicate (Z.to_nat (k * 3)) (#0)%J), w')
    ∧ cursor w' = (cursor w + Z.to_nat k)%nat.
Proof.
  intros Htarget k.
  assert (Hk : 0 < k ≤ 1000) by (unfold k, maxParticles; lia).
  unfold resampleVertices. fold k. change (len (@nil num) / 3) with 0.
  destruct (50000 <? k * 3) eqn:E1; [lia|].
  unfold new_Float32Array. destruct (k * 3 <? 0) eqn:E2; [lia|].
  destruct (k <=? 0) eqn:E3; [lia|].
  unfold mbind, M_bind, print. cbn [console cursor].
  rewrite forM_upsample_nothing. cbn [console cursor]. rewrite length_seqZ.
  destruct (k <? targetCount); unfold mret, M_ret; cbn [console cursor];
    by eexists.
Qed.

(** The two outcomes of [extractVertices]. *)
Lemma extractVertices_outcome (rnd : nat → num) (scene : Scene num)
    (options : ModelOptions num) (w : world) :
  let k := len (extracted scene options) / 3 in
  let requested :=
    match particleCount options with
    | Some n => if n =? 0 then k else Z.min n maxVertices
    | None => k
    end in
  len (extracted scene options) = 3 * k ∧ 0 ≤ k ≤ maxVertices ∧
  ((∃ n w', particleCount options = Some n ∧ n < 0
      ∧ extractVertices rnd scene options w
        = (Throw "Array creation failed", w'))
   ∨ ((∀ n, particleCount options = Some n → 0 ≤ n)
      ∧ ∃ buf w',
          extractVertices rnd scene options w = (Ok buf, w')
          ∧ len buf =
            3 * (if requested =? k then k else Z.min requested maxParticles))).
Proof.
  intros k requested.
  destruct (extractVertices_run rnd scene options w) as (Hmod & Hk & ->).
  fold (extracted scene options) in Hmod, Hk |- *. fold k in Hk |- *.
  fold requested.
  assert (Hlen : len (Float32Array_from (extracted scene options)) = 3 * k).
  { rewrite len_Float32Array_from. unfold k.
    apply Z.mod_divide in Hmod as [q ->]; [|done]. rewrite Z.div_mul; lia. }
  split; [by rewrite <- Hlen, len_Float32Array_from|]. split; [done|].
  destruct (requested =? k) eqn:E; cbn [negb].
  - right. split; [|by eexists _, _].
    intros n Hn. unfold requested in E. rewrite Hn in E.
    destruct (n =? 0) eqn:E0; [lia|]. unfold maxVertices in *. lia.
  - destruct (decide (requested < 0)) as [Hneg|Hpos].
    + left. unfold requested in Hneg, E |- *.
      destruct (particleCount options) as [n|]; [|lia].
      destruct (n =? 0) eqn:E0; [lia|].
      rewrite Z.min_l in * by (unfold maxVertices; lia).
      rewrite resampleVertices_negative by done. by eexists _, _.
    + right. split.
      * intros n Hn. unfold requested in Hpos. rewrite Hn in Hpos.
        destruct (n =? 0) eqn:E0; [lia|]. unfold maxVertices in *. lia.
      * edestruct (resampleVertices_run rnd) as (b & -> & Hb & _); [|by eauto].
        lia.
Qed.

(** [generate] once it has the scene, from the cache or from the
    loader: the scene is in the cache from then on, whatever the size of
    the cache, and the positions are extracted from it. *)
Lemma generate_try_scene (rnd : nat → num) (loader : Loader num)
    (options : ModelOptions num) (st : session num) (scene : Scene num) :
  modelCache st !! url options = Some scene
  ∨ (modelCache st !! url options = None
     ∧ (loader (url options)).2 = Ok scene) →
  ∃ st1,
    random_cursor st1 = random_cursor st
    ∧ (∃ lines, printed st1 = printed st ++ lines)
    ∧ modelCache st1 = <[url options := scene]> (modelCache st)
    ∧ generate_try rnd loader options st =
      match extract_in_session rnd scene options st1 with
      | (Ok positions, st2) =>
          if len positions =? 0
          then (Throw "No vertices found in the model", st2)
          else (Ok positions, st2)
      | (Throw error, st2) => (Throw error, st2)
      end.
Proof.
  intros [Hhit|[Hmiss Hload]]; unfold generate_try.
  - rewrite Hhit. exists st. split; [done|]. split.
    { exists []. by rewrite app_nil_r. }
    split; [by rewrite insert_id|done].
  - rewrite Hmiss. unfold loadModel. rewrite Hmiss.
    destruct (loader (url options)) as [progress result].
    cbn [snd] in Hload. subst result.
    set (st0 := log st _).
    destruct (size (modelCache (cache_set st0 (url options) scene)) <? 10)%nat.
    + eexists. split; [|split; [|split; [|reflexivity]]].
      * done.
      * by eexists.
      * cbn [modelCache cache_set st0 log]. by rewrite insert_insert_eq.
    + eexists. split; [|split; [|split; [|reflexivity]]].
      * done.
      * by eexists.
      * done.
Qed.

Lemma extract_in_session_frame (rnd : nat → num) (scene : Scene num)
    (options : ModelOptions num) (st : session num) :
  let out := extract_in_session rnd scene options st in
  modelCache out.2 = modelCache st
  ∧ (∃ lines, printed out.2 = printed st ++ lines)
  ∧ out.1 =
    (extractVertices rnd scene options
       {| console := []; cursor := random_cursor st |}).1
  ∧ random_cursor out.2 =
    cursor (extractVertices rnd scene options
              {| console := []; cursor := random_cursor st |}).2.
Proof.
  unfold extract_in_session. destruct (extractVertices _ _ _ _) as [r w].
  cbn [fst snd modelCache printed random_cursor]. by eauto.
Qed.

(** X13. The outcomes of [generate]. A buffer that [generate] returns
    is never empty: it holds a whole number of points, at least one and
    at most 15000, and the scene is in the cache. An exception is one of
    four: the URL was rejected (nothing was printed, loaded or cached);
    the loader failed (its error is thrown again, the cache is as
    before); [particleCount] is negative ('Array creation failed'); or
    nothing was extracted and no count was requested ('No vertices found
    in the model'). In the last three the error line is the last line
    printed. *)
Theorem generate_outcomes (rnd : nat → num) (loader : Loader num)
    (options : ModelOptions num) (st : session num) :
  match generate rnd loader options st with
  | (Ok positions, st') =>
      isValidModelUrl (url options) = true
      ∧ 0 < len positions ∧ len positions `mod` 3 = 0
      ∧ len positions / 3 ≤ maxVertices
      ∧ is_Some (modelCache st' !! url options)
  | (Throw error, st') =>
      (isValidModelUrl (url options) = false
       ∧ error = "Invalid model URL or unsupported format: " +:+ url options
       ∧ st' = st)
      ∨ (isValidModelUrl (url options) = true
         ∧ (∃ lines,
              printed st' = printed st ++ lines ++ [ErrorFailedToGenerate error])
         ∧ ((modelCache st !! url options = None
             ∧ (loader (url options)).2 = Throw error
             ∧ modelCache st' = modelCache st)
            ∨ (error = "Array creation failed"
               ∧ ∃ n, particleCount options = Some n ∧ n < 0)
            ∨ (error = "No vertices found in the model"
               ∧ (particleCount options = None
                  ∨ particleCount options = Some 0)
               ∧ ∃ scene,
                   modelCache st' !! url options = Some scene
                   ∧ extracted scene options = [])))
  end.
Proof.
  unfold generate. destruct (isValidModelUrl (url options)) eqn:Hvalid;
    cbn [negb]; [|by left].
  assert (Hscene :
    (∃ scene, modelCache st !! url options = Some scene
              ∨ (modelCache st !! url options = None
                 ∧ (loader (url options)).2 = Ok scene))
    ∨ (∃ error, modelCache st !! url options = None
                ∧ (loader (url options)).2 = Throw error)).
  { destruct (modelCache st !! url options) as [scene|]; [by eauto|].
    destruct (loader (url options)) as [progress [scene|error]]; by eauto. }
  destruct Hscene as [[scene Hscene]|(error & Hmiss & Hload)].
  - destruct (generate_try_scene rnd loader options st scene Hscene)
      as (st1 & Hc1 & [lines1 Hp1] & Hm1 & ->).
    destruct (extract_in_session_frame rnd scene options st1)
      as (Hm2 & [lines2 Hp2] & Hout & _).
    destruct (extractVertices_outcome rnd scene options
                {| console := []; cursor := random_cursor st1 |})
      as (Hlen & Hk & Hcases).
    destruct (extract_in_session rnd scene options st1) as [result st2].
    cbn [fst snd] in Hm2, Hp2, Hout.
    assert (Hcached : modelCache st2 !! url options = Some scene).
    { by rewrite Hm2, Hm1, lookup_insert_eq. }
    destruct Hcases as [(n & w' & Hn & Hneg & Hrun)
                       |(Hnonneg & buf & w' & Hrun & Hbuf)];
      rewrite Hrun in Hout; cbn [fst] in Hout; subst result.
    + right. split; [done|]. split.
      { exists (lines1 ++ lines2). cbn [printed log].
        by rewrite Hp2, Hp1, <- !app_assoc. }
      right. left. by eauto.
    + set (k := len (extracted scene options) / 3) in *.
      set (requested := match particleCount options with
                        | Some n => _ | None => _ end) in *.
      destruct (len buf =? 0) eqn:E0.
      * right. split; [done|]. split.
        { exists (lines1 ++ lines2). cbn [printed log].
          by rewrite Hp2, Hp1, <- !app_assoc. }
        right. right. split; [done|].
        assert (Hreq : requested = k ∧ k = 0).
        { destruct (requested =? k) eqn:E; [lia|].
          unfold requested in *.
          destruct (particleCount options) as [n|]; [|lia].
          specialize (Hnonneg n eq_refl).
          destruct (n =? 0) eqn:En; unfold maxVertices, maxParticles in *;
            lia. }
        destruct Hreq as [Hreq Hk0]. split.
        { unfold requested in Hreq.
          destruct (particleCount options) as [n|]; [|by left].
          right. f_equal. specialize (Hnonneg n eq_refl).
          destruct (n =? 0) eqn:En; unfold maxVertices in *; lia. }
        exists scene. split; [done|].
        destruct (extracted scene options); [done|].
        unfold len in Hlen. cbn [length] in Hlen. lia.
      * pose proof (len_nonneg buf).
        split; [done|]. split; [lia|]. split.
        { rewrite Hbuf, Z.mul_comm. apply Z.mod_mul. lia. }
        split; [|by rewrite Hcached].
        rewrite Hbuf, Z.mul_comm, Z.div_mul by lia.
        destruct (requested =? k); unfold maxVertices, maxParticles in *; lia.
  - unfold generate_try, loadModel. rewrite Hmiss.
    destruct (loader (url options)) as [progress result].
    cbn [snd] in Hload. subst result.
    right. split; [done|]. split.
    { eexists. cbn [printed log]. by rewrite <- app_assoc. }
    by left.
Qed.


(** X15. The model cache has no limit. After a successful load the
    scene is cached under its URL even when the cache already holds ten
    models or more, so the cache grows by one entry with every new URL;
    and once a URL is cached, [generate] no longer consults the
    loader. *)
Theorem model_cache_grows_without_limit (rnd : nat → num)
    (loader : Loader num) (options : ModelOptions num) (st : session num)
    (scene : Scene num) :
  isValidModelUrl (url options) = true →
  modelCache st !! url options = None →
  (loader (url options)).2 = Ok scene →
  let st' := (generate rnd loader options st).2 in
  modelCache st' = <[url options := scene]> (modelCache st)
  ∧ size (modelCache st') = S (size (modelCache st))
  ∧ ∀ loader1 loader2 : Loader num,
      generate rnd loader1 options st' = generate rnd loader2 options st'.
Proof.
  intros Hvalid Hmiss Hload st'.
  assert (Hcache : modelCache st' = <[url options := scene]> (modelCache st)).
  { unfold st', generate. rewrite Hvalid. cbn [negb].
    destruct (generate_try_scene rnd loader options st scene)
      as (st1 & _ & _ & Hm1 & ->); [by right|].
    destruct (extract_in_session_frame rnd scene options st1) as (Hm2 & _).
    destruct (extract_in_session rnd scene options st1) as [[buf|e] st2];
      cbn [fst snd] in Hm2 |- *; [destruct (len buf =? 0)|];
      cbn [snd modelCache log]; congruence. }
  split; [done|]. split.
  { rewrite Hcache. by apply map_size_insert_None. }
  intros loader1 loader2. unfold generate, generate_try.
  by rewrite Hcache, lookup_insert_eq.
Qed.

End ModelLoading.

Section ModelLoadingExample.
Import ModelGenerator.


Lemma model_cache_grows_without_limit_witness :
  let scene : Scene R := [NotMesh] in
  let options : ModelOptions R :=
    {| url := "a.gltf"; scale := None; particleCount := None |} in
  let st : session R :=
    {| printed := []; random_cursor := 0; modelCache := ∅ |} in
  let loader : Loader R := λ _, ([], Ok scene) in
  isValidModelUrl (url options) = true
  ∧ modelCache st !! url options = None
  ∧ (loader (url options)).2 = Ok scene
  ∧ size (modelCache (generate (λ _, 0%R) loader options st).2)
    = S (size (modelCache st)).
Proof.
  intros scene options st loader.
  assert (H1 : isValidModelUrl (url options) = true) by (by vm_compute).
  assert (H2 : modelCache st !! url options = None) by apply lookup_empty.
  assert (H3 : (loader (url options)).2 = Ok scene) by reflexivity.
  split; [exact H1|]. split; [exact H2|]. split; [exact H3|].
  apply (model_cache_grows_without_limit (λ _, 0%R) loader options st scene
           H1 H2 H3).
Defined.

End ModelLoadingExample.

(** ** The weaver: colours, sizes and the creation of the system *)

Section WeaverBatches.
Context {num : Type} `{JSNumber num}.
Import ParticleWeaver.

Lemma processBatch_nothing (three : Three num) (rnd : nat → num)
    (baseColor : Vector3 num) (particle : ParticleOptions num)
    (data : ParticleSystem.ParticleData) (startIndex endIndex : Z)
    (st : gmap nat (list num) * nat) :
  endIndex ≤ startIndex →
  processBatch three rnd baseColor particle data startIndex endIndex st = st.
Proof.
  intros Hle. unfold processBatch. by rewrite seqZ_nil by lia.
Qed.

Lemma processBatch_split (three : Three num) (rnd : nat → num)
    (baseColor : Vector3 num) (particle : ParticleOptions num)
    (data : ParticleSystem.ParticleData) (a b c : Z)
    (st : gmap nat (list num) * nat) :
  a ≤ b ≤ c →
  processBatch three rnd baseColor particle data a c st =
  processBatch three rnd baseColor particle data b c
    (processBatch three rnd baseColor particle data a b st).
Proof.
  intros Habc. unfold processBatch.
  replace (c - a) with ((b - a) + (c - b)) by lia.
  rewrite seqZ_app, foldl_app by lia. do 3 f_equal. lia.
Qed.

(** The loop over the batches processes the indices from [start] to
    [count], each once and in order. *)
Lemma batches_processBatch (three : Three num) (rnd : nat → num)
    (baseColor : Vector3 num) (particle : ParticleOptions num)
    (data : ParticleSystem.ParticleData) (count start : Z)
    (st : gmap nat (list num) * nat) :
  batches (processBatch three rnd baseColor particle data) count start st =
  processBatch three rnd baseColor particle data start count st.
Proof.
  remember (processBatch three rnd baseColor particle data) as process
    eqn:Hprocess.
  revert Hprocess. funelim (batches process count start st); intros ->.
  - match goal with IH : ∀ _ _ _ _ _, _ → _ |- _ =>
      rewrite (IH _ _ _ _ _ eq_refl) end.
    destruct (decide (start + batchSize ≤ count)) as [Hle|Hgt].
    + rewrite Z.min_l by done. symmetry. apply processBatch_split.
      unfold batchSize in *. lia.
    + rewrite Z.min_r by lia. apply processBatch_nothing. lia.
  - symmetry. apply processBatch_nothing. lia.
Qed.

(** X16. Batching does not show. For every count, colours and sizes
    are initialised as by one pass over the particles [0 .. count - 1]:
    the batches of 10000 cover every index once, in order, without gap
    or overlap, so the random numbers are drawn in the same order. *)
Theorem batches_are_one_pass (three : Three num) (rnd : nat → num)
    (particle : ParticleOptions num) (data : ParticleSystem.ParticleData)
    (st : gmap nat (list num) * nat) :
  initializeParticleProperties three rnd particle data st =
  foldl
    (processBatch_step three rnd (new_Color three (color particle)) particle
       data)
    st (seqZ 0 (ParticleSystem.count data)).
Proof.
  unfold initializeParticleProperties.
  destruct (batchSize <? ParticleSystem.count data).
  - rewrite batches_processBatch. unfold processBatch. by rewrite Z.sub_0_r.
  - unfold processBatch. by rewrite Z.sub_0_r.
Qed.

End WeaverBatches.

Section WeaverCreation.
Context {num : Type} `{JSNumber num}.
Import ParticleWeaver.

(** The colour and the size that [processBatch] gives a particle when
    its iteration begins at cursor [c]. *)
Lemma processBatch_step_run (three : Three num) (rnd : nat → num)
    (baseColor : Vector3 num) (particle : ParticleOptions num)
    (data : ParticleSystem.ParticleData) (σ : gmap nat (list num))
    (cs ss : Float32Array num) (c : nat) (i : Z) :
  ParticleSystem.colors data ≠ ParticleSystem.sizes data →
  processBatch_step three rnd baseColor particle data
    (<[ParticleSystem.sizes data := ss]>
       (<[ParticleSystem.colors data := cs]> σ), c) i
  = (let '(r, g, b) := particle_color three rnd baseColor particle c in
     <[ParticleSystem.sizes data :=
         aset ss i (particle_size rnd particle
                      (c + draws_per_particle particle - 1))]>
       (<[ParticleSystem.colors data :=
            aset (aset (aset cs (i * 3) r) (i * 3 + 1) g) (i * 3 + 2) b]> σ),
     (c + draws_per_particle particle)%nat).
Proof.
  intros Hne. unfold processBatch_step, particle_color, particle_size,
    draws_per_particle.
  destruct (is_positive (colorVariation particle)).
  - destruct (offsetHSL three _ _ _ _) as [[r g] b].
    rewrite alter_insert_ne, alter_insert_eq, alter_insert_eq by done.
    replace (c + 4 - 1)%nat with (c + 3)%nat by lia.
    by replace (S (c + 3)) with (c + 4)%nat by lia.
  - destruct baseColor as [[r g] b].
    rewrite alter_insert_ne, alter_insert_eq, alter_insert_eq by done.
    replace (c + 1 - 1)%nat with c by lia.
    by replace (S c) with (c + 1)%nat by lia.
Qed.

(** The loop of [processBatch] over the first [m] particles, on two
    distinct arrays that hold them. *)
Lemma processBatch_run (three : Three num) (rnd : nat → num)
    (baseColor : Vector3 num) (particle : ParticleOptions num)
    (data : ParticleSystem.ParticleData) (σ : gmap nat (list num))
    (cs ss : Float32Array num) (c : nat) :
  ParticleSystem.colors data ≠ ParticleSystem.sizes data →
  ∀ m : nat,
    3 * Z.of_nat m ≤ len cs → Z.of_nat m ≤ len ss →
    ∃ cs' ss',
      foldl (processBatch_step three rnd baseColor particle data)
        (<[ParticleSystem.sizes data := ss]>
           (<[ParticleSystem.colors data := cs]> σ), c)
        (seqZ 0 (Z.of_nat m))
      = (<[ParticleSystem.sizes data := ss']>
           (<[ParticleSystem.colors data := cs']> σ),
         (c + draws_per_particle particle * m)%nat)
      ∧ len cs' = len cs ∧ len ss' = len ss
      ∧ ∀ i, 0 ≤ i < Z.of_nat m →
          aget ss' i =
          fround (particle_size rnd particle
                    (c + draws_per_particle particle * Z.to_nat i
                     + draws_per_particle particle - 1))
          ∧ point cs' i =
            (let '(r, g, b) :=
               particle_color three rnd baseColor particle
                 (c + draws_per_particle particle * Z.to_nat i) in
             (fround r, fround g, fround b)).
Proof.
  intros Hne m. induction m as [|m IH]; intros Hcs Hss.
  - exists cs, ss. cbn [seqZ foldl]. rewrite Nat.mul_0_r, Nat.add_0_r.
    split; [done|]. split; [done|]. split; [done|]. intros i Hi. lia.
  - destruct IH as (cs1 & ss1 & Hrun & Hlen1 & Hlen2 & Hget); [lia..|].
    rewrite seqZ_S, foldl_snoc, Hrun, Z.add_0_l, processBatch_step_run
      by done.
    destruct (particle_color three rnd baseColor particle _)
      as [[r g] b] eqn:Hcolor.
    eexists _, _. split; [|split; [|split]].
    + f_equal. rewrite Nat.mul_succ_r. lia.
    + by rewrite !len_aset.
    + by rewrite len_aset.
    + intros i Hi. destruct (decide (i = Z.of_nat m)) as [->|Hi'].
      * rewrite aget_aset_eq by lia. rewrite point_write3 by lia.
        rewrite decide_True by done. by rewrite Nat2Z.id, Hcolor.
      * rewrite aget_aset_ne by done. rewrite point_write3 by lia.
        rewrite decide_False by done. apply Hget. lia.
Qed.

Lemma initialize_as_fold (three : Three num) (rnd : nat → num)
    (particle : ParticleOptions num) (data : ParticleSystem.ParticleData)
    (st : gmap nat (list num) * nat) :
  initializeParticleProperties three rnd particle data st =
  foldl
    (processBatch_step three rnd (new_Color three (color particle)) particle
       data)
    st (seqZ 0 (ParticleSystem.count data)).
Proof.
  unfold initializeParticleProperties.
  destruct (batchSize <? ParticleSystem.count data);
    rewrite ?batches_processBatch; unfold processBatch; by rewrite Z.sub_0_r.
Qed.

Lemma fresh_lookup (σ : gmap nat (list num)) : σ !! fresh (dom σ) = None.
Proof. apply not_elem_of_dom, is_fresh. Qed.

(** What [createParticleSystem] does with a buffer of [n] points: it
    always succeeds. The system has [n] particles; its data name the
    buffer itself as [positions]; colours and sizes are new arrays of
    [3n] and [n] numbers, filled particle by particle; the arrays that
    existed are untouched. *)
Lemma createParticleSystem_run (three : Three num) (rnd : nat → num)
    (this : t num) (positions : ParticleSystem.ref) (a : Float32Array num)
    (n : Z) (particleOptions : ParticleOptions num) :
  memory this !! positions = Some a →
  len a = 3 * n →
  particle (options this) = Some particleOptions →
  let k := draws_per_particle particleOptions in
  let c0 := random_cursor this in
  ∃ this' s cs ss,
    createParticleSystem three rnd this positions = Some (Ok tt, this')
    ∧ particleSystem this' = Some s
    ∧ options this' = options this
    ∧ ParticleSystem.count (ParticleSystem.data s) = n
    ∧ ParticleSystem.positions (ParticleSystem.data s) = positions
    ∧ ParticleSystem.options s
      = ParticleSystem.with_defaults (system particleOptions)
    ∧ memory this' !! ParticleSystem.position_attribute s = Some a
    ∧ ParticleSystem.position_attribute s ≠ positions
    ∧ memory this' !! ParticleSystem.color_attribute s = Some cs
    ∧ memory this' !! ParticleSystem.aSize_attribute s = Some ss
    ∧ len cs = 3 * n ∧ len ss = n
    ∧ (∀ i, 0 ≤ i < n →
         aget ss i =
         fround (particle_size rnd particleOptions
                   (c0 + k * Z.to_nat i + k - 1))
         ∧ point cs i =
           (let '(r, g, b) :=
              particle_color three rnd
                (new_Color three (color particleOptions)) particleOptions
                (c0 + k * Z.to_nat i) in
            (fround r, fround g, fround b)))
    ∧ random_cursor this' = (c0 + k * Z.to_nat n + Z.to_nat (n * 3))%nat
    ∧ scene this' = scene this ++ ParticleSystem.getRenderableObjects s
    ∧ lines this' =
      lines this
      ++ (if 50000 <? n then [WarnLargeParticleCount n] else [])
      ++ (if 100 * (1024 * 1024) <? len a * 4 * 4 then [WarnHighMemory]
          else [])
    ∧ (∀ r, is_Some (memory this !! r) → memory this' !! r = memory this !! r).
Proof.
  intros Ha Hlen Hparticle k c0.
  pose proof (len_nonneg a) as Hnn.
  unfold createParticleSystem, ParticleSystem.deref. rewrite Ha.
  cbn [default]. cbv [Datatypes.id].
  replace (len a `mod` 3 =? 0) with true
    by (symmetry; apply Z.eqb_eq; rewrite Hlen, Z.mul_comm;
        apply Z.mod_mul; lia).
  cbn [negb].
  replace (len a / 3) with n by (rewrite Hlen, Z.mul_comm, Z.div_mul; lia).
  set (this1 := if 50000 <? n then _ else _).
  set (this2 := if 100 * (1024 * 1024) <? _ then _ else _).
  assert (H2 : memory this2 = memory this ∧ options this2 = options this
               ∧ random_cursor this2 = c0 ∧ scene this2 = scene this
               ∧ particleSystem this2 = particleSystem this
               ∧ lines this2 =
                 lines this
                 ++ (if 50000 <? n then [WarnLargeParticleCount n] else [])
                 ++ (if 100 * (1024 * 1024) <? len a * 4 * 4
                     then [WarnHighMemory] else [])).
  { unfold this2, this1.
    destruct (50000 <? n), (100 * (1024 * 1024) <? len a * 4 * 4);
      cbn [memory options random_cursor scene particleSystem lines warn];
      rewrite <- ?app_assoc, ?app_nil_r; done. }
  destruct H2 as (Hm2 & Ho2 & Hc2 & Hs2 & _ & Hl2).
  clearbody this2. clear this1.
  rewrite Hm2, Ho2, Hparticle, Hc2, Ha. cbn [default]. cbv [Datatypes.id].
  unfold ParticleSystem.alloc. cbv zeta.
  set (σ0 := memory this) in *.
  set (r1 := fresh (dom σ0)). set (σ1 := <[r1 := a]> σ0).
  set (r2 := fresh (dom σ1)).
  set (σ2 := <[r2 := replicate (Z.to_nat (len a)) (#0)%J]> σ1).
  set (r3 := fresh (dom σ2)).
  set (zc := replicate (Z.to_nat (n * 3)) (#0)%J).
  set (r4 := fresh (dom (<[r3 := zc]> σ2))).
  set (zs := replicate (Z.to_nat n) (#0)%J).
  set (d := {| ParticleSystem.originalPositions := r1 |}).
  assert (F1 : σ0 !! r1 = None) by apply fresh_lookup.
  assert (F2 : σ1 !! r2 = None) by apply fresh_lookup.
  assert (F3 : σ2 !! r3 = None) by apply fresh_lookup.
  assert (F4 : <[r3 := zc]> σ2 !! r4 = None) by apply fresh_lookup.
  assert (Hkeep2 : ∀ r, is_Some (σ0 !! r) → σ2 !! r = σ0 !! r).
  { intros r Hr. unfold σ2, σ1.
    rewrite !lookup_insert_ne; [done|..].
    - intros <-. rewrite F1 in Hr. by destruct Hr.
    - intros <-. unfold σ1 in F2. rewrite lookup_insert_ne in F2.
      + rewrite F2 in Hr. by destruct Hr.
      + intros <-. by rewrite lookup_insert_eq in F2. }
  assert (H34 : r3 ≠ r4).
  { intros E. rewrite <- E, lookup_insert_eq in F4. done. }
  assert (Hr3 : ∀ r, is_Some (σ2 !! r) → r ≠ r3 ∧ r ≠ r4).
  { intros r Hr. split.
    - intros ->. rewrite F3 in Hr. by destruct Hr.
    - intros ->. rewrite lookup_insert_ne in F4 by done.
      rewrite F4 in Hr. by destruct Hr. }
  assert (Hzc : len zc = 3 * n).
  { unfold len, zc. rewrite length_replicate. lia. }
  assert (Hzs : len zs = n).
  { unfold len, zs. rewrite length_replicate. lia. }
  rewrite initialize_as_fold.
  change (ParticleSystem.count d) with n.
  destruct (processBatch_run three rnd
              (new_Color three (color particleOptions)) particleOptions d σ2
              zc zs c0 H34 (Z.to_nat n))
    as (cs & ss & Hrun & Hcs & Hss & Hget); [lia..|].
  rewrite Z2Nat.id in Hrun, Hget by lia.
  change (ParticleSystem.colors d) with r3 in *.
  change (ParticleSystem.sizes d) with r4 in *.
  rewrite Hrun. fold k in Hrun, Hget |- *.
  set (σ5 := <[r4 := ss]> (<[r3 := cs]> σ2)).
  assert (Hkeep5 : ∀ r, is_Some (σ0 !! r) → σ5 !! r = σ0 !! r).
  { intros r Hr. unfold σ5.
    destruct (Hr3 r) as [N3 N4]; [by rewrite Hkeep2|].
    rewrite !lookup_insert_ne by done. by apply Hkeep2. }
  assert (Hpos5 : σ5 !! positions = Some a).
  { rewrite Hkeep5; [done|]. by rewrite Ha. }
  assert (Hvalid : ParticleSystem.valid_data σ5 d).
  { unfold ParticleSystem.valid_data. cbn [d ParticleSystem.positions
      ParticleSystem.colors ParticleSystem.sizes].
    rewrite Hpos5. unfold σ5.
    rewrite lookup_insert_eq, lookup_insert_ne, lookup_insert_eq by done.
    eauto. }
  assert (Hd5 : ParticleSystem.deref σ5 positions = a
                ∧ ParticleSystem.deref σ5 r3 = cs
                ∧ ParticleSystem.deref σ5 r4 = ss).
  { unfold ParticleSystem.deref. rewrite Hpos5. unfold σ5.
    by rewrite lookup_insert_eq, lookup_insert_ne, lookup_insert_eq. }
  destruct Hd5 as (D1 & D2 & D3).
  destruct (constructor_ok rnd (c0 + k * Z.to_nat n) σ5 d
              (system particleOptions) Hvalid) as (s & σ' & c' & Hnew).
  { cbn [d ParticleSystem.positions]. rewrite D1, Hlen, Z.mul_comm.
    apply Z.rem_mul. lia. }
  { cbn [d ParticleSystem.colors ParticleSystem.count]. rewrite D2. lia. }
  { cbn [d ParticleSystem.sizes ParticleSystem.count]. rewrite D3. lia. }
  destruct (constructor_state _ _ _ _ _ _ _ _ Hvalid Hnew)
    as (Sd & So & Sfresh & Sattr & Skeep & Scol & Ssz & _ & Sc & _).
  rewrite Hnew.
  eexists _, s, cs, ss. split; [reflexivity|].
  cbn [particleSystem options memory random_cursor scene lines].
  rewrite Sd, Scol, Ssz. cbn [d ParticleSystem.count ParticleSystem.positions
    ParticleSystem.colors ParticleSystem.sizes].
  split; [done|]. split; [done|]. split; [done|]. split; [done|].
  split; [done|]. split.
  { rewrite Sattr. cbn [d ParticleSystem.positions]. by rewrite D1. }
  split.
  { intros E. rewrite E in Sfresh. cbn [d ParticleSystem.positions] in *.
    by rewrite Sfresh in Hpos5. }
  split.
  { rewrite Skeep; unfold σ5.
    - by rewrite lookup_insert_ne, lookup_insert_eq.
    - rewrite lookup_insert_ne, lookup_insert_eq by done. eauto. }
  split.
  { rewrite Skeep; unfold σ5; rewrite lookup_insert_eq; eauto. }
  split; [lia|]. split; [lia|]. split; [exact Hget|].
  split; [by rewrite Sc|]. split; [by rewrite Hs2|]. split; [done|].
  intros r Hr. rewrite Skeep.
  - by apply Hkeep5.
  - by rewrite Hkeep5.
Qed.

End WeaverCreation.

Section WeaverShape.
Context {num : Type} `{JSNumber num}.
Import ParticleWeaver.

Lemma generate_length (shapeOptions : SphereGenerator.ShapeOptions num) :
  let n := or_defaultZ (SphereGenerator.count shapeOptions) 1000 in
  (n < 0 →
   SphereGenerator.generate shapeOptions
   = Throw "RangeError: Invalid typed array length")
  ∧ (0 < n →
     ∃ ps, SphereGenerator.generate shapeOptions = Ok ps ∧ len ps = 3 * n).
Proof.
  intros n. unfold SphereGenerator.generate. fold n. unfold new_Float32Array.
  split; intros Hn.
  - by replace (n * 3 <? 0) with true by lia.
  - replace (n * 3 <? 0) with false by lia. cbn [mbind outcome_bind].
    eexists. split; [done|]. rewrite len_generate_loop.
    unfold len. rewrite length_replicate. lia.
Qed.

(** [createParticlesFromShape] on a request for [n > 0] points: the
    positions become a new array, and the system is created from it. *)
Lemma createParticlesFromShape_run (three : Three num) (rnd : nat → num)
    (this : t num) (shapeOptions : SphereGenerator.ShapeOptions num)
    (particleOptions : ParticleOptions num) :
  shape (options this) = Some shapeOptions →
  particle (options this) = Some particleOptions →
  let n := or_defaultZ (SphereGenerator.count shapeOptions) 1000 in
  let k := draws_per_particle particleOptions in
  0 < n →
  ∃ this' s ps cs ss,
    createParticlesFromShape three rnd this = Some (Ok tt, this')
    ∧ SphereGenerator.generate shapeOptions = Ok ps
    ∧ particleSystem this' = Some s
    ∧ ParticleSystem.count (ParticleSystem.data s) = n
    ∧ memory this !! ParticleSystem.positions (ParticleSystem.data s) = None
    ∧ memory this' !! ParticleSystem.positions (ParticleSystem.data s)
      = Some ps
    ∧ memory this' !! ParticleSystem.position_attribute s = Some ps
    ∧ memory this' !! ParticleSystem.color_attribute s = Some cs
    ∧ memory this' !! ParticleSystem.aSize_attribute s = Some ss
    ∧ len ps = 3 * n ∧ len cs = 3 * n ∧ len ss = n
    ∧ (∀ i, 0 ≤ i < n →
         aget ss i =
         fround (particle_size rnd particleOptions
                   (random_cursor this + k * Z.to_nat i + k - 1)))
    ∧ scene this' = scene this ++ ParticleSystem.getRenderableObjects s
    ∧ random_cursor this' =
      (random_cursor this + k * Z.to_nat n + Z.to_nat (n * 3))%nat
    ∧ ∀ r, is_Some (memory this !! r) → memory this' !! r = memory this !! r.
Proof.
  intros Hshape Hparticle n k Hn.
  destruct (generate_length shapeOptions) as [_ Hpos]. fold n in Hpos.
  destruct (Hpos Hn) as (ps & Hgen & Hps).
  unfold createParticlesFromShape. rewrite Hshape, Hgen.
  unfold ParticleSystem.alloc. cbv zeta.
  set (r0 := fresh (dom (memory this))).
  set (this0 := set_memory this _ _).
  assert (F0 : memory this !! r0 = None) by apply fresh_lookup.
  assert (H0 : memory this0 !! r0 = Some ps).
  { unfold this0. cbn [memory set_memory]. apply lookup_insert_eq. }
  destruct (createParticleSystem_run three rnd this0 r0 ps n particleOptions)
    as (this' & s & cs & ss & Hrun & Hs & _ & Hcount & Hp & _ & Hattr & _
        & Hcol & Hsz & Hcs & Hss & Hget & Hc & Hscene & _ & Hkeep);
    [done..|].
  exists this', s, ps, cs, ss. rewrite Hp.
  split; [exact Hrun|]. do 3 (split; [done|]). split; [done|].
  split; [by rewrite Hkeep, H0 by (by rewrite H0)|].
  do 6 (split; [done|]). split; [intros i Hi; by apply Hget|].
  do 2 (split; [done|]).
  intros r Hr.
  assert (Hr0 : memory this0 !! r = memory this !! r).
  { unfold this0. cbn [memory set_memory]. rewrite lookup_insert_ne; [done|].
    intros <-. rewrite F0 in Hr. by destruct Hr. }
  rewrite Hkeep; [done|]. by rewrite Hr0.
Qed.


End WeaverShape.

Section WeaverShapeExample.
Import ParticleWeaver.


End WeaverShapeExample.

Section WeaverReal.
Import ParticleWeaver.

Lemma Math_max_real (a b : R) : Math_max a b = Rmax a b.
Proof.
  unfold Math_max, Rmax. cbn [isNaN nltb RNum orb].
  destruct (Rlt_dec a b), (Rle_dec a b); lra.
Qed.

(** X18. Sizes and colours, in exact arithmetic. When the particle
    group has a [size] and a [sizeVariation], every particle gets the
    size [max(0.01, size + (random - 0.5) * sizeVariation)], which is at
    least 0.01 and is [size] itself when the variation is 0 and the size
    is at least 0.01; when [colorVariation] is not positive every
    particle gets the base colour and one random number is drawn per
    particle. *)
Theorem particle_sizes_and_colours (three : Three R) (rnd : nat → R)
    (this : t R) (positions : ParticleSystem.ref) (a : Float32Array R)
    (n : Z) (particleOptions : ParticleOptions R) (sz sv : R) :
  memory this !! positions = Some a →
  len a = 3 * n →
  particle (options this) = Some particleOptions →
  size particleOptions = Some sz →
  sizeVariation particleOptions = Some sv →
  ∃ this' s cs ss,
    createParticleSystem three rnd this positions = Some (Ok tt, this')
    ∧ particleSystem this' = Some s
    ∧ memory this' !! ParticleSystem.color_attribute s = Some cs
    ∧ memory this' !! ParticleSystem.aSize_attribute s = Some ss
    ∧ ∀ i, 0 ≤ i < n →
        (1 / 100 <= aget ss i)%R
        ∧ (∃ c, aget ss i = Rmax (1 / 100) (sz + (rnd c - 1 / 2) * sv))
        ∧ (sv = 0%R → (1 / 100 <= sz)%R → aget ss i = sz)
        ∧ (is_positive (colorVariation particleOptions) = false →
           point cs i = new_Color three (color particleOptions)
           ∧ aget ss i =
             Rmax (1 / 100)
               (sz + (rnd (random_cursor this + Z.to_nat i)%nat - 1 / 2) * sv)).
Proof.
  intros Ha Hlen Hparticle Hsize Hvar.
  destruct (createParticleSystem_run three rnd this positions a n
              particleOptions Ha Hlen Hparticle)
    as (this' & s & cs & ss & Hrun & Hs & _ & _ & _ & _ & _ & _
        & Hcol & Hsz & _ & _ & Hget & _).
  exists this', s, cs, ss. do 4 (split; [done|]).
  intros i Hi. destruct (Hget i Hi) as [Hsize_i Hcolor_i].
  assert (Hformula : ∀ c,
    fround (particle_size rnd particleOptions c)
    = Rmax (1 / 100) (sz + (rnd c - 1 / 2) * sv)).
  { intros c. unfold particle_size. rewrite Math_max_real, Hsize, Hvar.
    reflexivity. }
  rewrite Hsize_i, Hformula. split; [apply Rmax_l|]. split; [by eexists|].
  split.
  - intros -> Hsz0. rewrite Rmult_0_r, Rplus_0_r. by apply Rmax_right.
  - intros Hcv. unfold particle_color, draws_per_particle in *.
    rewrite Hcv in *. split.
    + rewrite Hcolor_i. by destruct (new_Color three _) as [[r g] b].
    + replace (random_cursor this + 1 * Z.to_nat i + 1 - 1)%nat
        with (random_cursor this + Z.to_nat i)%nat by lia.
      done.
Qed.

Lemma particle_sizes_and_colours_witness :
  let three : Three R :=
    {| new_Color := λ _, (1, 1, 1)%R; offsetHSL := λ c _ _ _, c |} in
  let particleOptions : ParticleOptions R :=
    {| size := Some 1%R; color := None; opacity := None;
       sizeVariation := Some 0%R; colorVariation := None;
       system := no_system_options |} in
  let this : t R :=
    {| options :=
         {| camera := None; renderer := None; shape := None; model := None;
            particle := Some particleOptions |};
       memory := <[0%nat := [1; 2; 3]%R]> ∅; random_cursor := 0;
       lines := []; scene := []; particleSystem := None |} in
  memory this !! 0%nat = Some [1; 2; 3]%R
  ∧ len [1; 2; 3]%R = 3 * 1
  ∧ particle (options this) = Some particleOptions
  ∧ size particleOptions = Some 1%R
  ∧ sizeVariation particleOptions = Some 0%R
  ∧ ∃ this' s cs ss,
      createParticleSystem three (λ _, 0%R) this 0%nat = Some (Ok tt, this')
      ∧ particleSystem this' = Some s
      ∧ memory this' !! ParticleSystem.color_attribute s = Some cs
      ∧ memory this' !! ParticleSystem.aSize_attribute s = Some ss
      ∧ (1 / 100 <= aget ss 0)%R.
Proof.
  intros three particleOptions this.
  assert (H1 : memory this !! 0%nat = Some [1; 2; 3]%R).
  { apply lookup_insert_eq. }
  assert (H2 : len [1; 2; 3]%R = 3 * 1) by reflexivity.
  split; [exact H1|]. split; [exact H2|]. do 3 (split; [reflexivity|]).
  destruct (particle_sizes_and_colours three (λ _, 0%R) this 0%nat
              [1; 2; 3]%R 1 particleOptions 1%R 0%R H1 H2 eq_refl eq_refl
              eq_refl) as (this' & s & cs & ss & Hrun & Hs & Hcs & Hss & Hget).
  exists this', s, cs, ss. do 4 (split; [done|]).
  apply (Hget 0). lia.
Defined.

End WeaverReal.

Section WeaverOptions.
Context {num : Type} `{JSNumber num}.
Import ParticleWeaver.

(** What [mergeDefaultOptions] returns for the three groups: a group
    that the caller passes is returned as passed, because [...options]
    comes last in the object literal and overwrites the merged group;
    the defaults are in the result only for a group that is absent. *)
Lemma mergeDefaultOptions_groups (given : ParticleWeaverOptions num) :
  camera (mergeDefaultOptions given)
  = Some (default cameraDefaults (camera given))
  ∧ renderer (mergeDefaultOptions given)
    = Some (default rendererDefaults (renderer given))
  ∧ particle (mergeDefaultOptions given)
    = Some (default particleDefaults (particle given))
  ∧ shape (mergeDefaultOptions given) = shape given
  ∧ model (mergeDefaultOptions given) = model given.
Proof.
  unfold mergeDefaultOptions, spread, spread_onto.
  cbn [camera renderer particle shape model].
  by destruct (camera given), (renderer given), (particle given),
       (shape given), (model given).
Qed.

End WeaverOptions.

Section WeaverBinary64.
Import ParticleWeaver.
Variables fsin fcos : float → float.
Local Abbreviation F := (FNum fsin fcos).

Lemma float_add_nan_r (x : float) : (x + nan)%float = nan.
Proof.
  apply Prim2SF_inj. rewrite add_spec, Prim2SF_nan.
  unfold SF64add, SFadd. by destruct (Prim2SF x).
Qed.

(** Without a [sizeVariation] the size is computed from [undefined]:
    the product, the sum and the maximum are NaN. *)
Lemma particle_size_without_variation (rnd : nat → float)
    (particleOptions : ParticleOptions float) (c : nat) :
  sizeVariation particleOptions = None →
  @fround float F (@particle_size float F rnd particleOptions c) = nan.
Proof.
  intros Hvar. unfold particle_size, Math_max, to_number. rewrite Hvar.
  cbn [default undef isNaN nadd nmul nsub FNum].
  rewrite float_mul_nan_r, float_add_nan_r.
  change (PrimFloat.is_nan nan) with true. by rewrite orb_true_r.
Qed.

(** X19. A partial particle group loses the defaults. When the caller
    passes a [particle] group, [mergeDefaultOptions] returns that group
    as passed: the defaults for [size], [sizeVariation] and the colour
    apply only when no group is passed at all. For a group without
    [sizeVariation] (such as [{ size: 1, color: '#4fc3f7' }]) the weaver
    then computes every size from [undefined]: in binary64 the system is
    created and the size of every particle is NaN. *)
Theorem partial_particle_group_gives_nan_sizes (three : Three float)
    (rnd : nat → float) (given : ParticleWeaverOptions float)
    (particleOptions : ParticleOptions float)
    (shapeOptions : SphereGenerator.ShapeOptions float) (this : t float) :
  particle given = Some particleOptions →
  sizeVariation particleOptions = None →
  shape given = Some shapeOptions →
  0 < or_defaultZ (SphereGenerator.count shapeOptions) 1000 →
  options this = @mergeDefaultOptions float F given →
  particle (options this) = Some particleOptions
  ∧ ∃ this' s ss,
      @createParticlesFromShape float F three rnd this = Some (Ok tt, this')
      ∧ particleSystem this' = Some s
      ∧ memory this' !! ParticleSystem.aSize_attribute s = Some ss
      ∧ len ss = or_defaultZ (SphereGenerator.count shapeOptions) 1000
      ∧ ∀ i, 0 ≤ i < len ss → @aget float F ss i = nan.
Proof.
  intros Hparticle Hvar Hshape Hn Hoptions.
  destruct (@mergeDefaultOptions_groups float F given)
    as (_ & _ & Hp & Hs & _).
  rewrite <- Hoptions, Hparticle in Hp. rewrite <- Hoptions, Hshape in Hs.
  cbn [default] in Hp. cbv [Datatypes.id] in Hp. split; [done|].
  destruct (@createParticlesFromShape_run float F three rnd this shapeOptions
              particleOptions Hs Hp Hn)
    as (this' & s & ps & cs & ss & Hrun & _ & Hsys & _ & _ & _ & _ & _ & Hsz
        & _ & _ & Hss & Hget & _).
  exists this', s, ss. do 4 (split; [done|]).
  intros i Hi. rewrite Hget by lia.
  by apply particle_size_without_variation.
Qed.

End WeaverBinary64.

Section WeaverBinary64Example.
Import ParticleWeaver.
Local Abbreviation F0 := (FNum (λ x, x) (λ x, x)).

Lemma partial_particle_group_gives_nan_sizes_witness :
  let three : Three float :=
    {| new_Color := λ _, (1, 1, 1)%float; offsetHSL := λ c _ _ _, c |} in
  let particleOptions : ParticleOptions float :=
    {| size := Some 1%float; color := Some (ColorString "#4fc3f7");
       opacity := None; sizeVariation := None; colorVariation := None;
       system := @no_system_options float |} in
  let shapeOptions : SphereGenerator.ShapeOptions float :=
    sphere_request 2 1%float in
  let given : ParticleWeaverOptions float :=
    {| camera := None; renderer := None; shape := Some shapeOptions;
       model := None; particle := Some particleOptions |} in
  let this : t float :=
    {| options := @mergeDefaultOptions float F0 given; memory := ∅;
       random_cursor := 0; lines := []; scene := [];
       particleSystem := None |} in
  particle given = Some particleOptions
  ∧ sizeVariation particleOptions = None
  ∧ shape given = Some shapeOptions
  ∧ 0 < or_defaultZ (SphereGenerator.count shapeOptions) 1000
  ∧ options this = @mergeDefaultOptions float F0 given
  ∧ ∃ this' s ss,
      @createParticlesFromShape float F0 three (λ _, 0.5%float) this
      = Some (Ok tt, this')
      ∧ particleSystem this' = Some s
      ∧ memory this' !! ParticleSystem.aSize_attribute s = Some ss
      ∧ ∀ i, 0 ≤ i < len ss → @aget float F0 ss i = nan.
Proof.
  intros three particleOptions shapeOptions given this.
  assert (Hn : 0 < or_defaultZ (SphereGenerator.count shapeOptions) 1000)
    by (cbn; lia).
  do 3 (split; [reflexivity|]). split; [exact Hn|]. split; [reflexivity|].
  destruct (partial_particle_group_gives_nan_sizes (λ x, x) (λ x, x) three
              (λ _, 0.5%float) given particleOptions shapeOptions this eq_refl eq_refl eq_refl
              Hn eq_refl)
    as (_ & this' & s & ss & Hrun & Hs & Hss & _ & Hnan).
  exists this', s, ss. split; [exact Hrun|]. split; [exact Hs|].
  split; [exact Hss|]. exact Hnan.
Defined.

End WeaverBinary64Example.

(** ** Particles on the surface of a model *)

Section SurfaceSampling.
Context {num : Type} `{JSNumber num}.
Import ModelGenerator.

(** The [while] loop of [generateOnSurface]: where it stops. *)
Lemma surface_loop_run (rnd : nat → num) (rc : Raycasting num)
    (meshes : list (Mesh num)) (box : Vector3 num * Vector3 num)
    (scale : num) (count maxAttempts placed attempts : Z)
    (positions : Float32Array num) (c : nat) :
  placed ≤ count → attempts ≤ maxAttempts →
  match surface_loop rnd rc meshes box scale count maxAttempts placed
          attempts positions c with
  | Ok (positions', placed', attempts', c') =>
      placed ≤ placed' ≤ count
      ∧ attempts ≤ attempts' ≤ maxAttempts
      ∧ placed' - placed ≤ attempts' - attempts
      ∧ (placed' = count ∨ attempts' = maxAttempts)
      ∧ c' = (c + 4 * Z.to_nat (attempts' - attempts))%nat
      ∧ len positions' = len positions
  | Throw _ =>
      ∃ k, (k < Z.to_nat (maxAttempts - attempts))%nat
           ∧ pick_direction (rnd (c + 4 * k + 3)%nat) = None
  end.
Proof.
  funelim (surface_loop rnd rc meshes box scale count maxAttempts placed
             attempts positions c); intros Hplaced Hattempts.
  - destruct (pick_direction (rnd (c + 3)%nat)) as [direction|] eqn:Hdir.
    + destruct (intersectObjects rc meshes _ direction) as [|hit hits].
      * match goal with
        | IH : Vector3 num → placed ≤ _ → _ |- _ =>
            pose proof (IH direction ltac:(lia) ltac:(lia)) as Hrest
        end.
        destruct (surface_loop _ _ _ _ _ _ _ placed _ _ _)
          as [[[[ps pl] att] c']|msg].
        -- destruct Hrest as (? & ? & ? & ? & -> & ?).
           repeat split; try lia.
        -- destruct Hrest as (k & Hk & Hnone). exists (S k). split; [lia|].
           rewrite <- Hnone. do 2 f_equal. lia.
      * destruct (multiplyScalar hit _) as [[x y] z].
        match goal with
        | IH : Vector3 num → Vector3 num → _ |- _ =>
            pose proof (IH direction hit hits (x, y) z x y ltac:(lia)
                          ltac:(lia)) as Hrest
        end.
        destruct (surface_loop _ _ _ _ _ _ _ (placed + 1) _ _ _)
          as [[[[ps pl] att] c']|msg].
        -- destruct Hrest as (? & ? & ? & ? & -> & Hlen).
           rewrite !len_aset in Hlen. repeat split; try lia.
        -- destruct Hrest as (k & Hk & Hnone). exists (S k). split; [lia|].
           rewrite <- Hnone. do 2 f_equal. lia.
    + exists 0%nat. split; [lia|]. rewrite <- Hdir. do 2 f_equal. lia.
  - rewrite Z.sub_diag. cbn [Z.to_nat]. repeat split; lia.
Qed.

Lemma loadModel_run (loader : Loader num) (url : string) (st : session num) :
  match loadModel loader url st with
  | (Ok scene, st') =>
      modelCache st' = <[url := scene]> (modelCache st)
      ∧ random_cursor st' = random_cursor st
      ∧ (modelCache st !! url = Some scene
         ∨ (modelCache st !! url = None ∧ (loader url).2 = Ok scene))
  | (Throw error, st') =>
      modelCache st !! url = None ∧ (loader url).2 = Throw error
      ∧ modelCache st' = modelCache st
      ∧ random_cursor st' = random_cursor st
  end.
Proof.
  unfold loadModel. destruct (modelCache st !! url) as [scene|] eqn:Hurl.
  - split; [by rewrite insert_id|]. by eauto.
  - destruct (loader url) as [progress [scene|error]]; cbn; by eauto.
Qed.

(** The random numbers an extraction draws: at most as many as the cap
    of the resampling. *)
Lemma extractVertices_cursor (rnd : nat → num) (scene : Scene num)
    (options : ModelOptions num) (w : world) :
  (cursor w
   ≤ cursor (extractVertices rnd scene options w).2
   ≤ cursor w + Z.to_nat maxParticles)%nat.
Proof.
  destruct (extractVertices_run rnd scene options w) as (_ & _ & ->).
  cbv zeta. destruct (negb _); [|cbn [snd cursor]; lia].
  set (target := match particleCount options with
                 | Some n => _ | None => _ end).
  destruct (decide (target < 0)) as [Hneg|Hpos].
  - rewrite resampleVertices_negative by done. cbn [snd cursor]. lia.
  - edestruct (resampleVertices_run rnd) as (b & -> & _); [lia|].
    cbn [snd cursor console]. unfold maxParticles.
    destruct (_ <=? _); lia.
Qed.

Lemma fill_run (rnd : nat → num) (vertices : Float32Array num)
    (vertexCount : num) (l : list Z) (positions : Float32Array num)
    (c : nat) :
  ∃ positions',
    foldl (fill_step rnd vertices vertexCount) (positions, c) l
    = (positions', (c + length l)%nat)
    ∧ len positions' = len positions.
Proof.
  revert positions c. induction l as [|i l IH]; intros positions c.
  - exists positions. cbn [foldl length]. by rewrite Nat.add_0_r.
  - cbn [foldl fill_step length].
    edestruct IH as (positions' & -> & Hlen). exists positions'.
    split; [f_equal; lia|]. by rewrite Hlen, !len_aset.
Qed.


(** When every ray meets the model, the loop places one point per
    attempt. *)
Lemma surface_loop_all_hit (rnd : nat → num) (rc : Raycasting num)
    (meshes : list (Mesh num)) (box : Vector3 num * Vector3 num)
    (scale : num) (count maxAttempts placed attempts : Z)
    (positions : Float32Array num) (c : nat) :
  (∀ origin direction, intersectObjects rc meshes origin direction ≠ []) →
  (∀ j, pick_direction (rnd j) ≠ None) →
  0 ≤ placed ≤ count → count - placed ≤ maxAttempts - attempts →
  3 * count ≤ len positions →
  ∃ positions',
    surface_loop rnd rc meshes box scale count maxAttempts placed attempts
      positions c
    = Ok (positions', count, attempts + (count - placed),
          (c + 4 * Z.to_nat (count - placed))%nat)
    ∧ len positions' = len positions
    ∧ (∀ i, 0 ≤ i < placed → point positions' i = point positions i)
    ∧ (∀ i, placed ≤ i < count →
         ∃ direction hit hits,
           pick_direction (rnd (c + 4 * Z.to_nat (i - placed) + 3)%nat)
           = Some direction
           ∧ intersectObjects rc meshes
               (random_point rnd box (c + 4 * Z.to_nat (i - placed))%nat)
               direction
             = hit :: hits
           ∧ point positions' i =
             (let '(x, y, z) := multiplyScalar hit scale in
              (fround x, fround y, fround z))).
Proof.
  intros Hhit Hdir.
  funelim (surface_loop rnd rc meshes box scale count maxAttempts placed
             attempts positions c); intros Hplaced Hbudget Hlen.
  - destruct (pick_direction (rnd (c + 3)%nat)) as [direction|] eqn:Hd;
      [|by destruct (Hdir (c + 3)%nat)].
    destruct (intersectObjects rc meshes _ direction) as [|hit hits] eqn:Hi;
      [by destruct (Hhit (random_point rnd box c) direction)|].
    destruct (multiplyScalar hit _) as [[x y] z] eqn:Hxyz.
    match goal with
    | IH : Vector3 num → Vector3 num → _ |- _ =>
        destruct (IH direction hit hits (x, y) z x y Hhit Hdir)
          as (positions' & Hrun & Hlen' & Hkeep & Hget);
          [lia|lia|by rewrite !len_aset|]
    end.
    exists positions'. split; [|split; [|split]].
    + rewrite Hrun. do 2 f_equal; [f_equal; lia|lia].
    + by rewrite Hlen', !len_aset.
    + intros i Hi'. rewrite Hkeep by lia. rewrite point_write3 by lia.
      by rewrite decide_False by lia.
    + intros i Hi'. destruct (decide (i = placed)) as [->|Hne].
      * exists direction, hit, hits. rewrite Z.sub_diag.
        cbn [Z.to_nat]. rewrite Nat.mul_0_r, Nat.add_0_r.
        split; [done|]. split; [done|].
        rewrite Hkeep by lia. rewrite point_write3 by lia.
        rewrite decide_True by done. by rewrite Hxyz.
      * destruct (Hget i) as (d' & h' & hs' & Hd' & Hi'' & Hp'); [lia|].
        exists d', h', hs'.
        replace (c + 4 * Z.to_nat (i - placed))%nat
          with (c + 4 + 4 * Z.to_nat (i - (placed + 1)))%nat by lia.
        done.
  - assert (placed = count0) as -> by lia.
    exists positions. rewrite Z.sub_diag, Z.add_0_r. cbn [Z.to_nat].
    rewrite Nat.mul_0_r, Nat.add_0_r.
    split; [done|]. split; [done|]. split; [done|]. intros i Hi. lia.
Qed.


(** When no ray meets the model, the loop uses up its attempts and
    places nothing. *)
Lemma surface_loop_no_hit (rnd : nat → num) (rc : Raycasting num)
    (meshes : list (Mesh num)) (box : Vector3 num * Vector3 num)
    (scale : num) (count maxAttempts placed attempts : Z)
    (positions : Float32Array num) (c : nat) :
  (∀ origin direction, intersectObjects rc meshes origin direction = []) →
  (∀ j, pick_direction (rnd j) ≠ None) →
  placed < count → attempts ≤ maxAttempts →
  surface_loop rnd rc meshes box scale count maxAttempts placed attempts
    positions c
  = Ok (positions, placed, maxAttempts,
        (c + 4 * Z.to_nat (maxAttempts - attempts))%nat).
Proof.
  intros Hmiss Hdir.
  funelim (surface_loop rnd rc meshes box scale count maxAttempts placed
             attempts positions c); intros Hplaced Hattempts.
  - destruct (pick_direction (rnd (c + 3)%nat)) as [direction|] eqn:Hd;
      [|by destruct (Hdir (c + 3)%nat)].
    rewrite Hmiss.
    match goal with
    | IH : Vector3 num → _ → _ → placed < _ → _ |- _ =>
        rewrite (IH direction Hmiss Hdir) by lia
    end.
    do 2 f_equal. lia.
  - assert (attempts = maxAttempts) as -> by lia.
    rewrite Z.sub_diag. cbn [Z.to_nat]. by rewrite Nat.mul_0_r, Nat.add_0_r.
Qed.

End SurfaceSampling.

Section SurfaceSamplingExample.
Import ModelGenerator.


End SurfaceSamplingExample.

Section SurfaceFallback.
Import ModelGenerator.

Lemma Zfloor_scaled (r : R) (m : Z) :
  (0 <= r < 1)%R → 0 < m → 0 ≤ Zfloor (r * IZR m) < m.
Proof.
  intros [Hr0 Hr1] Hm. assert (HmR : (0 < IZR m)%R) by (by apply IZR_lt).
  split.
  - apply Zfloor_lub. apply Rmult_le_pos; lra.
  - apply lt_IZR. pose proof (Zfloor_bound (r * IZR m)) as [Hlo _].
    eapply Rle_lt_trans; [exact Hlo|]. nra.
Qed.

Lemma pick_direction_real (r : R) :
  (0 <= r < 1)%R → @pick_direction R _ r ≠ None.
Proof.
  intros Hr. unfold pick_direction. cbn [floorZ nmul ofZ RNum].
  change (len (@directions R _)) with 6.
  pose proof (Zfloor_scaled r 6 Hr ltac:(lia)) as Hi.
  destruct (Zfloor (r * 6) <? 0) eqn:E; [lia|].
  intros Hnone. apply lookup_ge_None in Hnone. cbn [length directions] in Hnone.
  lia.
Qed.

(** The fill loop over the first [m] points: each is one of the
    vertices. *)
Lemma fill_from_vertices (rnd : nat → R) (vertices : Float32Array R) (k : Z) :
  len vertices = 3 * k → 0 < k → (∀ j, (0 <= rnd j < 1)%R) →
  ∀ (m : nat) (positions : Float32Array R) (c : nat),
    3 * Z.of_nat m ≤ len positions →
    ∃ positions',
      foldl (fill_step rnd vertices (#(len vertices) / #3)%J) (positions, c)
        (seqZ 0 (Z.of_nat m))
      = (positions', (c + m)%nat)
      ∧ len positions' = len positions
      ∧ ∀ i, 0 ≤ i < Z.of_nat m →
          ∃ j, 0 ≤ j < k ∧ point positions' i = point vertices j.
Proof.
  intros Hv Hk Hrnd m. induction m as [|m IH]; intros positions c Hlen.
  - exists positions. cbn [seqZ foldl]. rewrite Nat.add_0_r.
    split; [done|]. split; [done|]. intros i Hi. lia.
  - destruct (IH positions c) as (p1 & Hrun & Hlen1 & Hget); [lia|].
    rewrite seqZ_S, foldl_snoc, Hrun, Z.add_0_l. cbn [fill_step].
    assert (Hcount : (#(len vertices) / #3)%J = IZR k).
    { cbn [ofZ ndiv RNum]. rewrite Hv, mult_IZR. field. }
    rewrite Hcount. cbn [floorZ nmul RNum].
    pose proof (Zfloor_scaled (rnd (c + m)%nat) k (Hrnd _) Hk) as Hj.
    set (j := Zfloor (rnd (c + m)%nat * IZR k)) in *.
    eexists. split; [f_equal; lia|]. split; [by rewrite !len_aset|].
    intros i Hi. rewrite point_write3 by lia.
    destruct (decide (i = Z.of_nat m)) as [->|Hne].
    + exists j. split; [done|]. by cbn [fround RNum].
    + apply Hget. lia.
Qed.



End SurfaceFallback.

(** ** From a model to a particle system *)

Section WeaverModel.
Context {num : Type} `{JSNumber num}.
Import ParticleWeaver.

(** A buffer that [generate] returns holds a whole number of points,
    between 1 and 15000. *)
Lemma generate_returns_points (rnd : nat → num)
    (loader : ModelGenerator.Loader num)
    (options : ModelGenerator.ModelOptions num)
    (st st' : ModelGenerator.session num) (positions : Float32Array num) :
  ModelGenerator.generate rnd loader options st = (Ok positions, st') →
  ∃ n, len positions = 3 * n ∧ 1 ≤ n ≤ ModelGenerator.maxVertices.
Proof.
  unfold ModelGenerator.generate.
  destruct (ModelGenerator.isValidModelUrl _); cbn [negb]; [|done].
  destruct (ModelGenerator.generate_try rnd loader options st)
    as [[buf|error] st2] eqn:Htry; [|done].
  intros [= -> ->]. revert Htry. unfold ModelGenerator.generate_try.
  set (obtained := match ModelGenerator.modelCache st !! _ with
                   | Some scene => _ | None => _ end).
  destruct obtained as [[scene|error] st1]; [|done].
  pose proof (extract_in_session_frame rnd scene options st1)
    as (_ & _ & Hout & _).
  pose proof (extractVertices_outcome rnd scene options
                {| console := [];
                   cursor := ModelGenerator.random_cursor st1 |})
    as (_ & Hk & Hcases).
  destruct (ModelGenerator.extract_in_session rnd scene options st1)
    as [[buf|error] st2]; [|done].
  cbn [fst] in Hout.
  destruct (len buf =? 0) eqn:E0; [done|]. intros [= -> ->].
  destruct Hcases as [(k & w' & _ & _ & Hrun)|(Hnn & b & w' & Hrun & Hlen)];
    rewrite Hrun in Hout; cbn [fst] in Hout; [done|].
  injection Hout as ->. eexists. split; [exact Hlen|].
  apply Z.eqb_neq in E0.
  unfold ModelGenerator.maxVertices, ModelGenerator.maxParticles in *.
  destruct (ModelGenerator.particleCount options) as [n|];
    [specialize (Hnn n eq_refl); destruct (n =? 0)|];
    destruct (_ =? _) in Hlen |- *; lia.
Qed.

(** X23. From a model to a particle system. [createParticlesFromModel]
    does not throw. Either the weaver gets a particle system of [n]
    particles, with [1 <= n <= 15000] and arrays of [3n], [3n] and [n]
    numbers, whose objects are added to the scene; or [generate] failed,
    the weaver and the scene are left without particles, and the last
    line printed is the error of [generate]. The buffer of the generator
    always passes the checks of the constructor: the failure 'WebGL
    context creation failed' does not occur on this path. *)
Theorem model_becomes_particle_system (three : Three num) (rnd : nat → num)
    (loader : ModelGenerator.Loader num) (this : t num)
    (modelCache : gmap string (ModelGenerator.Scene num))
    (modelOptions : ModelGenerator.ModelOptions num)
    (particleOptions : ParticleOptions num) :
  model (options this) = Some modelOptions →
  particle (options this) = Some particleOptions →
  ∃ this' modelCache',
    createParticlesFromModel three rnd loader this modelCache
    = Some (this', modelCache')
    ∧ ((∃ s n,
          particleSystem this' = Some s
          ∧ ParticleSystem.count (ParticleSystem.getData s) = n
          ∧ 1 ≤ n ≤ ModelGenerator.maxVertices
          ∧ len (ParticleSystem.deref (memory this')
                   (ParticleSystem.position_attribute s)) = 3 * n
          ∧ len (ParticleSystem.deref (memory this')
                   (ParticleSystem.color_attribute s)) = 3 * n
          ∧ len (ParticleSystem.deref (memory this')
                   (ParticleSystem.aSize_attribute s)) = n
          ∧ scene this' = scene this ++ ParticleSystem.getRenderableObjects s)
       ∨ (∃ error before,
            particleSystem this' = particleSystem this
            ∧ scene this' = scene this
            ∧ memory this' = memory this
            ∧ lines this' = before ++ [ErrorFailedToLoadModel error]
            ∧ (ModelGenerator.generate rnd loader modelOptions
                 {| ModelGenerator.printed := [];
                    ModelGenerator.random_cursor := random_cursor this;
                    ModelGenerator.modelCache := modelCache |}).1
              = Throw error)).
Proof.
  intros Hmodel Hparticle. unfold createParticlesFromModel. rewrite Hmodel.
  destruct (ModelGenerator.generate rnd loader modelOptions _)
    as [[positions|error] st] eqn:Hgen.
  - destruct (generate_returns_points _ _ _ _ _ _ Hgen) as (n & Hlen & Hn).
    unfold ParticleSystem.alloc. cbv zeta.
    set (this0 := set_memory _ _ _).
    set (r0 := fresh (dom _)).
    destruct (createParticleSystem_run three rnd this0 r0 positions n
                particleOptions)
      as (this' & s & cs & ss & -> & Hs & _ & Hcount & _ & _ & Hattr & _
          & Hcol & Hsz & Hcs & Hss & _ & _ & Hscene & _);
      [apply lookup_insert_eq|done|done|].
    eexists _, _. split; [reflexivity|]. left. exists s, n.
    unfold ParticleSystem.getData, ParticleSystem.deref.
    rewrite Hattr, Hcol, Hsz. cbn [default]. cbv [Datatypes.id].
    destruct Hn. by repeat split.
  - eexists _, _. split; [reflexivity|]. right. exists error. eexists.
    cbn [particleSystem scene memory lines warn fst].
    by repeat split.
Qed.

End WeaverModel.

Section WeaverModelExample.
Import ParticleWeaver.

Lemma model_becomes_particle_system_witness :
  let three : Three R :=
    {| new_Color := λ _, (1, 1, 1)%R; offsetHSL := λ c _ _ _, c |} in
  let modelOptions : ModelGenerator.ModelOptions R :=
    {| ModelGenerator.url := "model.glb"; ModelGenerator.scale := None;
       ModelGenerator.particleCount := None |} in
  let this : t R :=
    {| options :=
         {| camera := None; renderer := None; shape := None;
            model := Some modelOptions; particle := Some particleDefaults |};
       memory := ∅; random_cursor := 0; lines := []; scene := [];
       particleSystem := None |} in
  let loader : ModelGenerator.Loader R := λ _, ([], Throw "offline") in
  model (options this) = Some modelOptions
  ∧ particle (options this) = Some particleDefaults
  ∧ ∃ this' modelCache',
      createParticlesFromModel three (λ _, 0%R) loader this ∅
      = Some (this', modelCache').
Proof.
  intros three modelOptions this loader.
  split; [reflexivity|]. split; [reflexivity|].
  destruct (model_becomes_particle_system three (λ _, 0%R) loader this ∅
              modelOptions particleDefaults eq_refl eq_refl)
    as (this' & modelCache' & Hrun & _).
  exists this', modelCache'. exact Hrun.
Defined.

End WeaverModelExample.
